(** * ssg: the content library builder and the incremental build engine

    A shallow embedding of [ssg/main.py].  Python values are modelled as
    follows.

    - [str] is [string]: the UTF-8 bytes of the text.  Python compares
      strings by code point, and the byte-wise lexicographic order of UTF-8
      coincides with the code point order, so [a < b] is [String.ltb a b].
    - [int] is [Z] (Python integers are unbounded).
    - [Optional[int]] is [option Z].
    - A [dict] keeps insertion order and is iterated in that order: it is an
      association list with unique keys ([dict_get], [setitem]).  Where the
      order of a dict is never observed (the version map, the output
      directory) it is a [gmap].
    - A [set] of strings is a duplicate free list in an arbitrary order (the
      iteration order of a Python set is unspecified).
    - An exception is the [Raise] branch of [result]. *)

From Stdlib Require Import ZArith Lia Ascii String.
From stdpp Require Import base strings list gmap sorting.

Set Warnings "-register-all".

Local Open Scope string_scope.
Local Open Scope list_scope.
Local Open Scope Z_scope.

(** ** Exceptions *)

Inductive exn : Set :=
| TypeError
| KeyError
| IndexError
| ValueError
| TemplateError.

Inductive result (A : Type) : Type :=
| Ok (a : A)
| Raise (e : exn).
Arguments Ok {A} a.
Arguments Raise {A} e.

#[global] Instance result_ret : MRet result := @Ok.
#[global] Instance result_bind : MBind result :=
  λ A B f m, match m with Ok a => f a | Raise e => Raise e end.

(** ** Insertion ordered dictionaries *)

Abbreviation dict V := (list (string * V)).

Fixpoint dict_get {V} (k : string) (d : dict V) : option V :=
  match d with
  | [] => None
  | (k', v) :: d' => if String.eqb k k' then Some v else dict_get k d'
  end.

(** [d[k]]: raises [KeyError] on a missing key. *)
Definition getitem {V} (d : dict V) (k : string) : result V :=
  match dict_get k d with
  | Some v => Ok v
  | None => Raise KeyError
  end.

(** [d.get(k, dflt)]. *)
Definition get_default {V} (d : dict V) (k : string) (dflt : V) : V :=
  match dict_get k d with
  | Some v => v
  | None => dflt
  end.

(** [d[k] = v]: an existing key keeps its position, a new key goes last. *)
Fixpoint setitem {V} (k : string) (v : V) (d : dict V) : dict V :=
  match d with
  | [] => [(k, v)]
  | (k', v') :: d' =>
      if String.eqb k k' then (k, v) :: d' else (k', v') :: setitem k v d'
  end.

Definition keys {V} (d : dict V) : list string := d.*1.
Definition values {V} (d : dict V) : list V := d.*2.

(** [d.setdefault(k, []).append(x)] *)
Definition setdefault_append {V} (k : string) (x : V) (d : dict (list V))
  : dict (list V) :=
  setitem k (get_default d k [] ++ [x]) d.

(** ** Sets of strings *)

(** [s.add(x)] *)
Definition set_add (x : string) (s : list string) : list string :=
  if bool_decide (x ∈ s) then s else s ++ [x].

(** [s - {x}] *)
Definition set_discard (x : string) (s : list string) : list string :=
  filter (λ y, y ≠ x) s.

(** ** Values of type [Any]: what [tomllib] and [json] produce *)

Inductive value : Type :=
| VNone
| VBool (b : bool)
| VInt (z : Z)
| VFloat (repr : string)
| VStr (s : string)
| VDate (repr : string)
| VList (l : list value)
| VDict (d : list (string * value)).

(** ** The records of the library *)

Module Page.
Record t : Type := mk {
  id : string;
  path : string;
  dir : string;
  filename : string;
  subdirs : list string;
  content : dict value;
  data : dict value;
  tags : list string;
  weight : option Z;
  siblings : list string;
  lighter : option string;
  heavier : option string
}.

(** The call [Page(id, path, dir, filename, subdirs, content, data, tags,
    weight)] of [process_page_file]: the three sibling fields take their
    defaults. *)
Definition new (id path dir filename : string) (subdirs : list string)
    (content data : dict value) (tags : list string) (weight : option Z) : t :=
  mk id path dir filename subdirs content data tags weight [] None None.

(** [page._replace(siblings=s, lighter=l, heavier=h)] *)
Definition replace_siblings (p : t) (s : list string) (l h : option string) : t :=
  mk (id p) (path p) (dir p) (filename p) (subdirs p) (content p) (data p)
     (tags p) (weight p) s l h.
End Page.

Record Task : Type := mkTask {
  page_id : string;
  latest_timestamp : Z;
  template : string;
  output_path : string
}.

(** ** Comparison of sort keys and [sorted]

    The key of a page identifier is the tuple [(pages[a].weight, a)].  Python
    compares tuples item by item: the first pair of items that are not equal
    decides, and two weights that are not equal are compared with [<], which
    raises [TypeError] when one of them is [None]. *)

Definition sort_key : Type := option Z * string.

Definition tuple_lt (k1 k2 : sort_key) : result bool :=
  match k1.1, k2.1 with
  | None, None => Ok (String.ltb k1.2 k2.2)
  | Some x, Some y =>
      if x =? y then Ok (String.ltb k1.2 k2.2) else Ok (x <? y)
  | _, _ => Raise TypeError
  end.

(** [sorted] and [list.sort] are stable: the model is the insertion sort that
    walks the list from the left and puts each element after the elements
    that are not greater, asking only [x < y] as CPython does.  CPython
    compares other pairs, with the same outcome: when no comparison raises
    the stable order is unique, and a comparison sort has to compare two
    keys that end up next to each other, so it raises whenever the list
    holds both a weight [None] and an integer weight. *)
Fixpoint insort {K A} (lt : K → K → result bool) (x : K * A)
    (l : list (K * A)) : result (list (K * A)) :=
  match l with
  | [] => Ok [x]
  | y :: l' =>
      b ← lt x.1 y.1;
      if b : bool then Ok (x :: y :: l')
      else r ← insort lt x l'; Ok (y :: r)
  end.

Fixpoint isort_go {K A} (lt : K → K → result bool) (acc : list (K * A))
    (l : list (K * A)) : result (list (K * A)) :=
  match l with
  | [] => Ok acc
  | x :: l' => acc' ← insort lt x acc; isort_go lt acc' l'
  end.

(** The keys are computed first, for every element in order, then the
    decorated list is sorted. *)
Fixpoint decorate {K A} (key : A → result K) (l : list A)
  : result (list (K * A)) :=
  match l with
  | [] => Ok []
  | a :: l' => k ← key a; r ← decorate key l'; Ok ((k, a) :: r)
  end.

Definition sorted {K A} (key : A → result K) (lt : K → K → result bool)
    (l : list A) : result (list A) :=
  d ← decorate key l; s ← isort_go lt [] d; Ok (s.*2).

(** ** Sibling Resolver *)

(** The closure [key] of [sort_siblings] and the lambda of [process_tags]. *)
Definition key (pages : dict Page.t) (a : string) : result sort_key :=
  p ← getitem pages a; Ok (Page.weight p, a).

(** The loop [for s in siblings - {me}] of [sort_siblings]. *)
Fixpoint split_siblings (pages : dict Page.t) (me : string) (l : list string)
  : result (list string * list string) :=
  match l with
  | [] => Ok ([], [])
  | s :: l' =>
      ks ← key pages s;
      km ← key pages me;
      b ← tuple_lt ks km;
      r ← split_siblings pages me l';
      Ok (if b : bool then (s :: r.1, r.2) else (r.1, s :: r.2))
  end.

Definition sort_siblings (siblings : list string) (me : string)
    (pages : dict Page.t)
  : result (list string * option string * option string) :=
  p ← getitem pages me;
  match Page.weight p with
  | None =>
      l ← sorted (key pages) tuple_lt siblings; Ok (l, None, None)
  | Some _ =>
      r ← split_siblings pages me (set_discard me siblings);
      lighter ← sorted (key pages) tuple_lt r.1;
      heavier ← sorted (key pages) tuple_lt r.2;
      Ok (lighter ++ heavier, last lighter, head heavier)
  end.

(** ** Strings *)

Definition nl : ascii := "010"%char.
Definition cr : ascii := "013"%char.
Definition dq : ascii := "034"%char.

(** A [str] is held as the UTF-8 encoding of its code points.  The functions
    that depend on the Unicode database ([str.strip], [int]) decode the
    characters they look at; the database is the one of CPython 3.11
    (Unicode 14.0). *)
Definition byte (a : ascii) : Z := Z.of_nat (nat_of_ascii a).

(** The code point of a character of several bytes, from the payload [acc]
    of its lead byte and its continuation bytes; [None] when a continuation
    byte is not of the form [10xxxxxx], when the character has a shorter
    encoding (its code point is below [lo]), or when the code point is a
    surrogate or lies beyond U+10FFFF. *)
Definition code_point (lo acc : Z) (more : list ascii) : option Z :=
  cp ← foldl (λ r a, cp ← r;
                     if (128 <=? byte a) && (byte a <? 192)
                     then Some (cp * 64 + (byte a - 128)) else None)
             (Some acc) more;
  if (lo <=? cp) && (cp <=? 0x10FFFF)
     && negb ((0xD800 <=? cp) && (cp <=? 0xDFFF))
  then Some cp else None.

(** The first character of [s] and the text after it; a byte that starts no
    well-formed character is passed on as the code point [-1]. *)
Definition next_char (s : string) : option (Z * string) :=
  match s with
  | EmptyString => None
  | String a s1 =>
      let n := byte a in
      let ill := Some (-1, s1) in
      let char lo acc more rest :=
        match code_point lo acc more with
        | Some cp => Some (cp, rest)
        | None => ill
        end in
      if n <? 128 then Some (n, s1)
      else
        match s1 with
        | String b s2 =>
            if (192 <=? n) && (n <? 224) then char 0x80 (n - 192) [b] s2
            else
              match s2 with
              | String c s3 =>
                  if (224 <=? n) && (n <? 240)
                  then char 0x800 (n - 224) [b; c] s3
                  else
                    match s3 with
                    | String d s4 =>
                        if (240 <=? n) && (n <? 248)
                        then char 0x10000 (n - 240) [b; c; d] s4
                        else ill
                    | EmptyString => ill
                    end
              | EmptyString => ill
              end
        | EmptyString => ill
        end
  end.

(** The UTF-8 encoding of a code point. *)
Definition ascii_of (n : Z) : ascii := ascii_of_nat (Z.to_nat n).

Definition utf8_encode (cp : Z) : string :=
  let cont n := ascii_of (128 + n `mod` 64) in
  if cp <? 0x80 then String (ascii_of cp) ""
  else if cp <? 0x800 then
    String (ascii_of (192 + cp / 64)) (String (cont cp) "")
  else if cp <? 0x10000 then
    String (ascii_of (224 + cp / 4096))
      (String (cont (cp / 64)) (String (cont cp) ""))
  else
    String (ascii_of (240 + cp / 262144))
      (String (cont (cp / 4096)) (String (cont (cp / 64)) (String (cont cp) ""))).

(** The code points that [str.isspace] accepts: tab to carriage return, the
    four separators 28 to 31, the space, and the Unicode spaces and line
    separators outside ASCII. *)
Definition space_chars : list Z :=
  [9; 10; 11; 12; 13; 28; 29; 30; 31; 32; 0x85; 0xA0; 0x1680; 0x2000; 0x2001;
   0x2002; 0x2003; 0x2004; 0x2005; 0x2006; 0x2007; 0x2008; 0x2009; 0x200A;
   0x2028; 0x2029; 0x202F; 0x205F; 0x3000].

Definition is_space (cp : Z) : bool := bool_decide (cp ∈ space_chars).

(** The characters that C's [isspace] accepts, which [int] skips around an
    ASCII number. *)
Definition is_c_space (a : ascii) : bool :=
  let n := nat_of_ascii a in
  ((9 <=? n) && (n <=? 13) || (n =? 32))%nat.

Fixpoint lstrip_by (sp : ascii → bool) (s : string) : string :=
  match s with
  | String a s' => if sp a then lstrip_by sp s' else s
  | EmptyString => EmptyString
  end.

Fixpoint rstrip_by (sp : ascii → bool) (s : string) : string :=
  match s with
  | String a s' =>
      let r := rstrip_by sp s' in
      if String.eqb r "" && sp a then "" else String a r
  | EmptyString => EmptyString
  end.

(** The white-space characters as they stand in a text: one to three
    bytes each. *)
Definition white_space : list string :=
  Eval vm_compute in utf8_encode <$> space_chars.

(** [s] is exactly one white-space character. *)
Definition one_space (s : string) : bool := bool_decide (s ∈ white_space).

(** [s.lstrip()]: the text after its leading white-space characters. *)
Fixpoint lstrip (s : string) : string :=
  match s with
  | EmptyString => EmptyString
  | String a s1 =>
      if one_space (String a "") then lstrip s1
      else
        match s1 with
        | EmptyString => s
        | String b s2 =>
            if one_space (String a (String b "")) then lstrip s2
            else
              match s2 with
              | EmptyString => s
              | String c s3 =>
                  if one_space (String a (String b (String c "")))
                  then lstrip s3 else s
              end
        end
  end.

(** [s.rstrip()], from the right: what is left of the tail is put back
    behind each byte, and dropped when the two make up one white-space
    character. *)
Fixpoint rstrip (s : string) : string :=
  match s with
  | String a s' =>
      let t := String a (rstrip s') in
      if one_space t then "" else t
  | EmptyString => EmptyString
  end.

(** [s.strip()] *)
Definition strip (s : string) : string := rstrip (lstrip s).

(** [s.lstrip(c)] and [s.rstrip(c)] for a single character [c]. *)
Fixpoint lstrip_char (c : ascii) (s : string) : string :=
  match s with
  | String a s' => if Ascii.eqb a c then lstrip_char c s' else s
  | EmptyString => EmptyString
  end.

Fixpoint rstrip_char (c : ascii) (s : string) : string :=
  match s with
  | String a s' =>
      let r := rstrip_char c s' in
      if String.eqb r "" && Ascii.eqb a c then "" else String a r
  | EmptyString => EmptyString
  end.

(** [s.endswith(suf)] *)
Fixpoint endswith (s suf : string) : bool :=
  String.eqb s suf ||
  match s with
  | String _ s' => endswith s' suf
  | EmptyString => false
  end.

(** [i = s.rfind(c)]: the pair [(s[:i], s[i+1:])], or [None] when [c] does
    not occur. *)
Fixpoint rfind_split (c : ascii) (s : string) : option (string * string) :=
  match s with
  | EmptyString => None
  | String a s' =>
      match rfind_split c s' with
      | Some (pre, post) => Some (String a pre, post)
      | None => if Ascii.eqb a c then Some ("", s') else None
      end
  end.

(** [s.split(c)] *)
Fixpoint split_char (c : ascii) (s : string) : list string :=
  match s with
  | EmptyString => [""]
  | String a s' =>
      if Ascii.eqb a c then "" :: split_char c s'
      else match split_char c s' with
           | x :: r => String a x :: r
           | [] => [String a ""]
           end
  end.

(** [c in s] *)
Fixpoint contains_char (c : ascii) (s : string) : bool :=
  match s with
  | EmptyString => false
  | String a s' => Ascii.eqb a c || contains_char c s'
  end.

(** [s.replace(old, new)] for a non-empty [old]: the occurrences are taken
    from the left and do not overlap; [skip] counts the characters of an
    occurrence that are still to be dropped. *)
Fixpoint replace_go (old new : string) (skip : nat) (s : string) : string :=
  match s with
  | EmptyString => EmptyString
  | String a s' =>
      match skip with
      | S n => replace_go old new n s'
      | O =>
          if String.prefix old s
          then new +:+ replace_go old new (String.length old - 1) s'
          else String a (replace_go old new 0 s')
      end
  end.

Definition str_replace (old new s : string) : string := replace_go old new 0 s.

(** [sep.join(l)] *)
Fixpoint join (sep : string) (l : list string) : string :=
  match l with
  | [] => ""
  | [x] => x
  | x :: l' => x +:+ sep +:+ join sep l'
  end.

(** [int(s)].  As CPython does, the text is first brought to ASCII: a
    character below 127 is kept, a white-space character becomes a space, a character
    with the property [Nd] becomes the ASCII digit of its value, and any other
    character makes the text invalid.  The ASCII text is then read:
    surrounding whitespace, one optional sign, decimal digits with single
    underscores between them, and no more than 4300 digits
    ([sys.int_max_str_digits]). *)

(** The zeros of the decimal digits of Unicode 14.0; the digits of a script
    are the ten code points from its zero. *)
Definition digit_zeros : list Z :=
  [0x30; 0x660; 0x6F0; 0x7C0; 0x966; 0x9E6; 0xA66; 0xAE6; 0xB66; 0xBE6;
   0xC66; 0xCE6; 0xD66; 0xDE6; 0xE50; 0xED0; 0xF20; 0x1040; 0x1090; 0x17E0;
   0x1810; 0x1946; 0x19D0; 0x1A80; 0x1A90; 0x1B50; 0x1BB0; 0x1C40; 0x1C50;
   0xA620; 0xA8D0; 0xA900; 0xA9D0; 0xA9F0; 0xAA50; 0xABF0; 0xFF10; 0x104A0;
   0x10D30; 0x11066; 0x110F0; 0x11136; 0x111D0; 0x112F0; 0x11450; 0x114D0;
   0x11650; 0x116C0; 0x11730; 0x118E0; 0x11950; 0x11C50; 0x11D50; 0x11DA0;
   0x16A60; 0x16AC0; 0x16B50; 0x1D7CE; 0x1D7D8; 0x1D7E2; 0x1D7EC; 0x1D7F6;
   0x1E140; 0x1E2F0; 0x1E950; 0x1FBF0].

(** [unicodedata.decimal(chr(cp), None)] *)
Definition decimal (cp : Z) : option Z :=
  head (omap (λ z, if (z <=? cp) && (cp <? z + 10) then Some (cp - z)
                   else None) digit_zeros).

Definition to_ascii_char (cp : Z) : option ascii :=
  if (0 <=? cp) && (cp <? 127) then Some (ascii_of cp)
  else if is_space cp then Some " "%char
  else d ← decimal cp; Some (ascii_of (48 + d)).

(** A character has at least one byte, so the length of the text is fuel
    enough to reach its end. *)
Fixpoint to_ascii_go (fuel : nat) (s : string) : option string :=
  match fuel with
  | O => Some ""
  | S fuel' =>
      match next_char s with
      | None => Some ""
      | Some (cp, s') =>
          a ← to_ascii_char cp; t ← to_ascii_go fuel' s'; Some (String a t)
      end
  end.

Definition to_ascii (s : string) : option string :=
  to_ascii_go (String.length s) s.

Definition digit (a : ascii) : option Z :=
  let n := nat_of_ascii a in
  if ((48 <=? n) && (n <=? 57))%nat then Some (Z.of_nat n - 48) else None.

Fixpoint parse_digits (acc : Z) (after_digit : bool) (s : string) : result Z :=
  match s with
  | EmptyString => if after_digit then Ok acc else Raise ValueError
  | String a s' =>
      match digit a with
      | Some d => parse_digits (10 * acc + d) true s'
      | None =>
          if Ascii.eqb a "_" && after_digit then parse_digits acc false s'
          else Raise ValueError
      end
  end.

Fixpoint count_digits (s : string) : Z :=
  match s with
  | EmptyString => 0
  | String a s' =>
      match digit a with
      | Some _ => 1 + count_digits s'
      | None => count_digits s'
      end
  end.

Definition int_of_ascii (s : string) : result Z :=
  if 4300 <? count_digits s then Raise ValueError
  else
    match rstrip_by is_c_space (lstrip_by is_c_space s) with
    | String "+" r => parse_digits 0 false r
    | String "-" r => z ← parse_digits 0 false r; Ok (- z)
    | r => parse_digits 0 false r
    end.

Definition py_int (s : string) : result Z :=
  match to_ascii s with
  | Some t => int_of_ascii t
  | None => Raise ValueError
  end.

(** ** Paths

    A relative [Path] is its POSIX string, already normalised (the paths come
    from [os.walk] and [relative_to]). *)

(** [os.path.dirname] *)
Definition dirname (p : string) : string :=
  match rfind_split "/" p with
  | None => ""
  | Some (pre, _) =>
      let head := pre +:+ "/" in
      if String.eqb (rstrip_char "/" head) "" then head
      else rstrip_char "/" head
  end.

(** [path.name] and the text before it. *)
Definition path_name (p : string) : string :=
  match rfind_split "/" p with
  | None => p
  | Some (_, n) => n
  end.

Definition path_before_name (p : string) : string :=
  match rfind_split "/" p with
  | None => ""
  | Some (pre, _) => pre +:+ "/"
  end.

(** [path.suffix]: [name[i:]] for [i = name.rfind(".")] when
    [0 < i < len(name) - 1]. *)
Definition path_suffix (p : string) : string :=
  match rfind_split "." (path_name p) with
  | Some (String a pre, String b post) => String "." (String b post)
  | _ => ""
  end.

(** [path.stem] *)
Definition path_stem (p : string) : string :=
  match rfind_split "." (path_name p) with
  | Some (String a pre, String b post) => String a pre
  | _ => path_name p
  end.

(** [path.suffixes] *)
Definition path_suffixes (p : string) : list string :=
  let name := path_name p in
  if endswith name "." then []
  else (λ x, String "." x) <$> tail (split_char "." (lstrip_char "." name)).

(** [path.with_suffix(suffix)]; the new name is the stem followed by the
    suffix. *)
Definition with_suffix (p suffix : string) : result string :=
  if contains_char "/" suffix then Raise ValueError
  else if negb (String.eqb suffix "") && negb (String.prefix "." suffix)
          || String.eqb suffix "."
  then Raise ValueError
  else if String.eqb (path_name p) "" then Raise ValueError
  else Ok (path_before_name p +:+ path_stem p +:+ suffix).

(** [l[-2]] *)
Definition second_last {A} (l : list A) : result A :=
  match reverse l with
  | _ :: x :: _ => Ok x
  | _ => Raise IndexError
  end.

(** [s[1:]] *)
Definition drop_first (s : string) : string :=
  match s with
  | String _ s' => s'
  | EmptyString => EmptyString
  end.

(** ** Sibling fix-up *)

(** The first loop of [fix_siblings]: the set of weight-bearing pages with an
    output path, per directory.  [dirnames[page_id]] is
    [os.path.dirname(page_id)]. *)
Fixpoint collect_siblings (pages : dict Page.t) (ids : list string)
    (sibling_dict : dict (list string)) : result (dict (list string)) :=
  match ids with
  | [] => Ok sibling_dict
  | page_id :: ids' =>
      p ← getitem pages page_id;
      if bool_decide (Page.weight p = None) || String.eqb (Page.path p) ""
      then collect_siblings pages ids' sibling_dict
      else
        let dir_ := dirname page_id in
        collect_siblings pages ids'
          (setitem dir_ (set_add page_id (get_default sibling_dict dir_ []))
             sibling_dict)
  end.

(** The second loop: the pages dict is updated in place while its keys are
    walked, so [sort_siblings] reads the pages as updated so far. *)
Fixpoint assign_siblings (sibling_dict : dict (list string))
    (ids : list string) (pages : dict Page.t) : result (dict Page.t) :=
  match ids with
  | [] => Ok pages
  | page_id :: ids' =>
      match dict_get (dirname page_id) sibling_dict with
      | None => assign_siblings sibling_dict ids' pages
      | Some sibs =>
          r ← sort_siblings sibs page_id pages;
          p ← getitem pages page_id;
          assign_siblings sibling_dict ids'
            (setitem page_id (Page.replace_siblings p r.1.1 r.1.2 r.2) pages)
      end
  end.

Definition fix_siblings (pages : dict Page.t) : result (dict Page.t) :=
  sibling_dict ← collect_siblings pages (keys pages) [];
  assign_siblings sibling_dict (keys pages) pages.

(** The pages part of [build_library]: every page comes out of
    [process_page_file], which builds it with [Page.new], and is stored under
    its identifier; then the siblings are fixed up. *)
Record page_args : Type := mkArgs {
  a_id : string;
  a_path : string;
  a_dir : string;
  a_filename : string;
  a_subdirs : list string;
  a_content : dict value;
  a_data : dict value;
  a_tags : list string;
  a_weight : option Z
}.

Definition page_of_args (a : page_args) : Page.t :=
  Page.new (a_id a) (a_path a) (a_dir a) (a_filename a) (a_subdirs a)
    (a_content a) (a_data a) (a_tags a) (a_weight a).

Definition collect_pages (parsed : list page_args) : dict Page.t :=
  foldl (λ pages a, setitem (a_id a) (page_of_args a) pages) [] parsed.

Definition build_pages (parsed : list page_args) : result (dict Page.t) :=
  fix_siblings (collect_pages parsed).

(** ** Tag index *)

Definition collect_tags (pages : dict Page.t) : dict (list string) :=
  foldl (λ tags v,
           foldl (λ tags tag, setdefault_append tag (Page.id v) tags)
             tags (Page.tags v))
    [] (values pages).

Fixpoint sort_tags (pages : dict Page.t) (ks : list string)
    (tags : dict (list string)) : result (dict (list string)) :=
  match ks with
  | [] => Ok tags
  | k :: ks' =>
      l ← getitem tags k;
      s ← sorted (key pages) tuple_lt l;
      sort_tags pages ks' (setitem k s tags)
  end.

Definition process_tags (pages : dict Page.t) : result (dict (list string)) :=
  let tags := collect_tags pages in
  sort_tags pages (keys tags) tags.

(** ** Weight resolution *)

(** [v is None] *)
Definition is_None (v : value) : bool :=
  match v with
  | VNone => true
  | _ => false
  end.

(** [isinstance(True, int)] holds in Python: a boolean is the integer 1 or
    0. *)
Definition process_weight (toml : dict value) (page_id : string)
  : result (option Z) :=
  let weight := get_default toml "weight" VNone in
  let weight :=
    if is_None weight && negb (endswith page_id "index")
    then VInt 0
    else match weight with
         | VStr s => if String.eqb s "None" then VNone else weight
         | _ => weight
         end in
  match weight with
  | VInt z => Ok (Some z)
  | VBool b => Ok (Some (Z.b2z b))
  | VNone => Ok None
  | _ => Raise TypeError
  end.

(** ** Versioned files *)

(** The body of the [try] of [process_versioned]. *)
Definition versioned (path : string) : result (Z * string) :=
  s ← second_last (path_suffixes path);
  version ← py_int (drop_first s);
  stem ← with_suffix path "";
  key ← with_suffix stem (path_suffix path);
  Ok (version, key).

Definition process_versioned (path : string) (max_version : gmap string Z)
  : result (gmap string Z) :=
  match versioned path with
  | Ok (version, key) =>
      Ok (if version >? default 0 (max_version !! key)
          then <[key := version]> max_version
          else max_version)
  | Raise ValueError | Raise IndexError => Ok max_version
  | Raise e => Raise e
  end.

(** The calls of [process_versioned] along the walk of [build_library]. *)
Fixpoint walk_versioned (paths : list string) (max_version : gmap string Z)
  : result (gmap string Z) :=
  match paths with
  | [] => Ok max_version
  | path :: paths' =>
      m ← process_versioned path max_version; walk_versioned paths' m
  end.

(** ** Content Decoder: sharded text

    [shards] is the list [re.split(shard_re, content, flags=re.M)]: the text
    before the first marker, then for every marker its identifier and the
    text up to the next marker.  The result is the TOML document handed to
    [tomllib.loads], or [None] when the file is not sharded and its text is
    returned as it is. *)

(** [l[0::2]] *)
Fixpoint stride2 {A} (l : list A) : list A :=
  match l with
  | x :: _ :: r => x :: stride2 r
  | _ => l
  end.

Definition triple_quote : string := String dq (String dq (String dq "")).
Definition escaped_quote : string :=
  String dq (String dq (String "\" (String dq ""))).

(** [shard.replace(triple quote, escaped quote).strip()] *)
Definition clean_shard (shard : string) : string :=
  strip (str_replace triple_quote escaped_quote shard).

(** The pairs [zip(shards[1::2], shards[2::2])]. *)
Definition shard_pairs (shards : list string) : list (string * string) :=
  zip (stride2 (tail shards)) (stride2 (tail (tail shards))).

Definition group_shards (pairs : list (string * string)) : dict (list string) :=
  foldl (λ shard_dict '(id_, shard),
           setdefault_append id_ (clean_shard shard) shard_dict)
    [] pairs.

Definition quoted (x : string) : string := triple_quote +:+ x +:+ triple_quote.

Definition statement (kv : string * list string) : string :=
  let '(k, v) := kv in
  if (1 <? length v)%nat
  then k +:+ " = [" +:+ join ", " (quoted <$> v) +:+ "]"
  else k +:+ " = " +:+ quoted (default "" (head v)).

Definition sharded_toml (shards : list string) : option string :=
  match shards with
  | EmptyString :: _ :: _ =>
      Some (join (String nl "")
              (statement <$> group_shards (shard_pairs shards)))
  | _ => None
  end.

(** ** TOML decoder

    [tomllib.loads] for the documents that the content decoder writes:
    key/value statements with bare (possibly dotted) keys whose values are
    basic strings or arrays.  The functions follow [tomllib/_parser.py];
    they work on the text that is still to be read ([src[pos:]]) and give
    back what is left of it.  The other constructs of TOML (quoted keys,
    table headers, literal strings, numbers, booleans, dates and inline
    tables) are set apart as [Unsupported].  A loop of the parser takes its
    fuel from the length of the text, which bounds the number of its rounds. *)

Inductive decoding (A : Type) : Type :=
| Decoded (a : A)
| DecodeError
| Unsupported.
Arguments Decoded {A} a.
Arguments DecodeError {A}.
Arguments Unsupported {A}.

#[global] Instance decoding_ret : MRet decoding := @Decoded.
#[global] Instance decoding_bind : MBind decoding :=
  λ A B f m,
    match m with
    | Decoded a => f a
    | DecodeError => DecodeError
    | Unsupported => Unsupported
    end.

Definition tab : ascii := "009"%char.
Definition backslash : ascii := "092"%char.

(** [TOML_WS], [TOML_WS_AND_NEWLINE], [BARE_KEY_CHARS] and the two sets of
    characters that a basic string must not hold. *)
Definition toml_ws (a : ascii) : bool := Ascii.eqb a " " || Ascii.eqb a tab.

Definition toml_ws_and_newline (a : ascii) : bool :=
  toml_ws a || Ascii.eqb a nl.

Definition bare_key_char (a : ascii) : bool :=
  let n := nat_of_ascii a in
  ((48 <=? n) && (n <=? 57) || (65 <=? n) && (n <=? 90)
   || (97 <=? n) && (n <=? 122))%nat
  || Ascii.eqb a "-" || Ascii.eqb a "_".

Definition ascii_ctrl (a : ascii) : bool :=
  let n := nat_of_ascii a in ((n <? 32) || (n =? 127))%nat.

Definition illegal_basic_str_char (a : ascii) : bool :=
  ascii_ctrl a && negb (Ascii.eqb a tab).

Definition illegal_multiline_basic_str_char (a : ascii) : bool :=
  ascii_ctrl a && negb (Ascii.eqb a tab) && negb (Ascii.eqb a nl).

(** [src.startswith(p, pos)]: the text after [p], when [src[pos:]] starts
    with [p]. *)
Fixpoint after_prefix (p s : string) : option string :=
  match p, s with
  | EmptyString, _ => Some s
  | String a p', String b s' =>
      if Ascii.eqb a b then after_prefix p' s' else None
  | String _ _, EmptyString => None
  end.

(** [skip_chars]: the text from the first character that is not in [chars];
    [take_chars] is the part skipped. *)
Fixpoint skip_chars (chars : ascii → bool) (s : string) : string :=
  match s with
  | String a s' => if chars a then skip_chars chars s' else s
  | EmptyString => EmptyString
  end.

Fixpoint take_chars (chars : ascii → bool) (s : string) : string :=
  match s with
  | String a s' => if chars a then String a (take_chars chars s') else ""
  | EmptyString => EmptyString
  end.

(** [skip_until(src, pos, newline, error_on=ILLEGAL_COMMENT_CHARS,
    error_on_eof=False)] *)
Fixpoint skip_line (s : string) : decoding string :=
  match s with
  | EmptyString => Decoded ""
  | String a s' =>
      if Ascii.eqb a nl then Decoded s
      else if illegal_basic_str_char a then DecodeError
      else skip_line s'
  end.

Definition skip_comment (s : string) : decoding string :=
  match s with
  | String a s' => if Ascii.eqb a "#" then skip_line s' else Decoded s
  | EmptyString => Decoded s
  end.

Fixpoint skip_comments_and_array_ws (fuel : nat) (s : string)
  : decoding string :=
  match fuel with
  | O => Unsupported
  | S fuel' =>
      s' ← skip_comment (skip_chars toml_ws_and_newline s);
      if String.eqb s' s then Decoded s
      else skip_comments_and_array_ws fuel' s'
  end.

(** *** Keys *)

Definition parse_key_part (s : string) : decoding (string * string) :=
  match s with
  | String a _ =>
      if bare_key_char a
      then Decoded (take_chars bare_key_char s, skip_chars bare_key_char s)
      else if Ascii.eqb a "'" || Ascii.eqb a dq then Unsupported
      else DecodeError
  | EmptyString => DecodeError
  end.

Fixpoint parse_key_parts (fuel : nat) (key : list string) (s : string)
  : decoding (list string * string) :=
  match fuel with
  | O => Unsupported
  | S fuel' =>
      match s with
      | String a s' =>
          if Ascii.eqb a "." then
            r ← parse_key_part (skip_chars toml_ws s');
            parse_key_parts fuel' (key ++ [r.1]) (skip_chars toml_ws r.2)
          else Decoded (key, s)
      | EmptyString => Decoded (key, s)
      end
  end.

Definition parse_key (s : string) : decoding (list string * string) :=
  r ← parse_key_part s;
  parse_key_parts (String.length s) [r.1] (skip_chars toml_ws r.2).

(** *** Basic strings *)

Definition hex_digit (a : ascii) : option Z :=
  let n := Z.of_nat (nat_of_ascii a) in
  if (48 <=? n) && (n <=? 57) then Some (n - 48)
  else if (65 <=? n) && (n <=? 70) then Some (n - 55)
  else if (97 <=? n) && (n <=? 102) then Some (n - 87)
  else None.

(** [int(src[pos:pos + hex_len], 16)] when these are [hex_len] hexadecimal
    digits. *)
Fixpoint hex_value (hex_len : nat) (acc : Z) (s : string)
  : option (Z * string) :=
  match hex_len with
  | O => Some (acc, s)
  | S n =>
      match s with
      | String a s' => d ← hex_digit a; hex_value n (16 * acc + d) s'
      | EmptyString => None
      end
  end.

Definition is_unicode_scalar_value (codepoint : Z) : bool :=
  (0 <=? codepoint) && (codepoint <=? 55295)
  || (57344 <=? codepoint) && (codepoint <=? 1114111).

Definition parse_hex_char (s : string) (hex_len : nat)
  : decoding (string * string) :=
  match hex_value hex_len 0 s with
  | Some (hex_int, s') =>
      if is_unicode_scalar_value hex_int
      then Decoded (utf8_encode hex_int, s')
      else DecodeError
  | None => DecodeError
  end.

(** [BASIC_STR_ESCAPE_REPLACEMENTS] *)
Definition escape_replacement (c : ascii) : option ascii :=
  if Ascii.eqb c "b" then Some "008"%char
  else if Ascii.eqb c "t" then Some tab
  else if Ascii.eqb c "n" then Some nl
  else if Ascii.eqb c "f" then Some "012"%char
  else if Ascii.eqb c "r" then Some cr
  else if Ascii.eqb c dq then Some dq
  else if Ascii.eqb c backslash then Some backslash
  else None.

(** [s] starts at the backslash; the result is the text that the escape
    stands for and the text after the escape. *)
Definition parse_basic_str_escape (multiline : bool) (s : string)
  : decoding (string * string) :=
  match s with
  | String _ (String c s') =>
      if multiline && (Ascii.eqb c " " || Ascii.eqb c tab || Ascii.eqb c nl)
      then
        if Ascii.eqb c nl
        then Decoded ("", skip_chars toml_ws_and_newline s')
        else
          match skip_chars toml_ws s' with
          | EmptyString => Decoded ("", "")
          | String d s'' =>
              if Ascii.eqb d nl
              then Decoded ("", skip_chars toml_ws_and_newline s'')
              else DecodeError
          end
      else if Ascii.eqb c "u" then parse_hex_char s' 4
      else if Ascii.eqb c "U" then parse_hex_char s' 8
      else
        match escape_replacement c with
        | Some a => Decoded (String a "", s')
        | None => DecodeError
        end
  | _ => DecodeError
  end.

(** [result] is the text read so far. *)
Fixpoint parse_basic_str (fuel : nat) (multiline : bool) (result : string)
    (s : string) : decoding (string * string) :=
  match fuel with
  | O => Unsupported
  | S fuel' =>
      match s with
      | EmptyString => DecodeError
      | String a s' =>
          if Ascii.eqb a dq then
            if negb multiline then Decoded (result, s')
            else
              match after_prefix triple_quote s with
              | Some rest => Decoded (result, rest)
              | None =>
                  parse_basic_str fuel' multiline (result +:+ String a "") s'
              end
          else if Ascii.eqb a backslash then
            r ← parse_basic_str_escape multiline s;
            parse_basic_str fuel' multiline (result +:+ r.1) r.2
          else if if multiline then illegal_multiline_basic_str_char a
                  else illegal_basic_str_char a
          then DecodeError
          else parse_basic_str fuel' multiline (result +:+ String a "") s'
      end
  end.

(** The end of [parse_multiline_str]: at most two quotes after the closing
    delimiter belong to the string. *)
Definition closing_quotes (r : string * string) : string * string :=
  match after_prefix (String dq "") r.2 with
  | None => r
  | Some s1 =>
      match after_prefix (String dq "") s1 with
      | None => (r.1 +:+ String dq "", s1)
      | Some s2 => (r.1 +:+ String dq (String dq ""), s2)
      end
  end.

(** [parse_multiline_str(src, pos, literal=False)]: [s] is the text after
    the opening delimiter. *)
Definition parse_multiline_str (s : string) : decoding (string * string) :=
  let s := match s with
           | String a s' => if Ascii.eqb a nl then s' else s
           | EmptyString => s
           end in
  r ← parse_basic_str (S (String.length s)) true "" s;
  Decoded (closing_quotes r).

(** *** Values *)

Fixpoint parse_value (fuel : nat) (s : string) : decoding (value * string) :=
  match fuel with
  | O => Unsupported
  | S fuel' =>
      match s with
      | EmptyString => DecodeError
      | String a s' =>
          if Ascii.eqb a dq then
            match after_prefix triple_quote s with
            | Some s'' => r ← parse_multiline_str s''; Decoded (VStr r.1, r.2)
            | None =>
                r ← parse_basic_str (S (String.length s')) false "" s';
                Decoded (VStr r.1, r.2)
            end
          else if Ascii.eqb a "[" then
            s1 ← skip_comments_and_array_ws (S (String.length s')) s';
            match after_prefix "]" s1 with
            | Some s2 => Decoded (VList [], s2)
            | None => parse_array_items fuel' [] s1
            end
          else Unsupported
      end
  end
with parse_array_items (fuel : nat) (array : list value) (s : string)
  : decoding (value * string) :=
  match fuel with
  | O => Unsupported
  | S fuel' =>
      r ← parse_value fuel' s;
      let array := array ++ [r.1] in
      s1 ← skip_comments_and_array_ws (S (String.length r.2)) r.2;
      match s1 with
      | String c s2 =>
          if Ascii.eqb c "]" then Decoded (VList array, s2)
          else if negb (Ascii.eqb c ",") then DecodeError
          else
            s3 ← skip_comments_and_array_ws (S (String.length s2)) s2;
            match after_prefix "]" s3 with
            | Some s4 => Decoded (VList array, s4)
            | None => parse_array_items fuel' array s3
            end
      | EmptyString => DecodeError
      end
  end.

Definition parse_key_value_pair (s : string)
  : decoding (list string * value * string) :=
  k ← parse_key s;
  match k.2 with
  | String a s' =>
      if Ascii.eqb a "=" then
        v ← parse_value (S (String.length s')) (skip_chars toml_ws s');
        Decoded (k.1, v.1, v.2)
      else DecodeError
  | EmptyString => DecodeError
  end.

(** *** The document

    [data] is the nested dictionary read so far; [frozen] holds the keys
    that carry the flag [FROZEN]: the keys bound to an array.  The flag
    [EXPLICIT_NEST] is only ever pending, since it is set for good at a
    table header. *)
Record Output : Type := mkOutput {
  data : dict value;
  frozen : list (list string)
}.

(** [out.flags.is_(key, Flags.FROZEN)] *)
Definition is_frozen (out : Output) (key : list string) : bool :=
  bool_decide (Exists (λ f, f ≠ [] ∧ f `prefix_of` key) (frozen out)).

(** [nest = get_or_create_nest(key_parent)] followed by the test
    [key_stem in nest] and by [nest[key_stem] = value].  A list on the way
    is entered by its last element, which is a table only after a header
    [[[name]]]. *)
Fixpoint nest_set (key_parent : list string) (key_stem : string) (v : value)
    (cont : dict value) : decoding (dict value) :=
  match key_parent with
  | [] =>
      match dict_get key_stem cont with
      | Some _ => DecodeError
      | None => Decoded (setitem key_stem v cont)
      end
  | k :: key_parent' =>
      match dict_get k cont with
      | None =>
          nest ← nest_set key_parent' key_stem v [];
          Decoded (setitem k (VDict nest) cont)
      | Some (VDict d) =>
          nest ← nest_set key_parent' key_stem v d;
          Decoded (setitem k (VDict nest) cont)
      | Some (VList _) => Unsupported
      | Some _ => DecodeError
      end
  end.

(** [key_value_rule] with the empty [header] of a document without table
    headers; [set_key_value] is what it does once the pair is parsed. *)
Definition set_key_value (key : list string) (v : value) (out : Output)
  : decoding Output :=
  let key_parent := removelast key in
  let key_stem := List.last key "" in
  if is_frozen out key_parent then DecodeError
  else
    d ← nest_set key_parent key_stem v (data out);
    Decoded (mkOutput d
               (match v with
                | VList _ | VDict _ => frozen out ++ [key]
                | _ => frozen out
                end)).

Definition key_value_rule (s : string) (out : Output)
  : decoding (string * Output) :=
  r ← parse_key_value_pair s;
  out' ← set_key_value r.1.1 r.1.2 out;
  Decoded (r.2, out').

Fixpoint statements (fuel : nat) (out : Output) (s : string)
  : decoding (dict value) :=
  match fuel with
  | O => Unsupported
  | S fuel' =>
      let s := skip_chars toml_ws s in
      match s with
      | EmptyString => Decoded (data out)
      | String a s' =>
          if Ascii.eqb a nl then statements fuel' out s'
          else
            r ← (if bare_key_char a || Ascii.eqb a dq || Ascii.eqb a "'"
                 then r ← key_value_rule s out;
                      Decoded (skip_chars toml_ws r.1, r.2)
                 else if Ascii.eqb a "[" then Unsupported
                 else if negb (Ascii.eqb a "#") then DecodeError
                 else Decoded (s, out));
            s1 ← skip_comment r.1;
            match s1 with
            | EmptyString => Decoded (data r.2)
            | String b s2 =>
                if Ascii.eqb b nl then statements fuel' r.2 s2
                else DecodeError
            end
      end
  end.

(** [tomllib.loads] *)
Definition toml_loads (s : string) : decoding (dict value) :=
  let src := str_replace (String cr (String nl "")) (String nl "") s in
  statements (S (String.length src)) (mkOutput [] []) src.

(** Lines 163 to 176 of [process_content]: the value returned for a sharded
    file, [None] when the file is not sharded. *)
Definition process_shards (shards : list string)
  : option (decoding (dict value)) :=
  toml_loads <$> sharded_toml shards.

(** ** Build Engine

    The output directory maps an output path to the raw text of the file and
    its modification time.  [read_text] opens the file with universal
    newlines; [write] stores the text as it is (POSIX).  Errors of the file
    system are not modelled. *)

Record file : Type := mkFile {
  raw : string;
  mtime : Z
}.

Fixpoint universal_newlines (s : string) : string :=
  match s with
  | EmptyString => EmptyString
  | String a s' =>
      if Ascii.eqb a cr then
        match s' with
        | String b s'' =>
            if Ascii.eqb b nl then String nl (universal_newlines s'')
            else String nl (universal_newlines s')
        | EmptyString => String nl EmptyString
        end
      else String a (universal_newlines s')
  end.

Definition read_text (f : file) : string := universal_newlines (raw f).

(** What a run shows: the status message [Writing <page_id>] printed before a
    task is rendered, and the writes of output files. *)
Inductive event : Type :=
| Rendering (t : Task)
| Wrote (path : string).

Section Engine.

(** The template engine for a task of the library: [get_template] and
    [render] with the page, the pages, the tags and the root; it may raise. *)
Variable render : Task → result string.

(** The time at which a write for the task happens. *)
Variable now : Task → Z.

(** The body of the loop of [output_site]. *)
Definition output_task (quick : bool) (public : gmap string file) (task : Task)
  : result (gmap string file * list event) :=
  let skip :=
    match public !! output_path task with
    | Some f => quick && (latest_timestamp task <? mtime f)
    | None => false
    end in
  if skip then Ok (public, [])
  else
    output ← render task;
    let old_output := read_text <$> public !! output_path task in
    if bool_decide (old_output = Some output)
    then Ok (public, [Rendering task])
    else Ok (<[output_path task := mkFile output (now task)]> public,
             [Rendering task; Wrote (output_path task)]).

Fixpoint output_site (quick : bool) (tasks : list Task)
    (public : gmap string file) : result (gmap string file * list event) :=
  match tasks with
  | [] => Ok (public, [])
  | task :: tasks' =>
      r ← output_task quick public task;
      r' ← output_site quick tasks' r.1;
      Ok (r'.1, r.2 ++ r'.2)
  end.

End Engine.

(** ** Paths built from text

    [Path(s)] splits [s] at the slashes, drops the empty parts and the parts
    [.], and keeps one leading slash, or exactly two.  A path is the text
    that the functions above work on; the empty path is the empty text. *)

Definition path_root (s : string) : string :=
  match s with
  | String "/" (String "/" (String "/" _)) => "/"
  | String "/" (String "/" _) => "//"
  | String "/" _ => "/"
  | _ => ""
  end.

Definition path_parts (s : string) : list string :=
  filter (λ x, x ≠ "" ∧ x ≠ ".") (split_char "/" s).

Definition Path (s : string) : string := path_root s +:+ join "/" (path_parts s).

(** [path.as_posix()] and [str(path)] *)
Definition as_posix (p : string) : string :=
  if String.eqb p "" then "." else p.

(** [a / b] and [Path(a, b)] for a path [a] and a text [b]: an absolute [b]
    replaces [a]. *)
Definition truediv (a b : string) : string :=
  if String.eqb (path_root b) "" then
    path_root a +:+ join "/" (path_parts a ++ path_parts b)
  else Path b.

(** [path.parent] *)
Definition path_parent (p : string) : string :=
  match rfind_split "/" p with
  | None => ""
  | Some (pre, post) =>
      if String.eqb post "" then p
      else if String.eqb (lstrip_char "/" pre) "" then pre +:+ "/"
      else pre
  end.

(** ** Exceptions that carry notes

    The exceptions of the file system, of the decoders and of the template
    engine, beside those above.  [OSError] stands for an [OSError] that is
    not a [FileNotFoundError], [Exn TemplateError] for a
    [jinja.TemplateError] that is not a [TemplateSyntaxError].  The notes
    are those added with [add_note], oldest first; an exception without
    notes has no attribute [__notes__]. *)

Inductive error : Set :=
| Exn (e : exn)
| AttributeError
| AssertionError
| FileNotFoundError
| OSError
| UnicodeDecodeError
| TOMLDecodeError
| JSONDecodeError
| TemplateSyntaxError.

#[global] Instance exn_eq_dec : EqDecision exn.
Proof. solve_decision. Defined.

#[global] Instance error_eq_dec : EqDecision error.
Proof. solve_decision. Defined.

Inductive outcome (A : Type) : Type :=
| Done (a : A)
| Failed (e : error) (notes : list string).
Arguments Done {A} a.
Arguments Failed {A} e notes.

#[global] Instance outcome_ret : MRet outcome := @Done.
#[global] Instance outcome_bind : MBind outcome :=
  λ A B f m, match m with Done a => f a | Failed e notes => Failed e notes end.

(** An exception raised by the code above is a new exception. *)
Definition lift {A} (r : result A) : outcome A :=
  match r with
  | Ok a => Done a
  | Raise e => Failed (Exn e) []
  end.

(** [except ... as e: e.add_note(note); raise e] for the exceptions that
    [catches] selects. *)
Definition add_note {A} (catches : error → bool) (note : string)
    (o : outcome A) : outcome A :=
  match o with
  | Failed e notes => if catches e then Failed e (notes ++ [note]) else o
  | Done _ => o
  end.

(** ** The host of a build

    What the library code asks of the operating system and of the modules
    it imports: [os.stat(path).st_mtime_ns], [Path.exists], [Path.is_dir],
    [tomllib.load] of an opened file, [Path.read_text], [json.loads],
    [tomllib.loads] for the documents that the decoder above sets apart,
    [re.split] with the shard marker pattern, [imagesize.get] and
    [Path.resolve].  Paths are absolute. *)

Record host : Type := mkHost {
  stat : string → outcome Z;
  path_exists : string → bool;
  is_dir : string → bool;
  load : string → outcome (dict value);
  read_file : string → outcome string;
  json_loads : string → outcome value;
  tomllib_loads : string → outcome (dict value);
  re_split : string → list string;
  imagesize_get : string → outcome (Z * Z);
  resolve : string → string
}.

Record ImageInfo : Type := mkImageInfo {
  width : Z;
  height : Z
}.

Module Library.
Record t : Type := mk {
  pages : dict Page.t;
  tasks : list Task;
  versioned : gmap string Z;
  image_info : gmap string ImageInfo;
  tags : dict (list string)
}.
End Library.

(** ** Content Decoder *)

Definition is_os_error (e : error) : bool :=
  match e with
  | FileNotFoundError | OSError => true
  | _ => false
  end.

(** The exceptions that [process_content] annotates. *)
Definition content_error (e : error) : bool :=
  match e with
  | FileNotFoundError | OSError | JSONDecodeError | UnicodeDecodeError
  | TOMLDecodeError => true
  | _ => false
  end.

Definition while_processing (filepath : string) : string :=
  "While processing " +:+ as_posix filepath.

(** [tomllib.loads] *)
Definition loads (h : host) (s : string) : outcome (dict value) :=
  match toml_loads s with
  | Decoded d => Done d
  | DecodeError => Failed TOMLDecodeError []
  | Unsupported => tomllib_loads h s
  end.

Definition process_content (h : host) (filepath : string) : outcome value :=
  add_note content_error (while_processing filepath)
    (content ← read_file h filepath;
     if String.eqb (path_suffix filepath) ".json" then json_loads h content
     else if String.eqb (path_suffix filepath) ".toml"
     then d ← loads h content; Done (VDict d)
     else match sharded_toml (re_split h content) with
          | Some document => d ← loads h document; Done (VDict d)
          | None => Done (VStr content)
          end).

(** ** Page Parser *)

(** The loop over the items of the [content] table. *)
Fixpoint load_content (h : host) (parent : string)
    (items : list (string * value)) (latest_timestamp : Z)
    (content : dict value) : outcome (Z * dict value) :=
  match items with
  | [] => Done (latest_timestamp, content)
  | (k, v) :: items' =>
      match v with
      | VStr s =>
          let path := truediv parent s in
          ts ← stat h path;
          c ← process_content h path;
          load_content h parent items' (Z.max latest_timestamp ts)
            (setitem k c content)
      | _ => Failed (Exn TypeError) []
      end
  end.

(** [except (AttributeError, FileNotFoundError): raise TypeError(...)] *)
Definition content_type_error {A} (o : outcome A) : outcome A :=
  match o with
  | Failed AttributeError _ | Failed FileNotFoundError _ =>
      Failed (Exn TypeError) []
  | _ => o
  end.

(** [isinstance(tags, list)] and every item a string. *)
Fixpoint str_list (l : list value) : option (list string) :=
  match l with
  | [] => Some []
  | VStr s :: l' => (λ r, s :: r) <$> str_list l'
  | _ :: _ => None
  end.

(** The field [data] of a page is declared [dict[str, Any]]: the code
    stores [toml.get("data", {})] unchecked, and nothing in the library
    reads it.  A [data] field that is not a table does not fit the type of
    the field; it is kept out of the model by the condition [data_fits]
    below. *)
Definition table_of (v : value) : dict value :=
  match v with
  | VDict d => d
  | _ => []
  end.

Definition process_page_file (h : host) (content_dir : string)
    (subdirs : list string) (page_id : string)
  : outcome (Page.t * option Task) :=
  page_path ← lift (with_suffix (truediv content_dir page_id) ".page");
  latest_timestamp ← stat h page_path;
  toml ← load h page_path;
  loaded ← content_type_error
    match get_default toml "content" (VDict []) with
    | VDict items =>
        load_content h (path_parent page_path) items latest_timestamp []
    | _ => Failed AttributeError []
    end;
  let latest_timestamp := loaded.1 in
  let content := loaded.2 in
  let data := table_of (get_default toml "data" (VDict [])) in
  out ←
    match dict_get "template" toml with
    | Some (VStr template) =>
        match get_default toml "suffix" (VStr ".html") with
        | VStr suffix =>
            path ← lift (with_suffix (Path page_id) suffix);
            Done (Some (mkTask page_id latest_timestamp template path),
                  as_posix (path_parent path), path_name path, as_posix path)
        | _ => Failed (Exn TypeError) []
        end
    | Some _ => Failed (Exn TypeError) []
    | None => Done (None, as_posix (path_parent (Path page_id)), "", "")
    end;
  let '(task, dir_, name, str_path) := out in
  tags ←
    match get_default toml "tags" (VList []) with
    | VList l =>
        match str_list l with
        | Some tags => Done tags
        | None => Failed (Exn TypeError) []
        end
    | _ => Failed (Exn TypeError) []
    end;
  weight ← lift (process_weight toml page_id);
  Done (Page.new page_id str_path dir_ name (as_posix <$> subdirs)
          content data tags weight, task).

(** ** Library Builder

    [walk] is what [os.walk(content_dir)] yields: for every directory its
    path relative to the content directory (the empty text for the content
    directory itself), the names of its directories and the names of its
    files. *)

Record walk_state : Type := mkState {
  st_pages : dict Page.t;
  st_tasks : list Task;
  st_image_info : gmap string ImageInfo;
  st_max_version : gmap string Z
}.

Definition is_image (suffix : string) : bool :=
  bool_decide (suffix ∈ [".jpeg"; ".jpg"; ".webp"; ".png"; ".gif"]).

(** The body of the loop over the files of a directory. *)
Definition visit_file (h : host) (content_dir dirpath : string)
    (dirnames : list string) (st : walk_state) (f : string)
  : outcome walk_state :=
  let filepath := truediv (truediv content_dir dirpath) f in
  let relpath := truediv dirpath f in
  if String.eqb (path_suffix relpath) ".page" then
    page_id ← lift (with_suffix relpath "");
    let page_id := as_posix page_id in
    let subdirs :=
      Path <$> filter (λ X, path_exists h
                              (truediv (truediv (truediv content_dir dirpath) X)
                                 ".ignore") = false) dirnames in
    r ← add_note (λ _, true) (while_processing filepath)
          (process_page_file h content_dir subdirs page_id);
    Done (mkState (setitem page_id r.1 (st_pages st))
            (match r.2 with
             | Some task => st_tasks st ++ [task]
             | None => st_tasks st
             end)
            (st_image_info st) (st_max_version st))
  else
    image_info ←
      (if is_image (path_suffix relpath)
       then size ← imagesize_get h filepath;
            Done (<[relpath := mkImageInfo size.1 size.2]> (st_image_info st))
       else Done (st_image_info st));
    max_version ← lift (process_versioned relpath (st_max_version st));
    Done (mkState (st_pages st) (st_tasks st) image_info max_version).

Fixpoint visit_files (h : host) (content_dir dirpath : string)
    (dirnames : list string) (st : walk_state) (filenames : list string)
  : outcome walk_state :=
  match filenames with
  | [] => Done st
  | f :: filenames' =>
      st' ← visit_file h content_dir dirpath dirnames st f;
      visit_files h content_dir dirpath dirnames st' filenames'
  end.

Fixpoint visit_dirs (h : host) (content_dir : string) (st : walk_state)
    (walk : list (string * list string * list string)) : outcome walk_state :=
  match walk with
  | [] => Done st
  | (dirpath, dirnames, filenames) :: walk' =>
      st' ← visit_files h content_dir dirpath dirnames st filenames;
      visit_dirs h content_dir st' walk'
  end.

Definition build_library (h : host) (content_dir : string)
    (walk : list (string * list string * list string)) : outcome Library.t :=
  if is_dir h content_dir then
    st ← visit_dirs h content_dir (mkState [] [] ∅ ∅) walk;
    pages ← lift (fix_siblings (st_pages st));
    tags ← lift (process_tags pages);
    Done (Library.mk pages (st_tasks st) (st_max_version st)
            (st_image_info st) tags)
  else Failed AssertionError [].

(** ** The program

    The current directory is the list of the parts of its absolute path.
    [build] stands for the function [build] called with the resolved
    content, templates and public directories of the site. *)

Definition abs_path (parts : list string) : string := "/" +:+ join "/" parts.

Definition is_site (h : host) (parts : list string) : bool :=
  is_dir h (truediv (abs_path parts) "content")
  && is_dir h (truediv (abs_path parts) "templates").

(** The loop of [find_site_root], on the parts of [p] in reverse: the name
    of [p] is the first of them, its parent the rest. *)
Fixpoint find_site_root_from (h : host) (rev_parts : list string)
  : option (list string) :=
  match rev_parts with
  | [] => None
  | _ :: parent =>
      if is_site h (reverse rev_parts) then Some (reverse rev_parts)
      else find_site_root_from h parent
  end.

Definition find_site_root (h : host) (cwd : list string)
  : option (list string) :=
  find_site_root_from h (reverse cwd).

(** How a run of the program ends: [sys.exit(code)], or an exception that
    nothing catches. *)
Inductive ending : Set :=
| Exit (code : Z)
| Uncaught (e : error).

(** The classes of the second [except] clause of [main]. *)
Definition reported (e : error) : bool :=
  match e with
  | FileNotFoundError | OSError | Exn TypeError | UnicodeDecodeError
  | TOMLDecodeError | JSONDecodeError | Exn TemplateError => true
  | _ => false
  end.

(** The [except] clauses of [main]: the second one reads [e.__notes__],
    which raises [AttributeError] when no note was added. *)
Definition main_except (e : error) (notes : list string) : ending :=
  match e with
  | TemplateSyntaxError => Exit (-1)
  | _ =>
      if reported e then
        match notes with
        | [] => Uncaught AttributeError
        | _ :: _ => Exit (-2)
        end
      else Uncaught e
  end.

Definition main (h : host) (cwd : list string) (argv : list string)
    (build : string → string → string → bool → outcome unit) : ending :=
  match find_site_root h cwd with
  | None => main_except OSError []
  | Some parts =>
      let site_root := abs_path parts in
      let quick :=
        match argv with
        | _ :: a :: _ => String.eqb a "--quick"
        | _ => false
        end in
      match build (resolve h (truediv site_root "content"))
              (resolve h (truediv site_root "templates"))
              (resolve h (truediv site_root "public")) quick with
      | Done _ => Exit 0
      | Failed e notes => main_except e notes
      end
  end.

(** ** Notions used to state the properties *)

(** *** Weights and the order of the keys *)

(** The weight stored for a page identifier, if any; the same as an integer
    (0 when the page is missing or unweighted). *)
Definition weight_opt (pages : dict Page.t) (a : string) : option Z :=
  dict_get a pages ≫= Page.weight.

Definition weight_of (pages : dict Page.t) (a : string) : Z :=
  match dict_get a pages with
  | Some p => default 0 (Page.weight p)
  | None => 0
  end.

(** The pages with an integer weight, the pages with the weight [None], and
    the pages that take part in the ordering of their directory: an integer
    weight and a non-empty output path. *)
Definition weighted (pages : dict Page.t) (a : string) : Prop :=
  ∃ p z, dict_get a pages = Some p ∧ Page.weight p = Some z.

Definition unweighted (pages : dict Page.t) (a : string) : Prop :=
  ∃ p, dict_get a pages = Some p ∧ Page.weight p = None.

Definition ordered (pages : dict Page.t) (a : string) : Prop :=
  ∃ p z, dict_get a pages = Some p ∧ Page.weight p = Some z ∧ Page.path p ≠ "".

(** A list that holds a page with an integer weight and a page without. *)
Definition mixed (pages : dict Page.t) (l : list string) : Prop :=
  (∃ a, a ∈ l ∧ is_Some (weight_opt pages a))
  ∧ (∃ b, b ∈ l ∧ weight_opt pages b = None).

(** The order of the keys [(weight, id)] of weighted pages: ascending
    weight, then ascending identifier. *)
Definition key_lt (w : string → Z) (a b : string) : Prop :=
  w a < w b ∨ (w a = w b ∧ String.ltb a b = true).

Definition key_le (w : string → Z) (a b : string) : Prop :=
  w a < w b ∨ (w a = w b ∧ String.le a b).

Definition key_ltb (w : string → Z) (a b : string) : bool :=
  if w a =? w b then String.ltb a b else w a <? w b.

#[global] Instance key_lt_dec w a b : Decision (key_lt w a b).
Proof. unfold key_lt. apply _. Defined.

(** The stable insertion sort without exceptions. *)
Fixpoint insort_pure {A} (ltb : A → A → bool) (x : A) (l : list A) : list A :=
  match l with
  | [] => [x]
  | y :: l' => if ltb x y then x :: y :: l' else y :: insort_pure ltb x l'
  end.

Definition isort_pure {A} (ltb : A → A → bool) (acc l : list A) : list A :=
  foldl (λ acc x, insort_pure ltb x acc) acc l.

(** [x] is not greater than [y]. *)
Definition not_gt {A} (ltb : A → A → bool) (x y : A) : Prop := ltb y x = false.

(** *** The sibling fix-up *)

(** What [fix_siblings] makes of the page [p0] stored under [k], given the
    sibling sets [sibling_dict] and the pages [pages0] it started from. *)
Definition fixed (sibling_dict : dict (list string)) (pages0 : dict Page.t)
    (k : string) (p0 : Page.t) : Page.t :=
  match dict_get (dirname k) sibling_dict with
  | Some sibs =>
      match sort_siblings sibs k pages0 with
      | Ok r => Page.replace_siblings p0 r.1.1 r.1.2 r.2
      | Raise _ => p0
      end
  | None => p0
  end.

(** Two page maps with the same weights. *)
Definition same_weights (pages1 pages2 : dict Page.t) : Prop :=
  ∀ a, Page.weight <$> dict_get a pages1 = Page.weight <$> dict_get a pages2.

(** The sibling sets after the identifiers [seen] have been walked. *)
Definition sibling_sets (pages : dict Page.t) (seen : list string)
    (sibling_dict : dict (list string)) : Prop :=
  ∀ d,
    match dict_get d sibling_dict with
    | Some sibs =>
        NoDup sibs ∧ sibs ≠ [] ∧
        ∀ s, s ∈ sibs ↔ s ∈ seen ∧ ordered pages s ∧ dirname s = d
    | None => ∀ s, s ∈ seen → ordered pages s → dirname s ≠ d
    end.

(** The pages while the second loop of [fix_siblings] runs: every page is as
    at the start or already fixed. *)
Definition partly_fixed (sibling_dict : dict (list string))
    (pages0 cur : dict Page.t) : Prop :=
  ∀ k, dict_get k cur = dict_get k pages0
       ∨ dict_get k cur = fixed sibling_dict pages0 k <$> dict_get k pages0.

(** *** The tag index *)

(** The identifiers that [process_tags] appends to the list of [tag], in
    order: one per occurrence of the tag in the tags of a page. *)
Definition tagged (tag : string) (pages : dict Page.t) : list string :=
  values pages ≫=
    λ v, (λ _, Page.id v) <$> filter (λ t, t = tag) (Page.tags v).

(** Every page is stored under its own identifier, as in [build_library]. *)
Definition ids_are_keys (pages : dict Page.t) : Prop :=
  ∀ v, v ∈ values pages → is_Some (dict_get (Page.id v) pages).

(** A dict of lists that holds, for every key, the non-empty list [f k]. *)
Definition holds_lists (d : dict (list string)) (f : string → list string)
  : Prop :=
  ∀ k, match dict_get k d with
       | Some l => l = f k ∧ l ≠ []
       | None => f k = []
       end.

(** *** Weight resolution *)

(** The values of a [weight] field that are neither an integer, nor a
    boolean, nor the string [None]. *)
Definition not_a_weight (v : value) : Prop :=
  match v with
  | VFloat _ | VDate _ | VList _ | VDict _ => True
  | VStr s => s ≠ "None"
  | VNone | VBool _ | VInt _ => False
  end.

(** *** Versions *)

(** The version numbers of the files in [paths] whose unversioned form is
    [key], in the order of the walk. *)
Definition version_for (key path : string) : option Z :=
  match versioned path with
  | Ok (v, k) => if decide (k = key) then Some v else None
  | Raise _ => None
  end.

Definition versions_of (key : string) (paths : list string) : list Z :=
  omap (version_for key) paths.

(** *** Sharded text *)

(** The list that [re.split] returns for a file that starts with a marker:
    the empty text before the first marker, then the identifier and the body
    of every marker. *)
Definition shards_of (markers : list (string * string)) : list string :=
  "" :: (markers ≫= λ m, [m.1; m.2]).

(** The bodies of the markers with identifier [k], in file order. *)
Definition bodies_of (k : string) (markers : list (string * string))
  : list string :=
  (filter (λ m, m.1 = k) markers).*2.

(** Every character of [s] satisfies [p]. *)
Fixpoint all_chars (p : ascii → bool) (s : string) : bool :=
  match s with
  | EmptyString => true
  | String a s' => p a && all_chars p s'
  end.

(** The parts of a dotted identifier, and the identifiers that are TOML
    keys: every part is a non-empty bare key. *)
Definition key_parts (k : string) : list string := split_char "." k.

Definition bare_key (part : string) : Prop :=
  part ≠ "" ∧ all_chars bare_key_char part = true.

Definition toml_key (k : string) : Prop := Forall bare_key (key_parts k).

(** The text of the parts of a key after the first one. *)
Definition dotted (parts : list string) : string :=
  foldr (λ part s, "." +:+ part +:+ s) "" parts.

(** A body without backslash and without control character other than tab
    and newline. *)
Definition plain_char (a : ascii) : bool :=
  negb (Ascii.eqb a backslash) && negb (illegal_multiline_basic_str_char a).

Definition plain_text (s : string) : Prop := all_chars plain_char s = true.

(** [d[k1][k2]...] in a nest of tables. *)
Fixpoint lookup_path (key : list string) (v : value) : option value :=
  match key with
  | [] => Some v
  | k :: key' =>
      match v with
      | VDict d => dict_get k d ≫= lookup_path key'
      | _ => None
      end
  end.

(** What an identifier is bound to, from the bodies of its markers. *)
Definition bound_value (bodies : list string) : value :=
  match bodies with
  | [body] => VStr body
  | _ => VList (VStr <$> bodies)
  end.

(** A text made of white-space characters. *)
Inductive blank : string → Prop :=
| blank_nil : blank ""
| blank_cons w s : w ∈ white_space → blank s → blank (w +:+ s).

(** A text starts, or ends, with a white-space character. *)
Definition blank_prefix (x : string) : Prop :=
  ∃ w r, w ∈ white_space ∧ x = w +:+ r.

Definition blank_suffix (x : string) : Prop :=
  ∃ p w, w ∈ white_space ∧ x = p +:+ w.

(** A text that does not start with the character [c]. *)
Definition not_head (c : ascii) (s : string) : Prop := ∀ r, s ≠ String c r.

(** A text that is empty or starts with a newline: what follows a statement
    of the document. *)
Definition line_end (rest : string) : Prop :=
  rest = "" ∨ ∃ r, rest = String nl r.

(** The key/value pairs of a document, set one after the other. *)
Fixpoint set_all (pairs : list (list string * value)) (out : Output)
  : decoding Output :=
  match pairs with
  | [] => Decoded out
  | kv :: pairs' => out' ← set_key_value kv.1 kv.2 out; set_all pairs' out'
  end.

(** A group of the dictionary of shards, before its bodies are cleaned:
    the statement that is written for it and the pair that the statement
    stands for. *)
Definition cleaned (group : string * list string) : string * list string :=
  (group.1, clean_shard <$> group.2).

Definition bound (group : string * list string) : list string * value :=
  (key_parts group.1, bound_value (strip <$> group.2)).

Definition plain_group (group : string * list string) : Prop :=
  toml_key group.1 ∧ group.2 ≠ [] ∧ Forall plain_text group.2.

Definition is_table (v : value) : Prop := ∃ d, v = VDict d.

(** One of two keys is the beginning of the other. *)
Definition comparable (p q : list string) : Prop :=
  p `prefix_of` q ∨ q `prefix_of` p.

(** The document read so far holds the pairs [pairs] and nothing else:
    every pair is found under its key, and whatever is found under a key is
    a table on the way to a pair, or the value of a pair. *)
Definition holds (pairs : list (list string * value)) (out : Output) : Prop :=
  (∀ key v, (key, v) ∈ pairs → lookup_path key (VDict (data out)) = Some v)
  ∧ (∀ q x, q ≠ [] → lookup_path q (VDict (data out)) = Some x →
       ∃ key v, (key, v) ∈ pairs ∧ q `prefix_of` key
                ∧ ((q ≠ key ∧ is_table x) ∨ (q = key ∧ x = v)))
  ∧ (∀ f, f ∈ frozen out → f ≠ [] ∧ f ∈ pairs.*1).

(** *** Runs of the build engine *)

(** The tasks rendered and the files written in a run, in order. *)
Definition rendered (log : list event) : list Task :=
  omap (λ e, match e with Rendering t => Some t | Wrote _ => None end) log.

Definition writes (log : list event) : list string :=
  omap (λ e, match e with Wrote p => Some p | Rendering _ => None end) log.

(** The output file of [task] exists in [public] and its modification time
    is strictly greater than the latest relevant timestamp of the task. *)
Definition newer (public : gmap string file) (task : Task) : Prop :=
  ∃ f, public !! output_path task = Some f ∧ latest_timestamp task < mtime f.

#[global] Instance newer_dec public task : Decision (newer public task).
Proof.
  unfold newer. destruct (public !! output_path task) as [f|].
  - destruct (decide (latest_timestamp task < mtime f)) as [Hlt|Hge].
    + left. by exists f.
    + right. by intros (f' & [= <-] & Hlt).
  - right. by intros (f' & [=] & _).
Defined.

(** *** Neighbors and tags *)


(** [b] comes directly after [a] among the pages of the directory of [a]
    that take part in the ordering. *)
Definition follows (pages : dict Page.t) (a b : string) : Prop :=
  dirname b = dirname a
  ∧ key_lt (weight_of pages) a b
  ∧ ∀ s, ordered pages s → dirname s = dirname a →
         key_lt (weight_of pages) a s →
         s = b ∨ key_lt (weight_of pages) b s.

(** The keys of a dict filled by [setdefault] along [l]: the elements of [l]
    in the order in which they are first seen. *)
Definition first_seen (l : list string) : list string :=
  foldl (λ acc t, set_add t acc) [] l.

(** *** The library builder *)

(** The files of a walk, as paths relative to the content directory and in
    the order of the walk; those that are page files, and the others. *)
Definition walked_files (walk : list (string * list string * list string))
  : list string :=
  walk ≫= λ d, truediv d.1.1 <$> d.2.

Definition other_files (walk : list (string * list string * list string))
  : list string :=
  filter (λ p, path_suffix p ≠ ".page") (walked_files walk).

(** The page stored under [k] is the result of parsing the page file of
    [k]; [task] is the task that came with it. *)
Definition parsed (h : host) (content_dir : string) (k : string)
    (p : Page.t) (task : option Task) : Prop :=
  ∃ subdirs, process_page_file h content_dir subdirs k = Done (p, task).

(** The pages and tasks while the content directory is walked. *)
Definition walk_invariant (h : host) (content_dir : string)
    (st : walk_state) : Prop :=
  NoDup (keys (st_pages st))
  ∧ (∀ k p, dict_get k (st_pages st) = Some p →
       ∃ task, parsed h content_dir k p task
               ∧ ∀ t, task = Some t → t ∈ st_tasks st)
  ∧ (∀ t, t ∈ st_tasks st →
       ∃ p, parsed h content_dir (page_id t) p (Some t)
            ∧ is_Some (dict_get (page_id t) (st_pages st))).

(** The image table has entries only for image files among [files]. *)
Definition only_images (files : list string) (info : gmap string ImageInfo)
  : Prop :=
  ∀ p, is_Some (info !! p) → p ∈ files ∧ is_image (path_suffix p) = true.



(** *** Paths *)

(** A part of a path: a name that is not empty, is not [.] and holds no
    slash. *)
Definition is_part (x : string) : Prop :=
  x ≠ "" ∧ x ≠ "." ∧ contains_char "/" x = false.

(** The text of the parts [l], each followed by a slash. *)
Definition dir_prefix (l : list string) : string :=
  foldr (λ d r, d +:+ "/" +:+ r) "" l.

(** ** Small sites used in the examples *)

(** The pages of a directory [d]: three pages that render to a file, an index
    page without explicit weight and a page without template.  The index
    page shares the tag [t] with a page of weight 5. *)
Definition example_page (i out : string) (tags : list string)
    (w : option Z) : string * Page.t :=
  (i, Page.new i out (dirname i) (path_name out) [] [] [] tags w).

Definition example_pages : dict Page.t :=
  [ example_page "d/c" "d/c.html" ["t"] (Some 5);
    example_page "d/a" "d/a.html" [] (Some 5);
    example_page "d/index" "d/index.html" ["t"] None;
    example_page "d/b" "d/b.html" [] (Some 1);
    example_page "d/note" "" [] (Some 7) ].

Definition example_siblings : list string := ["d/c"; "d/a"; "d/b"].

(** The example site after the sibling fix-up. *)
Definition fixed_example_pages : dict Page.t :=
  let page i out tags w s l h :=
    (i, Page.mk i out (dirname i) (path_name out) [] [] [] tags w s l h) in
  [ page "d/c" "d/c.html" ["t"] (Some 5) ["d/b"; "d/a"] (Some "d/a") None;
    page "d/a" "d/a.html" [] (Some 5) ["d/b"; "d/c"] (Some "d/b") (Some "d/c");
    page "d/index" "d/index.html" ["t"] None ["d/b"; "d/a"; "d/c"] None None;
    page "d/b" "d/b.html" [] (Some 1) ["d/a"; "d/c"] None (Some "d/a");
    page "d/note" "" [] (Some 7) ["d/b"; "d/a"; "d/c"] (Some "d/c") None ].

(** One page rendered to [post.html]; the template prints a fixed text. *)
Definition post_task : Task := mkTask "post" 5 "page.jinja" "post.html".

Definition post_render (t : Task) : result string := Ok "hello".

(** A site of two pages after a build: the output file of [post] is newer
    than its sources, the one of [index] is exactly as old as its sources. *)
Definition index_task : Task := mkTask "index" 5 "page.jinja" "index.html".

Definition site_tasks : list Task := [post_task; index_task].

Definition site_public : gmap string file :=
  {[ "post.html" := mkFile "hello" 9; "index.html" := mkFile "hello" 5 ]}.

(** Two pages whose output paths coincide: [a.page] and [a.b.page] both
    render to [a.html]; the template prints the page identifier. *)
Definition clash_tasks : list Task :=
  [mkTask "a" 0 "page.jinja" "a.html"; mkTask "a.b" 0 "page.jinja" "a.html"].

(** The same pages with source files dated after the runs. *)
Definition clash_tasks_late : list Task :=
  [mkTask "a" 99 "page.jinja" "a.html"; mkTask "a.b" 99 "page.jinja" "a.html"].

Definition clash_render (t : Task) : result string := Ok (page_id t).

(** The file of the docstring of [process_content]: two shards [a.b] and a
    shard [c]. *)
Definition example_markers : list (string * string) :=
  [ ("a.b", String nl "shard a.b 1" +:+ String nl "");
    ("a.b", String nl "shard a.b 2" +:+ String nl "");
    ("c", String nl "shard c" +:+ String nl "") ].

(** A site in [/site]: a home page, a blog with a post (which has a
    template, a weight, a tag and a content file) and a note without
    template, two versions of a style sheet and an image.  The page file
    [bad.page] has tags that are not a list; the walk of the site does not
    list it, the walk [bad_walk] does. *)
Definition example_stat (p : string) : outcome Z :=
  if String.eqb p "/site/content/index.page" then Done 10
  else if String.eqb p "/site/content/blog/post.page" then Done 20
  else if String.eqb p "/site/content/blog/post.md" then Done 30
  else if String.eqb p "/site/content/blog/note.page" then Done 5
  else if String.eqb p "/site/content/bad.page" then Done 7
  else Failed FileNotFoundError [].

Definition example_load (p : string) : outcome (dict value) :=
  if String.eqb p "/site/content/index.page"
  then Done [("template", VStr "home.jinja")]
  else if String.eqb p "/site/content/blog/post.page"
  then Done [("template", VStr "post.jinja"); ("weight", VInt 2);
             ("tags", VList [VStr "news"]);
             ("content", VDict [("body", VStr "post.md")])]
  else if String.eqb p "/site/content/blog/note.page"
  then Done [("weight", VInt 1); ("tags", VList [VStr "news"])]
  else if String.eqb p "/site/content/bad.page"
  then Done [("tags", VStr "news")]
  else Failed FileNotFoundError [].

Definition example_host : host :=
  mkHost example_stat (λ _, false)
    (λ p, bool_decide (p ∈ ["/site/content"; "/site/templates"]))
    example_load
    (λ p, if String.eqb p "/site/content/blog/post.md" then Done "hello"
          else Failed FileNotFoundError [])
    (λ _, Failed JSONDecodeError [])
    (λ _, Failed TOMLDecodeError [])
    (λ s, [s])
    (λ _, Done (64, 32))
    (λ p, p).

Definition example_walk : list (string * list string * list string) :=
  [("", ["blog"; "css"; "img"], ["index.page"]);
   ("blog", [], ["post.page"; "post.md"; "note.page"]);
   ("css", [], ["site.1.css"; "site.2.css"]);
   ("img", [], ["logo.png"])].

Definition bad_walk : list (string * list string * list string) :=
  [("", [], ["index.page"; "bad.page"])].

(** Three pages with integer weights that carry the tags [x] and [y]. *)
Definition tagged_pages : dict Page.t :=
  [ example_page "b" "b.html" ["x"; "y"] (Some 2);
    example_page "a" "a.html" ["y"] (Some 2);
    example_page "c" "" ["y"; "x"] (Some 1) ].

(** * Properties *)

(** Closed goals: a decidable proposition, and a page of the example site
    that has a weight. *)
Ltac by_computation := apply (bool_decide_unpack _); vm_compute; exact I.
Ltac has_weight := eexists _, _; split; reflexivity.

(** ** The exception monad *)


Lemma bind_Ok_l {A B} (a : A) (f : A → result B) : Ok a ≫= f = f a.
Proof. reflexivity. Qed.

(** ** Dictionaries *)

Section Dict.
Context {V : Type}.
Implicit Types (d : dict V) (k : string) (v : V).

Lemma dict_get_setitem_eq d k v : dict_get k (setitem k v d) = Some v.
Proof.
  induction d as [|[k' v'] d IH]; simpl.
  - by rewrite String.eqb_refl.
  - destruct (String.eqb k k') eqn:E; simpl.
    + by rewrite String.eqb_refl.
    + by rewrite E.
Qed.

Lemma dict_get_setitem_ne d k k' v :
  k' ≠ k → dict_get k' (setitem k v d) = dict_get k' d.
Proof.
  intros Hne. induction d as [|[k0 v0] d IH]; simpl.
  - apply String.eqb_neq in Hne. by rewrite Hne.
  - destruct (String.eqb k k0) eqn:E; simpl.
    + apply String.eqb_eq in E as <-.
      apply String.eqb_neq in Hne. by rewrite Hne.
    + by rewrite IH.
Qed.

Lemma dict_get_setitem d k k' v :
  dict_get k' (setitem k v d) = if decide (k' = k) then Some v else dict_get k' d.
Proof.
  case_decide as E.
  - subst. apply dict_get_setitem_eq.
  - by apply dict_get_setitem_ne.
Qed.

Lemma dict_get_Some_keys d k v : dict_get k d = Some v → k ∈ keys d.
Proof.
  unfold keys. induction d as [|[k' v'] d IH]; simpl; [done|].
  destruct (String.eqb k k') eqn:E.
  - apply String.eqb_eq in E as ->. intros _. apply list_elem_of_here.
  - intros H. apply list_elem_of_further. auto.
Qed.

Lemma dict_get_keys d k : k ∈ keys d → is_Some (dict_get k d).
Proof.
  unfold keys. induction d as [|[k' v'] d IH]; simpl.
  - intros H. by apply elem_of_nil in H.
  - intros H. destruct (String.eqb k k') eqn:E; [by eexists|].
    apply String.eqb_neq in E. apply elem_of_cons in H as [H|H]; [done|auto].
Qed.

Lemma dict_get_None_keys d k : dict_get k d = None ↔ k ∉ keys d.
Proof.
  split.
  - intros H Hin. apply dict_get_keys in Hin as [v Hv]. congruence.
  - intros H. destruct (dict_get k d) eqn:E; [|done].
    apply dict_get_Some_keys in E. done.
Qed.

Lemma keys_setitem_in d k v : k ∈ keys d → keys (setitem k v d) = keys d.
Proof.
  unfold keys. induction d as [|[k' v'] d IH]; simpl.
  - intros H. by apply elem_of_nil in H.
  - intros H. destruct (String.eqb k k') eqn:E; simpl.
    + apply String.eqb_eq in E. by subst.
    + apply String.eqb_neq in E. f_equal. apply IH.
      apply elem_of_cons in H as [H|H]; [done|auto].
Qed.

Lemma keys_setitem_notin d k v : k ∉ keys d → keys (setitem k v d) = keys d ++ [k].
Proof.
  unfold keys. induction d as [|[k' v'] d IH]; simpl; [done|].
  intros H. apply not_elem_of_cons in H as [H1 H2].
  apply String.eqb_neq in H1. rewrite H1. simpl. f_equal. auto.
Qed.

Lemma NoDup_keys_setitem d k v : NoDup (keys d) → NoDup (keys (setitem k v d)).
Proof.
  intros Hnd. destruct (decide (k ∈ keys d)) as [Hin|Hout].
  - by rewrite keys_setitem_in.
  - rewrite keys_setitem_notin by done.
    apply NoDup_app. split_and!; [done| |apply NoDup_singleton].
    intros x Hx Hx'. apply list_elem_of_singleton in Hx'. by subst.
Qed.

Lemma dict_get_elem_of d k v : dict_get k d = Some v → (k, v) ∈ d.
Proof.
  induction d as [|[k' v'] d IH]; simpl; [done|].
  destruct (String.eqb k k') eqn:E.
  - apply String.eqb_eq in E as ->. intros [= ->]. apply list_elem_of_here.
  - intros H. apply list_elem_of_further. auto.
Qed.


End Dict.

(** ** Sorting *)

Section PureSort.
Context {A : Type} (ltb : A → A → bool).

Lemma insort_pure_perm x l : insort_pure ltb x l ≡ₚ x :: l.
Proof.
  induction l as [|y l IH]; simpl; [done|].
  destruct (ltb x y); [done|].
  rewrite IH. apply Permutation_swap.
Qed.

Lemma isort_pure_perm acc l : isort_pure ltb acc l ≡ₚ acc ++ l.
Proof.
  revert acc. induction l as [|x l IH]; intros acc; simpl.
  - by rewrite app_nil_r.
  - unfold isort_pure in *. simpl. rewrite IH, insort_pure_perm.
    simpl. apply Permutation_middle.
Qed.

Hypothesis ltb_asym : ∀ x y, ltb x y = true → ltb y x = false.

Lemma insort_pure_sorted x l :
  Sorted (not_gt ltb) l → Sorted (not_gt ltb) (insort_pure ltb x l).
Proof.
  induction l as [|y l IH]; simpl; intros Hs.
  - repeat constructor.
  - destruct (ltb x y) eqn:E.
    + constructor; [done|]. constructor. by apply ltb_asym.
    + inv Hs. constructor; [auto|].
      destruct l as [|z l]; simpl.
      * by constructor.
      * destruct (ltb x z); constructor; [done|]. by inv H2.
Qed.

Lemma isort_pure_sorted acc l :
  Sorted (not_gt ltb) acc → Sorted (not_gt ltb) (isort_pure ltb acc l).
Proof.
  revert acc. induction l as [|x l IH]; intros acc Hs; simpl; [done|].
  apply IH. by apply insort_pure_sorted.
Qed.

End PureSort.

(** When the keys of the elements can be computed and compared, [sorted] is
    the pure insertion sort. *)
Section SortedOk.
Context {K A : Type} (key : A → result K) (lt : K → K → result bool).
Context (kf : A → K) (ltb : A → A → bool) (good : A → Prop).
Hypothesis key_good : ∀ a, good a → key a = Ok (kf a).
Hypothesis lt_good : ∀ a b, good a → good b → lt (kf a) (kf b) = Ok (ltb a b).

Let deco (a : A) : K * A := (kf a, a).

Lemma decorate_good l : Forall good l → decorate key l = Ok (deco <$> l).
Proof.
  induction 1 as [|a l Ha Hl IH]; csimpl; [done|].
  rewrite key_good by done. csimpl. rewrite IH. done.
Qed.

Lemma insort_good x l :
  good x → Forall good l →
  insort lt (deco x) (deco <$> l) = Ok (deco <$> insort_pure ltb x l).
Proof.
  intros Hx. induction 1 as [|y l Hy Hl IH]; csimpl; [done|].
  rewrite lt_good by done. csimpl.
  destruct (ltb x y); csimpl; [done|].
  rewrite IH. done.
Qed.

Lemma isort_go_good acc l :
  Forall good acc → Forall good l →
  isort_go lt (deco <$> acc) (deco <$> l) = Ok (deco <$> isort_pure ltb acc l).
Proof.
  intros Hacc Hl. revert acc Hacc.
  induction Hl as [|x l Hx Hl IH]; intros acc Hacc; csimpl; [done|].
  rewrite insort_good by done. csimpl.
  apply IH. rewrite insort_pure_perm. by constructor.
Qed.

Lemma sorted_good l :
  Forall good l → sorted key lt l = Ok (isort_pure ltb [] l).
Proof.
  intros Hl. unfold sorted. rewrite decorate_good by done. csimpl.
  change (@nil (K * A)) with (deco <$> []).
  rewrite isort_go_good by done. csimpl.
  f_equal. rewrite <- list_fmap_compose. apply list_fmap_id.
Qed.

End SortedOk.

(** ** The order of the keys *)

Lemma Sorted_weaken {A} (R1 R2 : relation A) l :
  (∀ a b, R1 a b → R2 a b) → Sorted R1 l → Sorted R2 l.
Proof.
  intros HR. induction 1 as [|a l Hs IH Hhd]; constructor; [done|].
  destruct Hhd; constructor. auto.
Qed.

Lemma string_ltb_leb a b : String.ltb a b = negb (String.leb b a).
Proof.
  unfold String.ltb, String.leb. rewrite (String.compare_antisym b a).
  by destruct (String.compare a b).
Qed.

Section KeyOrder.
Context (w : string → Z).

Lemma key_ltb_spec a b : key_ltb w a b = true ↔ key_lt w a b.
Proof.
  unfold key_ltb, key_lt. destruct (Z.eqb_spec (w a) (w b)) as [E|E].
  - split; [intros H; right; done|]. intros [H|[_ H]]; [lia|done].
  - rewrite Z.ltb_lt. split; [by left|]. intros [H|[H _]]; done.
Qed.

Lemma key_ltb_false a b : key_ltb w b a = false ↔ key_le w a b.
Proof.
  unfold key_ltb, key_le, String.le.
  destruct (Z.eqb_spec (w b) (w a)) as [E|E].
  - rewrite string_ltb_leb, negb_false_iff, <- Is_true_true.
    split; [intros H; right; done|]. intros [H|[_ H]]; [lia|done].
  - rewrite Z.ltb_ge. split; [intros H; left; lia|].
    intros [H|[H _]]; [lia|done].
Qed.

Lemma key_lt_le a b : key_lt w a b → key_le w a b.
Proof.
  intros H. apply key_ltb_false. apply key_ltb_spec in H.
  revert H. unfold key_ltb. rewrite (Z.eqb_sym (w b) (w a)).
  destruct (Z.eqb_spec (w a) (w b)) as [E|E].
  - rewrite !string_ltb_leb. intros H%negb_true_iff.
    destruct (String.leb_total a b) as [H'|H']; [|congruence].
    by rewrite H'.
  - rewrite Z.ltb_lt, Z.ltb_ge. lia.
Qed.

Lemma key_ltb_asym a b : key_ltb w a b = true → key_ltb w b a = false.
Proof. rewrite key_ltb_spec, key_ltb_false. apply key_lt_le. Qed.

#[local] Instance key_le_trans : Transitive (key_le w).
Proof.
  intros a b c [H1|[H1 H1']] [H2|[H2 H2']]; unfold key_le.
  - left. lia.
  - left. lia.
  - left. lia.
  - right. split; [lia|]. by etrans.
Qed.

Lemma key_le_ne_lt a b : key_le w a b → a ≠ b → key_lt w a b.
Proof.
  intros [H|[H1 H2]] Hne; [by left|]. right. split; [done|].
  rewrite string_ltb_leb. apply negb_true_iff.
  destruct (String.leb b a) eqn:E; [|done].
  destruct Hne. apply (anti_symm String.le); [done|].
  unfold String.le. by rewrite E.
Qed.

Lemma key_lt_irrefl a : ¬ key_lt w a a.
Proof.
  intros [H|[_ H]]; [lia|]. rewrite string_ltb_leb in H.
  apply negb_true_iff in H.
  assert (String.le a a) as H' by reflexivity.
  unfold String.le in H'. by rewrite H in H'.
Qed.

#[local] Instance key_lt_trans : Transitive (key_lt w).
Proof.
  intros a b c Hab Hbc.
  apply key_le_ne_lt.
  - etrans; by apply key_lt_le.
  - intros ->. apply key_lt_le in Hab. apply key_ltb_false in Hab.
    apply key_ltb_spec in Hbc. congruence.
Qed.

Lemma key_lt_total a b : a ≠ b → key_lt w a b ∨ key_lt w b a.
Proof.
  intros Hne. destruct (key_ltb w a b) eqn:E.
  - left. by apply key_ltb_spec.
  - right. apply key_le_ne_lt; [by apply key_ltb_false|done].
Qed.

Lemma tuple_lt_weighted a b :
  tuple_lt (Some (w a), a) (Some (w b), b) = Ok (key_ltb w a b).
Proof. unfold tuple_lt, key_ltb. simpl. by destruct (w a =? w b). Qed.

(** The insertion sort of a duplicate free list is strictly ascending. *)
Lemma isort_pure_strict l :
  NoDup l → StronglySorted (key_lt w) (isort_pure (key_ltb w) [] l).
Proof.
  intros Hnd.
  assert (StronglySorted (key_le w) (isort_pure (key_ltb w) [] l)) as Hs.
  { apply Sorted_StronglySorted; [apply _|].
    eapply Sorted_weaken; [|apply isort_pure_sorted].
    - intros a b H. by apply key_ltb_false.
    - apply key_ltb_asym.
    - constructor. }
  assert (NoDup (isort_pure (key_ltb w) [] l)) as Hnd'.
  { by rewrite isort_pure_perm. }
  induction Hs as [|a l' Hs IH Hall]; [constructor|].
  apply NoDup_cons in Hnd' as [Hnotin Hnd'].
  constructor; [auto|].
  apply Forall_forall. intros b Hb.
  apply key_le_ne_lt.
  - rewrite Forall_forall in Hall. by apply Hall.
  - by intros ->.
Qed.

End KeyOrder.

(** ** [sort_siblings] on weighted pages *)

Section SortSiblings.
Context (pages : dict Page.t).
Let w := weight_of pages.

Lemma key_weighted a : weighted pages a → key pages a = Ok (Some (w a), a).
Proof.
  intros (p & z & Hp & Hz). unfold key, getitem, w, weight_of.
  rewrite Hp. simpl. by rewrite Hz.
Qed.

Lemma sorted_weighted l :
  Forall (weighted pages) l →
  sorted (key pages) tuple_lt l = Ok (isort_pure (key_ltb w) [] l).
Proof.
  apply (sorted_good (key pages) tuple_lt (λ a, (Some (w a), a))
           (key_ltb w) (weighted pages)).
  - apply key_weighted.
  - intros a b _ _. apply tuple_lt_weighted.
Qed.

Lemma split_siblings_weighted me l :
  weighted pages me → Forall (weighted pages) l →
  split_siblings pages me l
  = Ok (filter (λ s, key_lt w s me) l, filter (λ s, ¬ key_lt w s me) l).
Proof.
  intros Hme. induction 1 as [|s l Hs Hl IH]; csimpl; [done|].
  rewrite !key_weighted by done. csimpl.
  rewrite tuple_lt_weighted. csimpl. rewrite IH. csimpl.
  rewrite !filter_cons.
  destruct (key_ltb w s me) eqn:E.
  - apply key_ltb_spec in E.
    rewrite decide_True by done. rewrite decide_False by tauto. done.
  - assert (¬ key_lt w s me) as E'.
    { intros E'%key_ltb_spec. congruence. }
    rewrite decide_False by done. rewrite decide_True by done. done.
Qed.

End SortSiblings.

Lemma filter_ext_in {A} (P1 P2 : A → Prop) `{!∀ x, Decision (P1 x)}
    `{!∀ x, Decision (P2 x)} (l : list A) :
  (∀ x, x ∈ l → P1 x ↔ P2 x) → filter P1 l = filter P2 l.
Proof.
  induction l as [|a l IH]; intros Hiff; [done|].
  rewrite !filter_cons.
  rewrite IH by (intros x Hx; apply Hiff; by apply list_elem_of_further).
  pose proof (Hiff a (list_elem_of_here _ _)).
  destruct (decide (P1 a)), (decide (P2 a)); tauto || done.
Qed.

Lemma filter_split_perm {A} (P : A → Prop) `{!∀ x, Decision (P x)} (l : list A) :
  filter P l ++ filter (λ x, ¬ P x) l ≡ₚ l.
Proof.
  induction l as [|a l IH]; [done|].
  rewrite !filter_cons. destruct (decide (P a)).
  - rewrite decide_False by tauto. simpl. by rewrite IH.
  - rewrite decide_True by done. rewrite <- Permutation_middle. by rewrite IH.
Qed.

Lemma Forall_filter_weighted (pages : dict Page.t) (P : string → Prop)
    `{!∀ x, Decision (P x)} (l : list string) :
  Forall (weighted pages) l → Forall (weighted pages) (filter P l).
Proof.
  intros Hl. apply Forall_forall. intros x [_ Hx]%list_elem_of_filter.
  rewrite Forall_forall in Hl. auto.
Qed.

(** [sort_siblings] in closed form. *)
Lemma sort_siblings_eval (siblings : list string) (me : string)
    (pages : dict Page.t) (p : Page.t) :
  Forall (weighted pages) siblings →
  dict_get me pages = Some p →
  let ltb := key_ltb (weight_of pages) in
  let lt := key_lt (weight_of pages) in
  sort_siblings siblings me pages =
  Ok (match Page.weight p with
      | None => (isort_pure ltb [] siblings, None, None)
      | Some _ =>
          let lighter :=
            isort_pure ltb [] (filter (λ s, lt s me) (set_discard me siblings)) in
          let heavier :=
            isort_pure ltb [] (filter (λ s, ¬ lt s me) (set_discard me siblings)) in
          (lighter ++ heavier, last lighter, head heavier)
      end).
Proof.
  intros Hall Hp ltb lt. unfold sort_siblings, getitem at 1. rewrite Hp. csimpl.
  destruct (Page.weight p) as [z|] eqn:Hz.
  - rewrite split_siblings_weighted;
      [|by exists p, z|by apply Forall_filter_weighted]. csimpl.
    rewrite !sorted_weighted by (by do 2 apply Forall_filter_weighted). done.
  - rewrite sorted_weighted by done. done.
Qed.

(** C1: for a subject page with an integer weight among weighted pages,
    [sort_siblings] splits the other siblings by the key (weight, id): the
    lighter set holds exactly the siblings other than the subject whose key
    is below the subject's, the heavier set exactly the other siblings whose
    key is not; the subject is in neither.  Each set is in ascending order,
    the result is the lighter set followed by the heavier set, with the last
    element of the lighter set as the lighter neighbor and the first element
    of the heavier set as the heavier neighbor (each absent when its set is
    empty); the whole list is ascending by weight and, for equal weights, by
    identifier. *)
Theorem sort_siblings_weighted (siblings : list string) (me : string)
    (pages : dict Page.t) :
  NoDup siblings →
  weighted pages me →
  Forall (weighted pages) siblings →
  let lt := key_lt (weight_of pages) in
  ∃ lighter heavier,
    sort_siblings siblings me pages
    = Ok (lighter ++ heavier, last lighter, head heavier)
    ∧ (∀ s, s ∈ lighter ↔ s ∈ siblings ∧ s ≠ me ∧ lt s me)
    ∧ (∀ s, s ∈ heavier ↔ s ∈ siblings ∧ s ≠ me ∧ ¬ lt s me)
    ∧ (∀ s, s ∈ lighter ++ heavier ↔ s ∈ siblings ∧ s ≠ me)
    ∧ (me ∉ lighter ++ heavier)
    ∧ NoDup (lighter ++ heavier)
    ∧ StronglySorted lt lighter
    ∧ StronglySorted lt heavier
    ∧ StronglySorted lt (lighter ++ heavier).
Proof.
  intros Hnd (p & z & Hp & Hz) Hall lt.
  set (w := weight_of pages).
  set (others := filter (λ s, s ≠ me) siblings).
  assert (NoDup others) as Hnd' by by apply NoDup_filter.
  set (lighter := isort_pure (key_ltb w) [] (filter (λ s, lt s me) others)).
  set (heavier := isort_pure (key_ltb w) [] (filter (λ s, ¬ lt s me) others)).
  assert (∀ s, s ∈ lighter ↔ s ∈ siblings ∧ s ≠ me ∧ lt s me) as Hlighter.
  { intros s. unfold lighter. rewrite isort_pure_perm. simpl.
    unfold others. rewrite !list_elem_of_filter. tauto. }
  assert (∀ s, s ∈ heavier ↔ s ∈ siblings ∧ s ≠ me ∧ ¬ lt s me) as Hheavier.
  { intros s. unfold heavier. rewrite isort_pure_perm. simpl.
    unfold others. rewrite !list_elem_of_filter. tauto. }
  assert (∀ s, s ∈ lighter ++ heavier ↔ s ∈ siblings ∧ s ≠ me) as Hboth.
  { intros s. rewrite elem_of_app, Hlighter, Hheavier.
    destruct (decide (lt s me)); tauto. }
  assert (StronglySorted lt (lighter ++ heavier)) as Hsorted.
  { apply StronglySorted_app_2;
      [|apply isort_pure_strict; by apply NoDup_filter..].
    intros a b [_ [_ Ha]]%Hlighter [_ [Hne Hb]]%Hheavier.
    apply (key_lt_trans w a me b); [exact Ha|].
    destruct (key_lt_total w me b) as [?|?]; [congruence|done|].
    by destruct Hb. }
  exists lighter, heavier. split_and!; [|done|done|done| | |..|done].
  - rewrite (sort_siblings_eval siblings me pages p) by done. by rewrite Hz.
  - rewrite Hboth. tauto.
  - unfold lighter, heavier. rewrite !isort_pure_perm. simpl.
    by rewrite filter_split_perm.
  - apply isort_pure_strict. by apply NoDup_filter.
  - apply isort_pure_strict. by apply NoDup_filter.
Qed.

Lemma sort_siblings_weighted_witness :
  NoDup example_siblings ∧
  weighted example_pages "d/a" ∧
  Forall (weighted example_pages) example_siblings ∧
  let lt := key_lt (weight_of example_pages) in
  ∃ lighter heavier,
    sort_siblings example_siblings "d/a" example_pages
    = Ok (lighter ++ heavier, last lighter, head heavier)
    ∧ (∀ s, s ∈ lighter ↔ s ∈ example_siblings ∧ s ≠ "d/a" ∧ lt s "d/a")
    ∧ (∀ s, s ∈ heavier ↔ s ∈ example_siblings ∧ s ≠ "d/a" ∧ ¬ lt s "d/a")
    ∧ (∀ s, s ∈ lighter ++ heavier ↔ s ∈ example_siblings ∧ s ≠ "d/a")
    ∧ ("d/a" ∉ lighter ++ heavier)
    ∧ NoDup (lighter ++ heavier)
    ∧ StronglySorted lt lighter
    ∧ StronglySorted lt heavier
    ∧ StronglySorted lt (lighter ++ heavier).
Proof.
  assert (NoDup example_siblings) as Hnd by by_computation.
  assert (weighted example_pages "d/a") as Hme by has_weight.
  assert (Forall (weighted example_pages) example_siblings) as Hall
    by (repeat constructor; has_weight).
  split_and!; [done..|].
  exact (sort_siblings_weighted example_siblings "d/a" example_pages
           Hnd Hme Hall).
Defined.

Example sort_siblings_example :
  sort_siblings example_siblings "d/a" example_pages
  = Ok (["d/b"; "d/c"], Some "d/b", Some "d/c").
Proof. reflexivity. Qed.

(** ** What [sort_siblings] reads of the pages *)

Section SameWeights.
Context (pages1 pages2 : dict Page.t).
Hypothesis Hsame : same_weights pages1 pages2.

Lemma key_same a : key pages1 a = key pages2 a.
Proof.
  unfold key, getitem. specialize (Hsame a).
  destruct (dict_get a pages1), (dict_get a pages2); simplify_eq/=; congruence.
Qed.

Lemma decorate_same l : decorate (key pages1) l = decorate (key pages2) l.
Proof. induction l as [|a l IH]; csimpl; [done|]. by rewrite key_same, IH. Qed.

Lemma split_siblings_same me l :
  split_siblings pages1 me l = split_siblings pages2 me l.
Proof.
  induction l as [|a l IH]; csimpl; [done|]. by rewrite !key_same, IH.
Qed.

Lemma sort_siblings_same siblings me :
  sort_siblings siblings me pages1 = sort_siblings siblings me pages2.
Proof.
  unfold sort_siblings, sorted, getitem. pose proof (Hsame me) as Hme.
  rewrite split_siblings_same.
  destruct (dict_get me pages1) as [p1|], (dict_get me pages2) as [p2|];
    simplify_eq/=; [|done].
  rewrite Hme. destruct (Page.weight p2).
  - destruct (split_siblings pages2 me (set_discard me siblings)); csimpl; [|done].
    by rewrite !decorate_same.
  - by rewrite decorate_same.
Qed.

End SameWeights.

(** ** The sibling sets *)

Lemma set_add_elem_of x y s : y ∈ set_add x s ↔ y = x ∨ y ∈ s.
Proof.
  unfold set_add. case_bool_decide as E.
  - split; [auto|]. intros [->|?]; done.
  - rewrite elem_of_app, list_elem_of_singleton. tauto.
Qed.

Lemma set_add_NoDup x s : NoDup s → NoDup (set_add x s).
Proof.
  intros Hnd. unfold set_add. case_bool_decide as E; [done|].
  apply NoDup_app. split_and!; [done| |apply NoDup_singleton].
  intros y Hy ->%list_elem_of_singleton. done.
Qed.

Lemma ordered_test (pages : dict Page.t) (a : string) (p : Page.t) :
  dict_get a pages = Some p →
  bool_decide (Page.weight p = None) || String.eqb (Page.path p) "" = false
  ↔ ordered pages a.
Proof.
  intros Hp. rewrite orb_false_iff, bool_decide_eq_false, String.eqb_neq.
  split.
  - intros [Hw Hpath]. destruct (Page.weight p) as [z|] eqn:Hz; [|done].
    by exists p, z.
  - intros (p' & z & Hp' & Hz & Hpath). simplify_eq. split; [congruence|done].
Qed.

Lemma collect_siblings_spec (pages : dict Page.t) (ids seen : list string)
    (sibling_dict : dict (list string)) :
  (∀ i, i ∈ ids → is_Some (dict_get i pages)) →
  sibling_sets pages seen sibling_dict →
  ∃ sd, collect_siblings pages ids sibling_dict = Ok sd
        ∧ sibling_sets pages (seen ++ ids) sd.
Proof.
  revert seen sibling_dict.
  induction ids as [|page_id ids IH]; intros seen sd Hin Hinv; csimpl.
  { exists sd. by rewrite app_nil_r. }
  destruct (Hin page_id) as [p Hp]; [apply list_elem_of_here|].
  unfold getitem. rewrite Hp. csimpl.
  assert (∀ i, i ∈ ids → is_Some (dict_get i pages)) as Hin'.
  { intros i Hi. apply Hin. by apply list_elem_of_further. }
  replace (seen ++ page_id :: ids) with ((seen ++ [page_id]) ++ ids)
    by by rewrite <- app_assoc.
  destruct (bool_decide (Page.weight p = None) || String.eqb (Page.path p) "")
    eqn:Htest.
  - apply IH; [done|]. intros d. specialize (Hinv d).
    assert (¬ ordered pages page_id) as Hno.
    { intros Ho. apply (ordered_test pages page_id p Hp) in Ho. congruence. }
    destruct (dict_get d sd) as [sibs|].
    + destruct Hinv as (Hnd & Hne & Hiff). split_and!; [done..|].
      intros s. rewrite Hiff, elem_of_app, list_elem_of_singleton.
      split; [tauto|]. intros [[?| ->] [? ?]]; tauto.
    + intros s [Hs| ->%list_elem_of_singleton]%elem_of_app; [by apply Hinv|].
      tauto.
  - apply (ordered_test pages page_id p Hp) in Htest.
    apply IH; [done|]. intros d. pose proof (Hinv d) as Hd.
    rewrite dict_get_setitem. case_decide as Ed.
    + subst d. unfold get_default.
      destruct (dict_get (dirname page_id) sd) as [sibs|].
      * destruct Hd as (Hnd & Hne & Hiff). split_and!.
        -- by apply set_add_NoDup.
        -- intros E. assert (page_id ∈ set_add page_id sibs) as Hx.
           { apply set_add_elem_of. by left. }
           rewrite E in Hx. by apply elem_of_nil in Hx.
        -- intros s. rewrite set_add_elem_of, Hiff, elem_of_app,
             list_elem_of_singleton.
           split; [|tauto]. intros [->|?]; tauto.
      * split_and!.
        -- by apply set_add_NoDup, NoDup_nil.
        -- done.
        -- intros s. rewrite set_add_elem_of, elem_of_app,
             list_elem_of_singleton.
           split.
           ++ intros [->|Hs]; [tauto|]. by apply elem_of_nil in Hs.
           ++ intros [[Hs| ->] [Ho Hdir]]; [|by left].
              destruct (Hd s Hs Ho Hdir).
    + destruct (dict_get d sd) as [sibs|].
      * destruct Hd as (Hnd & Hne & Hiff). split_and!; [done..|].
        intros s. rewrite Hiff, elem_of_app, list_elem_of_singleton.
        split; [tauto|]. intros [[?| ->] [? ?]]; [tauto|done].
      * intros s [Hs| ->%list_elem_of_singleton]%elem_of_app; [by apply Hd|].
        done.
Qed.

(** ** The second loop of [fix_siblings] *)

Section Assign.
Context (sd : dict (list string)) (pages0 : dict Page.t).
Hypothesis Hsort : ∀ k sibs,
  is_Some (dict_get k pages0) → dict_get (dirname k) sd = Some sibs →
  ∃ r, sort_siblings sibs k pages0 = Ok r.

Lemma fixed_weight k p0 : Page.weight (fixed sd pages0 k p0) = Page.weight p0.
Proof.
  unfold fixed. destruct (dict_get (dirname k) sd); [|done].
  by destruct (sort_siblings _ _ _).
Qed.

Lemma partly_fixed_same_weights cur :
  partly_fixed sd pages0 cur → same_weights cur pages0.
Proof.
  intros Hcur a. destruct (Hcur a) as [-> | ->]; [done|].
  destruct (dict_get a pages0); [|done]. simpl. by rewrite fixed_weight.
Qed.

Lemma fixed_None k p0 :
  dict_get (dirname k) sd = None → fixed sd pages0 k p0 = p0.
Proof. intros H. unfold fixed. by rewrite H. Qed.

Lemma fixed_Some k p0 sibs r :
  dict_get (dirname k) sd = Some sibs → sort_siblings sibs k pages0 = Ok r →
  fixed sd pages0 k p0 = Page.replace_siblings p0 r.1.1 r.1.2 r.2.
Proof. intros H1 H2. unfold fixed. by rewrite H1, H2. Qed.

Lemma assign_siblings_spec ids cur :
  (∀ i, i ∈ ids → is_Some (dict_get i pages0)) →
  partly_fixed sd pages0 cur →
  ∃ cur', assign_siblings sd ids cur = Ok cur'
    ∧ partly_fixed sd pages0 cur'
    ∧ (∀ k, k ∈ ids → dict_get k cur' = fixed sd pages0 k <$> dict_get k pages0)
    ∧ (∀ k, k ∉ ids → dict_get k cur' = dict_get k cur).
Proof.
  revert cur. induction ids as [|k0 ids IH]; intros cur Hin Hcur; csimpl.
  { exists cur. split_and!; [done..| |done]. intros k Hk. by apply elem_of_nil in Hk. }
  assert (∀ i, i ∈ ids → is_Some (dict_get i pages0)) as Hin'.
  { intros i Hi. apply Hin. by apply list_elem_of_further. }
  destruct (Hin k0) as [p0 Hp0]; [apply list_elem_of_here|].
  destruct (dict_get (dirname k0) sd) as [sibs|] eqn:Hdir.
  - destruct (Hsort k0 sibs) as [r Hr]; [by eexists|done|].
    rewrite (sort_siblings_same cur pages0)
      by by apply partly_fixed_same_weights.
    rewrite Hr. csimpl.
    assert (∃ c, dict_get k0 cur = Some c ∧
                 Page.replace_siblings c r.1.1 r.1.2 r.2
                 = fixed sd pages0 k0 p0) as (c & Hc & Hfix).
    { rewrite (fixed_Some k0 p0 sibs r) by done.
      destruct (Hcur k0) as [E|E]; rewrite Hp0 in E; simpl in E;
        eexists; (split; [exact E|]); [done|].
      by rewrite (fixed_Some k0 p0 sibs r) by done. }
    unfold getitem. rewrite Hc. csimpl. rewrite Hfix.
    set (cur1 := setitem k0 (fixed sd pages0 k0 p0) cur).
    assert (partly_fixed sd pages0 cur1) as Hcur1.
    { intros k. unfold cur1. rewrite dict_get_setitem. case_decide as E.
      - subst. right. by rewrite Hp0.
      - apply Hcur. }
    destruct (IH cur1 Hin' Hcur1) as (cur' & Hrun & Hcur' & Hdone & Hrest).
    exists cur'. split_and!; [done..| |].
    + intros k Hk. destruct (decide (k ∈ ids)) as [Hk'|Hk']; [auto|].
      apply elem_of_cons in Hk as [->|Hk]; [|done].
      rewrite Hrest by done. unfold cur1.
      by rewrite dict_get_setitem_eq, Hp0.
    + intros k Hk. apply not_elem_of_cons in Hk as [Hk1 Hk2].
      rewrite Hrest by done. unfold cur1. by rewrite dict_get_setitem_ne.
  - destruct (IH cur Hin' Hcur) as (cur' & Hrun & Hcur' & Hdone & Hrest).
    exists cur'. split_and!; [done..| |].
    + intros k Hk. destruct (decide (k ∈ ids)) as [Hk'|Hk']; [auto|].
      apply elem_of_cons in Hk as [->|Hk]; [|done].
      rewrite Hrest by done.
      destruct (Hcur k0) as [E|E]; rewrite E, Hp0; simpl; [|done].
      by rewrite fixed_None.
    + intros k Hk. apply not_elem_of_cons in Hk as [Hk1 Hk2]. auto.
Qed.

End Assign.

(** ** [fix_siblings] as a whole *)

Lemma ordered_weighted pages a : ordered pages a → weighted pages a.
Proof. intros (p & z & ? & ? & ?). by exists p, z. Qed.

Lemma sibling_sets_weighted pages seen sd d sibs :
  sibling_sets pages seen sd → dict_get d sd = Some sibs →
  Forall (weighted pages) sibs.
Proof.
  intros Hsets Hd. specialize (Hsets d). rewrite Hd in Hsets.
  destruct Hsets as (_ & _ & Hiff). apply Forall_forall. intros s Hs.
  apply ordered_weighted. by apply Hiff.
Qed.

Lemma fix_siblings_spec (pages : dict Page.t) :
  ∃ sd pages',
    sibling_sets pages (keys pages) sd
    ∧ fix_siblings pages = Ok pages'
    ∧ ∀ k, dict_get k pages' = fixed sd pages k <$> dict_get k pages.
Proof.
  destruct (collect_siblings_spec pages (keys pages) [] []) as (sd & Hsd & Hsets).
  { intros i. apply dict_get_keys. }
  { intros d s Hs. by apply elem_of_nil in Hs. }
  simpl in Hsets.
  destruct (assign_siblings_spec sd pages) with (ids := keys pages) (cur := pages)
    as (pages' & Hrun & _ & Hdone & Hrest).
  { intros k sibs [p Hp] Hdir. eexists.
    apply sort_siblings_eval; [|done].
    by eapply sibling_sets_weighted. }
  { intros i. apply dict_get_keys. }
  { intros k. by left. }
  exists sd, pages'. split_and!; [done| |].
  - unfold fix_siblings. rewrite Hsd. csimpl. done.
  - intros k. destruct (decide (k ∈ keys pages)) as [Hk|Hk]; [auto|].
    rewrite Hrest by done. apply dict_get_None_keys in Hk. by rewrite Hk.
Qed.

Lemma set_discard_notin x s : x ∉ s → set_discard x s = s.
Proof.
  intros Hx. unfold set_discard. induction s as [|y s IH]; [done|].
  apply not_elem_of_cons in Hx as [Hne Hx].
  rewrite filter_cons, decide_True by done. by rewrite IH.
Qed.

Lemma sort_siblings_members (sibs : list string) (me : string)
    (pages : dict Page.t) (p : Page.t) :
  Forall (weighted pages) sibs →
  dict_get me pages = Some p →
  ∃ r, sort_siblings sibs me pages = Ok r ∧
       r.1.1 ≡ₚ match Page.weight p with
                | Some _ => set_discard me sibs
                | None => sibs
                end ∧
       (Page.weight p = None → r.1.2 = None ∧ r.2 = None).
Proof.
  intros Hall Hp. eexists. split; [by apply sort_siblings_eval|].
  destruct (Page.weight p); simpl.
  - split; [|done]. rewrite !isort_pure_perm. simpl. apply filter_split_perm.
  - split; [|done]. apply isort_pure_perm.
Qed.

(** C9: after the sibling fix-up every page whose directory holds at least
    one weight-bearing page with an output path carries, in its [siblings],
    [lighter] and [heavier] fields, what [sort_siblings] computes for it from
    the set of those pages, and its other fields are as before; its sibling
    list holds exactly the weight-bearing pages of its directory that have an
    output path, the page itself left out.  This includes a page without
    template (empty output path), which is in the sibling list of no page
    of such a directory.  A page of a directory without such a page is left
    as it was. *)
Theorem fix_siblings_reaches_every_page (pages : dict Page.t) :
  ∃ pages', fix_siblings pages = Ok pages' ∧
    ∀ k p, dict_get k pages = Some p →
      ((∃ q, ordered pages q ∧ dirname q = dirname k) →
       ∃ p' sibs,
         dict_get k pages' = Some p'
         ∧ NoDup sibs
         ∧ (∀ s, s ∈ sibs ↔ ordered pages s ∧ dirname s = dirname k)
         ∧ sort_siblings sibs k pages
           = Ok (Page.siblings p', Page.lighter p', Page.heavier p')
         ∧ NoDup (Page.siblings p')
         ∧ (∀ s, s ∈ Page.siblings p' ↔
                 ordered pages s ∧ dirname s = dirname k ∧ s ≠ k)
         ∧ (Page.path p = "" → ∀ q p2,
              dict_get q pages' = Some p2 →
              (∃ o, ordered pages o ∧ dirname o = dirname q) →
              k ∉ Page.siblings p2)
         ∧ Page.id p' = Page.id p ∧ Page.path p' = Page.path p
         ∧ Page.dir p' = Page.dir p ∧ Page.filename p' = Page.filename p
         ∧ Page.subdirs p' = Page.subdirs p ∧ Page.content p' = Page.content p
         ∧ Page.data p' = Page.data p ∧ Page.tags p' = Page.tags p
         ∧ Page.weight p' = Page.weight p)
      ∧ ((∀ q, ordered pages q → dirname q ≠ dirname k) →
         dict_get k pages' = Some p).
Proof.
  destruct (fix_siblings_spec pages) as (sd & pages' & Hsets & Hrun & Hfixed).
  exists pages'. split; [done|].
  assert (∀ k p, dict_get k pages = Some p →
            (∃ q, ordered pages q ∧ dirname q = dirname k) →
            ∃ sibs r,
              NoDup sibs
              ∧ (∀ s, s ∈ sibs ↔ ordered pages s ∧ dirname s = dirname k)
              ∧ sort_siblings sibs k pages = Ok r
              ∧ dict_get k pages'
                = Some (Page.replace_siblings p r.1.1 r.1.2 r.2)
              ∧ r.1.1 ≡ₚ filter (λ s, s ≠ k) sibs) as Hreached.
  { intros k p Hp (q & Hq & Hqdir).
    pose proof (Hsets (dirname k)) as Hdir.
    destruct (dict_get (dirname k) sd) as [sibs|] eqn:Hsd.
    2:{ destruct (Hdir q); [|done..].
        destruct Hq as (q' & z & Hq' & _). by eapply dict_get_Some_keys. }
    destruct Hdir as (Hnd & Hne & Hiff).
    assert (Forall (weighted pages) sibs) as Hall
      by by eapply sibling_sets_weighted.
    destruct (sort_siblings_members sibs k pages p Hall Hp)
      as (r & Hr & Hperm & _).
    exists sibs, r. split_and!; [done| |done| |].
    - intros s. rewrite Hiff. split; [tauto|]. intros [Ho ?].
      split_and!; [|done..].
      destruct Ho as (q' & z & Hq' & _). by eapply dict_get_Some_keys.
    - rewrite Hfixed, Hp. simpl.
      by rewrite (fixed_Some sd pages k p sibs r).
    - destruct (Page.weight p) as [z|] eqn:Hz; [done|].
      rewrite Hperm. fold (set_discard k sibs).
      rewrite set_discard_notin; [done|].
      intros (_ & (p' & z & Hp' & Hz' & _) & _)%Hiff. congruence. }
  intros k p Hp. split.
  - intros Hsome.
    destruct (Hreached k p Hp Hsome) as (sibs & r & Hnd & Hiff & Hr & Hget & Hperm).
    exists (Page.replace_siblings p r.1.1 r.1.2 r.2), sibs.
    split_and!; try done.
    + rewrite Hr. by destruct r as [[? ?] ?].
    + simpl. rewrite Hperm. by apply NoDup_filter.
    + intros s. simpl. rewrite Hperm, list_elem_of_filter, Hiff. tauto.
    + intros Hpath q p2 Hq2 Hsome2.
      assert (is_Some (dict_get q pages)) as [p1 Hp1].
      { rewrite Hfixed in Hq2. by destruct (dict_get q pages). }
      destruct (Hreached q p1 Hp1 Hsome2)
        as (sibs2 & r2 & _ & Hiff2 & _ & Hget2 & Hperm2).
      rewrite Hget2 in Hq2. injection Hq2 as <-. simpl.
      rewrite Hperm2, list_elem_of_filter, Hiff2.
      intros (_ & (p0 & z & Hp0 & _ & Hne) & _). congruence.
  - intros Hnone. pose proof (Hsets (dirname k)) as Hdir.
    rewrite Hfixed, Hp. simpl.
    destruct (dict_get (dirname k) sd) as [sibs|] eqn:Hsd.
    + destruct Hdir as (Hnd & Hne & Hiff). destruct sibs as [|s sibs]; [done|].
      destruct (Hiff s) as [H1 _].
      destruct H1 as (_ & Ho & Hd); [apply list_elem_of_here|].
      by destruct (Hnone s Ho).
    + by rewrite fixed_None.
Qed.

(** ** Unweighted pages *)

Lemma collect_pages_fresh (parsed : list page_args) k p :
  dict_get k (collect_pages parsed) = Some p → ∃ a, p = page_of_args a.
Proof.
  unfold collect_pages.
  induction parsed as [|a parsed IH] using rev_ind; simpl; [done|].
  rewrite foldl_app. simpl. rewrite dict_get_setitem.
  case_decide; [|done]. intros [= <-]. by exists a.
Qed.

(** C5: in the pages that the builder produces, a page whose weight is the
    unweighted sentinel has no lighter and no heavier neighbor, whatever
    other pages share its directory; and [sort_siblings] called for an
    unweighted subject with a set of weighted siblings returns that whole
    set in ascending key order, with both neighbors absent. *)
Theorem unweighted_page_has_no_neighbors :
  (∀ parsed : list page_args,
     ∃ pages', build_pages parsed = Ok pages' ∧
       ∀ k p, dict_get k pages' = Some p → Page.weight p = None →
              Page.lighter p = None ∧ Page.heavier p = None)
  ∧ (∀ (siblings : list string) (me : string) (pages : dict Page.t),
       NoDup siblings → unweighted pages me →
       Forall (weighted pages) siblings →
       ∃ l, sort_siblings siblings me pages = Ok (l, None, None)
            ∧ l ≡ₚ siblings
            ∧ StronglySorted (key_lt (weight_of pages)) l).
Proof.
  split.
  - intros parsed. unfold build_pages.
    destruct (fix_siblings_spec (collect_pages parsed))
      as (sd & pages' & Hsets & Hrun & Hfixed).
    exists pages'. split; [done|]. intros k p Hp Hw.
    rewrite Hfixed in Hp.
    destruct (dict_get k (collect_pages parsed)) as [p0|] eqn:Hp0; [|done].
    simpl in Hp. injection Hp as <-.
    rewrite fixed_weight in Hw.
    destruct (collect_pages_fresh parsed k p0 Hp0) as [a ->].
    unfold fixed.
    destruct (dict_get (dirname k) sd) as [sibs|] eqn:Hsd; [|done].
    destruct (sort_siblings_members sibs k (collect_pages parsed)
                (page_of_args a)) as (r & Hr & _ & Hnone).
    { by eapply sibling_sets_weighted. }
    { done. }
    rewrite Hr. simpl. by apply Hnone.
  - intros siblings me pages Hnd (p & Hp & Hw) Hall.
    exists (isort_pure (key_ltb (weight_of pages)) [] siblings).
    split_and!.
    + rewrite (sort_siblings_eval siblings me pages p) by done.
      simpl. by rewrite Hw.
    + apply isort_pure_perm.
    + by apply isort_pure_strict.
Qed.

Lemma unweighted_page_has_no_neighbors_witness :
  NoDup example_siblings ∧
  unweighted example_pages "d/index" ∧
  Forall (weighted example_pages) example_siblings ∧
  ∃ l, sort_siblings example_siblings "d/index" example_pages
       = Ok (l, None, None)
       ∧ l ≡ₚ example_siblings
       ∧ StronglySorted (key_lt (weight_of example_pages)) l.
Proof.
  assert (NoDup example_siblings) as Hnd by by_computation.
  assert (unweighted example_pages "d/index") as Hme.
  { eexists. split; reflexivity. }
  assert (Forall (weighted example_pages) example_siblings) as Hall
    by (repeat constructor; has_weight).
  split_and!; [done..|].
  exact (proj2 unweighted_page_has_no_neighbors example_siblings "d/index"
           example_pages Hnd Hme Hall).
Defined.

Example fix_siblings_example :
  ∃ pages', fix_siblings example_pages = Ok pages' ∧
    (Page.siblings <$> dict_get "d/index" pages') = Some ["d/b"; "d/a"; "d/c"] ∧
    (Page.lighter <$> dict_get "d/index" pages') = Some None ∧
    (Page.siblings <$> dict_get "d/note" pages') = Some ["d/b"; "d/a"; "d/c"] ∧
    (Page.lighter <$> dict_get "d/note" pages') = Some (Some "d/c") ∧
    (Page.siblings <$> dict_get "d/a" pages') = Some ["d/b"; "d/c"].
Proof.
  eexists. split; [vm_compute; reflexivity|]. split_and!; vm_compute; reflexivity.
Qed.

(** ** The tag index *)

(** C6 fails on the code: the tag [t] of the example site is carried by a
    page of weight 5 and by the unweighted index page, and sorting its list
    compares the weight [None] with an integer, which raises [TypeError]. *)
Theorem process_tags_mixed_weights_raises :
  (∃ pages', fix_siblings example_pages = Ok pages'
             ∧ process_tags pages' = Raise TypeError)
  ∧ collect_tags example_pages = [("t", ["d/c"; "d/index"])]
  ∧ process_tags example_pages = Raise TypeError.
Proof.
  split_and!; [eexists; split; vm_compute; reflexivity|vm_compute; reflexivity..].
Qed.

(** ** Weight resolution *)

(** C4 as the code has it: an absent weight resolves to 0 unless the page
    identifier ends with the characters [index], in which case it resolves to
    the unweighted sentinel; the string [None] resolves to the unweighted
    sentinel; an integer resolves to itself; a float, a date, a list, a table
    or any other string is a [TypeError]. *)
Theorem process_weight_spec (toml : dict value) (page_id : string) :
  (dict_get "weight" toml = None →
   process_weight toml page_id
   = Ok (if endswith page_id "index" then None else Some 0))
  ∧ (dict_get "weight" toml = Some (VStr "None") →
     process_weight toml page_id = Ok None)
  ∧ (∀ z, dict_get "weight" toml = Some (VInt z) →
          process_weight toml page_id = Ok (Some z))
  ∧ (∀ v, dict_get "weight" toml = Some v → not_a_weight v →
          process_weight toml page_id = Raise TypeError).
Proof.
  unfold process_weight, get_default. split_and!.
  - intros ->. simpl. by destruct (endswith page_id "index").
  - intros ->. done.
  - intros z ->. done.
  - intros v -> Hv. destruct v as [| | | |s| | |]; simpl in *; try done.
    apply String.eqb_neq in Hv. by rewrite Hv.
Qed.

(** The identifier [reindex] has the last path segment [reindex], not
    [index], and no weight field: C4 promises the weight 0, the code gives
    the unweighted sentinel because the identifier ends with [index]. *)
Lemma process_weight_last_segment_counterexample :
  path_name "reindex" ≠ "index"
  ∧ process_weight [] "reindex" = Ok None
  ∧ process_weight [] "reindex" ≠ Ok (Some 0).
Proof. split_and!; [done|reflexivity|done]. Qed.

Example process_weight_examples :
  process_weight [] "blog/index" = Ok None
  ∧ process_weight [] "blog/post" = Ok (Some 0)
  ∧ process_weight [("weight", VInt 7)] "blog/index" = Ok (Some 7)
  ∧ process_weight [("weight", VStr "None")] "blog/post" = Ok None
  ∧ process_weight [("weight", VStr "heavy")] "blog/post" = Raise TypeError
  ∧ process_weight [("weight", VBool true)] "blog/post" = Ok (Some 1).
Proof. split_and!; reflexivity. Qed.

(** ** Versioned files *)

Lemma parse_digits_exn acc b s e :
  parse_digits acc b s = Raise e → e = ValueError.
Proof.
  revert acc b. induction s as [|a s IH]; intros acc b; simpl.
  - destruct b; congruence.
  - destruct (digit a); [apply IH|].
    destruct (Ascii.eqb a "_" && b); [apply IH|congruence].
Qed.

Lemma int_of_ascii_exn s e : int_of_ascii s = Raise e → e = ValueError.
Proof.
  unfold int_of_ascii. destruct (4300 <? count_digits s); [congruence|].
  destruct (rstrip_by is_c_space (lstrip_by is_c_space s)) as [|a r].
  - simpl. congruence.
  - destruct (Ascii.eqb_spec a "+") as [->|]; [apply parse_digits_exn|].
    destruct (Ascii.eqb_spec a "-") as [->|].
    + destruct (parse_digits 0 false r) eqn:E; csimpl; [done|].
      apply parse_digits_exn in E. congruence.
    + intros H. eapply (parse_digits_exn 0 false (String a r)).
      revert H. destruct a as [[] [] [] [] [] [] [] []]; try done.
Qed.

Lemma py_int_exn s e : py_int s = Raise e → e = ValueError.
Proof.
  unfold py_int. destruct (to_ascii s); [apply int_of_ascii_exn|congruence].
Qed.

Lemma with_suffix_exn p suffix e : with_suffix p suffix = Raise e → e = ValueError.
Proof. unfold with_suffix. repeat case_match; congruence. Qed.

Lemma versioned_exn path e :
  versioned path = Raise e → e = ValueError ∨ e = IndexError.
Proof.
  unfold versioned, second_last.
  destruct (reverse (path_suffixes path)) as [|? [|x ?]]; csimpl;
    [intros [= <-]; by right..|].
  destruct (py_int (drop_first x)) eqn:E1; csimpl.
  2:{ apply py_int_exn in E1. intros [= <-]. by left. }
  destruct (with_suffix path "") eqn:E2; csimpl.
  2:{ apply with_suffix_exn in E2. intros [= <-]. by left. }
  destruct (with_suffix _ (path_suffix path)) eqn:E3; csimpl; [done|].
  apply with_suffix_exn in E3. intros [= <-]. by left.
Qed.

Lemma process_versioned_eval path (m : gmap string Z) :
  process_versioned path m =
  Ok (match versioned path with
      | Ok (v, k) => if v >? default 0 (m !! k) then <[k := v]> m else m
      | Raise _ => m
      end).
Proof.
  unfold process_versioned. destruct (versioned path) as [[v k]|e] eqn:E; [done|].
  by destruct (versioned_exn path e E) as [-> | ->].
Qed.

Lemma process_versioned_lookup path (m : gmap string Z) key :
  ∃ m', process_versioned path m = Ok m' ∧
        default 0 (m' !! key)
        = match version_for key path with
          | Some v => Z.max (default 0 (m !! key)) v
          | None => default 0 (m !! key)
          end.
Proof.
  eexists. split; [apply process_versioned_eval|].
  unfold version_for. destruct (versioned path) as [[v k]|e]; [|done].
  case_decide as E.
  - subst k. destruct (Z.gtb_spec v (default 0 (m !! key))).
    + rewrite lookup_insert_eq. simpl. lia.
    + lia.
  - destruct (v >? default 0 (m !! k)); [|done].
    by rewrite lookup_insert_ne.
Qed.

Lemma walk_versioned_lookup paths (m : gmap string Z) :
  ∃ m', walk_versioned paths m = Ok m' ∧
        ∀ key, default 0 (m' !! key)
               = foldl Z.max (default 0 (m !! key)) (versions_of key paths).
Proof.
  revert m. induction paths as [|path paths IH]; intros m; csimpl.
  { by exists m. }
  rewrite process_versioned_eval. csimpl.
  destruct (IH (match versioned path with
                | Ok (v, k) => if v >? default 0 (m !! k) then <[k := v]> m else m
                | Raise _ => m
                end)) as (m' & Hrun & Hm').
  exists m'. split; [done|]. intros key. rewrite Hm'.
  destruct (process_versioned_lookup path m key) as (m1 & Hm1 & Hlook).
  rewrite process_versioned_eval in Hm1. injection Hm1 as <-.
  rewrite Hlook. unfold versions_of. simpl.
  by destruct (version_for key path).
Qed.

Lemma process_versioned_positive path (m m' : gmap string Z) :
  map_Forall (λ _ x, 0 < x) m → process_versioned path m = Ok m' →
  map_Forall (λ _ x, 0 < x) m'.
Proof.
  intros Hm. rewrite process_versioned_eval. intros [= <-].
  destruct (versioned path) as [[v k]|e]; [|done].
  destruct (Z.gtb_spec v (default 0 (m !! k))) as [Hgt|]; [|done].
  apply map_Forall_insert_2; [|done].
  destruct (m !! k) as [d|] eqn:E; simpl in Hgt; [|lia].
  apply Hm in E. lia.
Qed.

Lemma walk_versioned_positive paths (m m' : gmap string Z) :
  map_Forall (λ _ x, 0 < x) m → walk_versioned paths m = Ok m' →
  map_Forall (λ _ x, 0 < x) m'.
Proof.
  revert m. induction paths as [|path paths IH]; intros m Hm; csimpl.
  { by intros [= <-]. }
  rewrite process_versioned_eval. csimpl. apply IH.
  eapply process_versioned_positive; [done|apply process_versioned_eval].
Qed.

Lemma foldl_max_ge (l : list Z) (a : Z) : a ≤ foldl Z.max a l.
Proof.
  revert a. induction l as [|x l IH]; intros a; simpl; [lia|].
  etrans; [|apply IH]. lia.
Qed.

Lemma foldl_max_upper (l : list Z) (a u : Z) : u ∈ l → u ≤ foldl Z.max a l.
Proof.
  revert a. induction l as [|x l IH]; intros a Hu; simpl.
  - by apply elem_of_nil in Hu.
  - apply elem_of_cons in Hu as [->|Hu]; [|auto].
    etrans; [|apply foldl_max_ge]. lia.
Qed.

Lemma foldl_max_in (l : list Z) (a : Z) :
  foldl Z.max a l = a ∨ foldl Z.max a l ∈ l.
Proof.
  revert a. induction l as [|x l IH]; intros a; simpl; [by left|].
  destruct (IH (Z.max a x)) as [E|E].
  - rewrite E. destruct (Z.max_spec a x) as [[_ ->]|[_ ->]].
    + right. apply list_elem_of_here.
    + by left.
  - right. by apply list_elem_of_further.
Qed.

(** C10: in a version map whose recorded versions are not negative (every
    map built by the walk is one), a path whose version number is zero or
    negative leaves the map as it is; a version is recorded exactly when it
    is greater than 0 and greater than the version recorded so far. *)
Theorem nonpositive_version_ignored (path : string) (m : gmap string Z)
    (v : Z) (k : string) :
  map_Forall (λ _ x, 0 ≤ x) m →
  versioned path = Ok (v, k) →
  (v ≤ 0 → process_versioned path m = Ok m)
  ∧ process_versioned path m
    = Ok (if decide (0 < v ∧ default 0 (m !! k) < v) then <[k := v]> m else m).
Proof.
  intros Hm Hv. rewrite process_versioned_eval, Hv.
  assert (0 ≤ default 0 (m !! k)) as Hd.
  { destruct (m !! k) as [d|] eqn:E; simpl; [|lia]. by apply Hm in E. }
  split.
  - intros Hle. destruct (Z.gtb_spec v (default 0 (m !! k))); [lia|done].
  - destruct (Z.gtb_spec v (default 0 (m !! k))).
    + rewrite decide_True by lia. done.
    + rewrite decide_False by lia. done.
Qed.

Lemma walk_versioned_nonnegative (paths : list string) :
  ∃ m, walk_versioned paths ∅ = Ok m ∧ map_Forall (λ _ x, 0 ≤ x) m.
Proof.
  destruct (walk_versioned_lookup paths ∅) as (m & Hrun & _).
  exists m. split; [done|].
  eapply map_Forall_impl.
  - eapply walk_versioned_positive; [|done]. apply map_Forall_empty.
  - simpl. intros. lia.
Qed.

Lemma nonpositive_version_ignored_witness :
  map_Forall (λ _ x, 0 ≤ x) ({[ "a.ext" := 2 ]} : gmap string Z)
  ∧ versioned "a.0.ext" = Ok (0, "a.ext")
  ∧ (0 ≤ 0 → process_versioned "a.0.ext" {[ "a.ext" := 2 ]}
             = Ok {[ "a.ext" := 2 ]})
  ∧ process_versioned "a.0.ext" {[ "a.ext" := 2 ]}
    = Ok (if decide (0 < 0 ∧ default 0 (({[ "a.ext" := 2 ]} : gmap string Z) !! "a.ext") < 0)
          then <[ "a.ext" := 0 ]> {[ "a.ext" := 2 ]} else {[ "a.ext" := 2 ]}).
Proof.
  assert (map_Forall (λ _ x, 0 ≤ x) ({[ "a.ext" := 2 ]} : gmap string Z)) as Hm.
  { apply map_Forall_singleton. lia. }
  assert (versioned "a.0.ext" = Ok (0, "a.ext")) as Hv by reflexivity.
  split_and!; [done..| |];
    apply (nonpositive_version_ignored "a.0.ext" {[ "a.ext" := 2 ]} 0 "a.ext" Hm Hv).
Defined.

(** ** The build engine *)

Section EngineFacts.
Context (render : Task → result string).

Lemma output_task_shape now quick public task :
  output_task render now quick public task = Ok (public, [])
  ∨ output_task render now quick public task
    = output_task render now false public task.
Proof.
  unfold output_task. destruct (public !! output_path task) as [f|]; [|by right].
  destruct quick; [|by right]. simpl.
  destruct (latest_timestamp task <? mtime f); [by left|by right].
Qed.

Lemma output_task_full now public task :
  match output_task render now false public task with
  | Ok r => ∃ log, r.2 = Rendering task :: log
  | Raise e => render task = Raise e
  end.
Proof.
  unfold output_task.
  assert (match public !! output_path task with
          | Some f => false && (latest_timestamp task <? mtime f)
          | None => false
          end = false) as -> by by destruct (public !! output_path task).
  destruct (render task) as [output|e]; csimpl; [|done].
  case_bool_decide; simpl; eauto.
Qed.

Lemma output_task_log now quick public task r :
  output_task render now quick public task = Ok r →
  r = (public, [])
  ∨ r = (public, [Rendering task])
  ∨ ∃ output, render task = Ok output
      ∧ read_text <$> public !! output_path task ≠ Some output
      ∧ r = (<[output_path task := mkFile output (now task)]> public,
             [Rendering task; Wrote (output_path task)]).
Proof.
  unfold output_task.
  destruct (match public !! output_path task with
            | Some f => quick && (latest_timestamp task <? mtime f)
            | None => false
            end).
  { intros [= <-]. by left. }
  destruct (render task) as [output|e]; csimpl; [|done].
  case_bool_decide as E; intros [= <-]; [right; by left|].
  right; right. by exists output.
Qed.

Lemma output_task_frame now quick public task r p :
  output_task render now quick public task = Ok r →
  p ≠ output_path task → r.1 !! p = public !! p.
Proof.
  intros Hrun Hne.
  apply output_task_log in Hrun as [->|[->|(? & _ & _ & ->)]]; [done..|].
  simpl. by rewrite lookup_insert_ne.
Qed.

Lemma output_site_full now tasks public :
  match output_site render now false tasks public with
  | Ok r => rendered r.2 = tasks
  | Raise e => ∃ t, t ∈ tasks ∧ render t = Raise e
  end.
Proof.
  revert public. induction tasks as [|task tasks IH]; intros public; csimpl; [done|].
  pose proof (output_task_full now public task) as Hstep.
  destruct (output_task render now false public task) as [r|e] eqn:Hr; csimpl.
  - destruct Hstep as [log Hlog]. specialize (IH r.1).
    destruct (output_site render now false tasks r.1) as [r'|e]; csimpl.
    + unfold rendered in *. rewrite omap_app, IH.
      apply output_task_log in Hr as [->|[->|(? & _ & _ & ->)]]; done.
    + destruct IH as (t & Ht & Hr'). exists t. split; [|done].
      by apply list_elem_of_further.
  - exists task. split; [apply list_elem_of_here|done].
Qed.

Lemma output_site_app now quick before after public r :
  output_site render now quick (before ++ after) public = Ok r →
  ∃ r1 r2,
    output_site render now quick before public = Ok r1
    ∧ output_site render now quick after r1.1 = Ok r2
    ∧ r = (r2.1, r1.2 ++ r2.2).
Proof.
  revert public r. induction before as [|t before IH]; intros public r; csimpl.
  { intros Hrun. exists (public, []), r. by destruct r. }
  destruct (output_task render now quick public t) as [r0|]; csimpl; [|done].
  destruct (output_site render now quick (before ++ after) r0.1) as [r'|] eqn:Hr';
    csimpl; [|done].
  intros [= <-].
  destruct (IH _ _ Hr') as (r1 & r2 & -> & Hr2 & ->). csimpl.
  exists (r1.1, r0.2 ++ r1.2), r2. split_and!; [done..|].
  simpl. by rewrite app_assoc.
Qed.

End EngineFacts.

(** C2: in quick mode a task is skipped (nothing is rendered or written)
    exactly when its output file exists and is strictly newer than the
    latest relevant timestamp of the task, and is otherwise handled as in
    full mode.  For a run in quick mode: a task of the library is skipped when
    its output file is newer at the moment the loop reaches it, and rendered
    otherwise; when no two tasks share an output path the tasks rendered are,
    in order, the tasks whose output file was not newer when the run began.
    In full mode no step returns without calling the renderer, and a run that
    returns has rendered all the tasks, in order. *)
Theorem quick_mode_skips_iff_newer (render : Task → result string)
    (now : Task → Z) (public : gmap string file) (task : Task) :
  (output_task render now true public task = Ok (public, [])
   ↔ newer public task)
  ∧ (¬ newer public task →
     output_task render now true public task
     = output_task render now false public task)
  ∧ (∀ r, output_task render now false public task = Ok r →
          ∃ log, r.2 = Rendering task :: log)
  ∧ (∀ before after r,
       output_site render now true (before ++ task :: after) public = Ok r →
       ∃ r1 r2 r3,
         output_site render now true before public = Ok r1
         ∧ output_task render now true r1.1 task = Ok r2
         ∧ output_site render now true after r2.1 = Ok r3
         ∧ r = (r3.1, r1.2 ++ r2.2 ++ r3.2)
         ∧ (newer r1.1 task → r2 = (r1.1, []))
         ∧ (¬ newer r1.1 task → ∃ log, r2.2 = Rendering task :: log))
  ∧ (∀ tasks r,
       NoDup (output_path <$> tasks) →
       output_site render now true tasks public = Ok r →
       rendered r.2 = filter (λ t, ¬ newer public t) tasks)
  ∧ (∀ tasks r,
       output_site render now false tasks public = Ok r →
       rendered r.2 = tasks).
Proof.
  assert (∀ public task,
            newer public task →
            output_task render now true public task = Ok (public, []))
    as Hskip.
  { intros pub t (f & Hf & Hlt). unfold output_task. rewrite Hf. simpl.
    apply Z.ltb_lt in Hlt. by rewrite Hlt. }
  assert (∀ public task,
            ¬ newer public task →
            output_task render now true public task
            = output_task render now false public task) as Hfull.
  { intros pub t Hno. unfold output_task.
    destruct (pub !! output_path t) as [f|] eqn:Hf; [|done]. simpl.
    destruct (Z.ltb_spec (latest_timestamp t) (mtime f)); [|done].
    destruct Hno. by exists f. }
  assert (∀ public task r,
            output_task render now false public task = Ok r →
            ∃ log, r.2 = Rendering task :: log) as Hstep.
  { intros pub t r Hr. pose proof (output_task_full render now pub t) as H.
    by rewrite Hr in H. }
  split_and!.
  - split; [|apply Hskip]. intros Hrun.
    destruct (decide (newer public task)) as [Hyes|Hno]; [done|].
    rewrite Hfull in Hrun by done.
    by destruct (Hstep _ _ _ Hrun) as [log [=]].
  - apply Hfull.
  - apply Hstep.
  - intros before after r Hrun.
    apply output_site_app in Hrun as (r1 & r' & Hr1 & Hr' & ->).
    csimpl in Hr'.
    destruct (output_task render now true r1.1 task) as [r2|] eqn:Hr2;
      csimpl in Hr'; [|done].
    destruct (output_site render now true after r2.1) as [r3|] eqn:Hr3;
      csimpl in Hr'; [|done].
    injection Hr' as <-. simpl.
    exists r1, r2, r3. split_and!; [done..| |].
    + intros Hyes. rewrite (Hskip _ _ Hyes) in Hr2. congruence.
    + intros Hno. rewrite (Hfull _ _ Hno) in Hr2. by eapply Hstep.
  - intros tasks. revert public.
    induction tasks as [|t tasks IH]; intros pub r Hnd Hrun; csimpl in Hrun.
    { by injection Hrun as <-. }
    apply NoDup_cons in Hnd as [Hnotin Hnd].
    destruct (output_task render now true pub t) as [r1|] eqn:Hr1;
      csimpl in Hrun; [|done].
    destruct (output_site render now true tasks r1.1) as [r2|] eqn:Hr2;
      csimpl in Hrun; [|done].
    injection Hrun as <-. simpl.
    unfold rendered in *. rewrite omap_app, (IH _ _ Hnd Hr2).
    assert (filter (λ t, ¬ newer r1.1 t) tasks
            = filter (λ t, ¬ newer pub t) tasks) as ->.
    { apply filter_ext_in. intros u Hu.
      assert (r1.1 !! output_path u = pub !! output_path u) as Hsame.
      { eapply output_task_frame; [done|]. intros Heq. apply Hnotin.
        rewrite <- Heq. by apply list_elem_of_fmap_2. }
      unfold newer. by rewrite Hsame. }
    rewrite filter_cons.
    destruct (decide (newer pub t)) as [Hyes|Hno].
    + rewrite (Hskip _ _ Hyes) in Hr1. injection Hr1 as <-.
      by rewrite decide_False by tauto.
    + rewrite decide_True by done.
      rewrite (Hfull _ _ Hno) in Hr1.
      apply output_task_log in Hr1 as Hcases.
      destruct (Hstep _ _ _ Hr1) as [log Hlog].
      destruct Hcases as [->|[->|(? & _ & _ & ->)]]; done.
  - intros tasks r Hrun.
    pose proof (output_site_full render now tasks public) as H.
    by rewrite Hrun in H.
Qed.

(** *** A second run *)

Section SecondRun.
Context (render : Task → result string).
Hypothesis render_reads_back :
  ∀ t s, render t = Ok s → universal_newlines s = s.

(** A step looks at the output directory only through the file of its
    task. *)
Lemma output_task_local now quick public public' task log :
  public' !! output_path task = public !! output_path task →
  output_task render now quick public task = Ok (public, log) →
  writes log = [] →
  output_task render now quick public' task = Ok (public', log).
Proof.
  intros Hsame Hrun Hw.
  apply output_task_log in Hrun as Hcases. revert Hrun.
  unfold output_task. rewrite Hsame.
  destruct (match public !! output_path task with
            | Some f => quick && (latest_timestamp task <? mtime f)
            | None => false
            end).
  { by intros [= <-]. }
  destruct (render task) as [output|e]; csimpl; [|done].
  case_bool_decide as E; [by intros [= <-]|].
  intros [= _ <-]. done.
Qed.

(** After a step, the same step again changes nothing. *)
Lemma output_task_settles now1 now2 quick public task r :
  output_task render now1 quick public task = Ok r →
  ∃ log, output_task render now2 quick r.1 task = Ok (r.1, log)
         ∧ writes log = [].
Proof.
  intros Hrun. pose proof Hrun as Hcases.
  apply output_task_log in Hcases as [->|[->|(output & Hout & Hdiff & ->)]].
  - exists []. split; [|done]. revert Hrun. unfold output_task. simpl.
    destruct (match public !! output_path task with
              | Some f => quick && (latest_timestamp task <? mtime f)
              | None => false
              end); [done|].
    destruct (render task); csimpl; [|done]. by case_bool_decide.
  - exists [Rendering task]. split; [|done]. revert Hrun. unfold output_task.
    simpl.
    destruct (match public !! output_path task with
              | Some f => quick && (latest_timestamp task <? mtime f)
              | None => false
              end); [done|].
    destruct (render task); csimpl; [|done]. by case_bool_decide.
  - simpl. unfold output_task. rewrite lookup_insert_eq. simpl.
    destruct (quick && (latest_timestamp task <? now1 task)).
    + by exists [].
    + rewrite Hout. csimpl. unfold read_text. simpl.
      rewrite (render_reads_back task output Hout).
      rewrite bool_decide_true by done. by exists [Rendering task].
Qed.

Lemma output_site_frame now quick tasks public r p :
  output_site render now quick tasks public = Ok r →
  p ∉ output_path <$> tasks → r.1 !! p = public !! p.
Proof.
  revert public r. induction tasks as [|task tasks IH]; intros public r; csimpl.
  { by intros [= <-]. }
  intros Hrun Hp. apply not_elem_of_cons in Hp as [Hne Hp].
  destruct (output_task render now quick public task) as [r1|] eqn:H1;
    csimpl in *; [|done].
  destruct (output_site render now quick tasks r1.1) as [r2|] eqn:H2;
    csimpl in *; [|done].
  injection Hrun as <-. simpl.
  rewrite (IH _ _ H2 Hp). by eapply output_task_frame.
Qed.

Lemma output_site_settles now1 now2 quick tasks public r :
  NoDup (output_path <$> tasks) →
  output_site render now1 quick tasks public = Ok r →
  ∀ task, task ∈ tasks →
    ∃ log, output_task render now2 quick r.1 task = Ok (r.1, log)
           ∧ writes log = [].
Proof.
  revert public r. induction tasks as [|t tasks IH]; intros public r Hnd; csimpl.
  { intros _ task Ht. by apply elem_of_nil in Ht. }
  apply NoDup_cons in Hnd as [Hnotin Hnd].
  destruct (output_task render now1 quick public t) as [r1|] eqn:H1;
    csimpl; [|done].
  destruct (output_site render now1 quick tasks r1.1) as [r2|] eqn:H2;
    csimpl; [|done].
  intros [= <-] task Htask. simpl.
  apply elem_of_cons in Htask as [->|Htask].
  - destruct (output_task_settles now1 now2 quick public t r1 H1)
      as (log & Hlog & Hw).
    exists log. split; [|done].
    eapply output_task_local; [|done..].
    by eapply output_site_frame.
  - by eapply IH.
Qed.

Lemma output_site_idle now quick tasks public :
  (∀ task, task ∈ tasks →
     ∃ log, output_task render now quick public task = Ok (public, log)
            ∧ writes log = []) →
  ∃ log, output_site render now quick tasks public = Ok (public, log)
         ∧ writes log = [].
Proof.
  induction tasks as [|t tasks IH]; intros Hall; csimpl.
  { by exists []. }
  destruct (Hall t) as (log1 & H1 & Hw1); [apply list_elem_of_here|].
  destruct IH as (log2 & H2 & Hw2).
  { intros task Ht. apply Hall. by apply list_elem_of_further. }
  rewrite H1. csimpl. rewrite H2. csimpl.
  exists (log1 ++ log2). split; [done|].
  unfold writes in *. by rewrite omap_app, Hw1, Hw2.
Qed.

End SecondRun.

(** C8 as the code has it: a step writes the output file only when the
    rendered text differs from the text read from the existing file (or no
    file exists), and leaves the output directory alone otherwise; and when
    no two tasks share an output path and every rendered text reads back as
    written (it holds no carriage return), a second run in the same mode
    after a run that ended writes no file and leaves every output file with
    its text and modification time. *)
Theorem second_run_writes_nothing (render : Task → result string)
    (now1 now2 : Task → Z) (quick : bool) (tasks : list Task)
    (public0 public1 : gmap string file) (log1 : list event) :
  NoDup (output_path <$> tasks) →
  (∀ t s, render t = Ok s → universal_newlines s = s) →
  output_site render now1 quick tasks public0 = Ok (public1, log1) →
  (∃ log2, output_site render now2 quick tasks public1 = Ok (public1, log2)
           ∧ writes log2 = [])
  ∧ ∀ public task r,
      output_task render now1 quick public task = Ok r →
      (writes r.2 = [] ∧ r.1 = public)
      ∨ ∃ output, render task = Ok output
          ∧ read_text <$> public !! output_path task ≠ Some output
          ∧ writes r.2 = [output_path task]
          ∧ r.1 = <[output_path task := mkFile output (now1 task)]> public.
Proof.
  intros Hnd Hback Hrun. split.
  - apply output_site_idle. intros task Htask.
    by eapply (output_site_settles render Hback now1 now2 quick tasks public0
                 (public1, log1)).
  - intros public task r Hr.
    apply output_task_log in Hr as [->|[->|(output & Hout & Hdiff & ->)]];
      [by left..|].
    right. by exists output.
Qed.

Lemma second_run_writes_nothing_witness :
  NoDup (output_path <$> [post_task])
  ∧ (∀ t s, post_render t = Ok s → universal_newlines s = s)
  ∧ output_site post_render (λ _, 10) true [post_task] ∅
    = Ok ({[ "post.html" := mkFile "hello" 10 ]},
          [Rendering post_task; Wrote "post.html"])
  ∧ ∃ log2,
      output_site post_render (λ _, 20) true [post_task]
        {[ "post.html" := mkFile "hello" 10 ]}
      = Ok ({[ "post.html" := mkFile "hello" 10 ]}, log2)
      ∧ writes log2 = [].
Proof.
  assert (NoDup (output_path <$> [post_task])) as Hnd.
  { apply NoDup_singleton. }
  assert (∀ t s, post_render t = Ok s → universal_newlines s = s) as Hback.
  { intros t s [= <-]. reflexivity. }
  assert (output_site post_render (λ _, 10) true [post_task] ∅
          = Ok ({[ "post.html" := mkFile "hello" 10 ]},
                [Rendering post_task; Wrote "post.html"])) as Hrun.
  { reflexivity. }
  split_and!; [done..|].
  exact (proj1 (second_run_writes_nothing post_render (λ _, 10) (λ _, 20) true
                  [post_task] ∅ _ _ Hnd Hback Hrun)).
Defined.

(** The pages [a] and [a.b] both render to [a.html].  In full mode the
    first run leaves the text of the second task in the file, and the second
    run, with no source changed, writes the file twice: C8 fails as stated.
    The same happens in quick mode when the output file is not newer than
    the sources (here the sources are dated after both runs). *)
Lemma second_run_writes_counterexample :
  with_suffix "a" ".html" = Ok "a.html"
  ∧ with_suffix "a.b" ".html" = Ok "a.html"
  ∧ (∃ public1 log1 public2 log2,
       output_site clash_render (λ _, 10) false clash_tasks ∅
       = Ok (public1, log1)
       ∧ output_site clash_render (λ _, 20) false clash_tasks public1
         = Ok (public2, log2)
       ∧ writes log2 = ["a.html"; "a.html"]
       ∧ mtime <$> public1 !! "a.html" = Some 10
       ∧ mtime <$> public2 !! "a.html" = Some 20)
  ∧ (∃ public1 log1 public2 log2,
       output_site clash_render (λ _, 10) true clash_tasks_late ∅
       = Ok (public1, log1)
       ∧ output_site clash_render (λ _, 20) true clash_tasks_late public1
         = Ok (public2, log2)
       ∧ writes log2 = ["a.html"; "a.html"]).
Proof.
  split_and!; [reflexivity..| |].
  - let r1 := eval vm_compute in
      (output_site clash_render (λ _, 10) false clash_tasks ∅) in
    lazymatch r1 with
    | Ok (?p1, ?l1) =>
        let r2 := eval vm_compute in
          (output_site clash_render (λ _, 20) false clash_tasks p1) in
        lazymatch r2 with
        | Ok (?p2, ?l2) => exists p1, l1, p2, l2
        end
    end.
    split_and!; vm_compute; reflexivity.
  - let r1 := eval vm_compute in
      (output_site clash_render (λ _, 10) true clash_tasks_late ∅) in
    lazymatch r1 with
    | Ok (?p1, ?l1) =>
        let r2 := eval vm_compute in
          (output_site clash_render (λ _, 20) true clash_tasks_late p1) in
        lazymatch r2 with
        | Ok (?p2, ?l2) => exists p1, l1, p2, l2
        end
    end.
    split_and!; vm_compute; reflexivity.
Qed.

(** ** File names of the form [<stem>.<N>.<ext>] *)

Lemma str_app_cons a (s t : string) : String a s +:+ t = String a (s +:+ t).
Proof. reflexivity. Qed.

Lemma str_app_nil_l (t : string) : "" +:+ t = t.
Proof. reflexivity. Qed.

Lemma str_app_assoc (s t u : string) : (s +:+ t) +:+ u = s +:+ t +:+ u.
Proof.
  induction s as [|a s IH]; [done|]. by rewrite !str_app_cons, IH.
Qed.

Lemma str_app_nil_r (s : string) : s +:+ "" = s.
Proof. induction s as [|a s IH]; [done|]. by rewrite str_app_cons, IH. Qed.

Lemma str_app_nonempty_r (s t : string) : t ≠ "" → s +:+ t ≠ "".
Proof. destruct s; [done|]. by rewrite str_app_cons. Qed.

Lemma contains_char_app c s t :
  contains_char c (s +:+ t) = contains_char c s || contains_char c t.
Proof.
  induction s as [|a s IH]; [done|]. rewrite str_app_cons. simpl.
  rewrite IH. by rewrite orb_assoc.
Qed.

Lemma rfind_split_None c s : contains_char c s = false → rfind_split c s = None.
Proof.
  induction s as [|a s IH]; [done|]. simpl.
  intros [Ha Hs]%orb_false_iff. rewrite IH by done. by rewrite Ha.
Qed.

Lemma rfind_split_sep c s t :
  contains_char c t = false → rfind_split c (s +:+ String c t) = Some (s, t).
Proof.
  intros Ht. induction s as [|a s IH].
  - rewrite str_app_nil_l. simpl.
    rewrite rfind_split_None by done. by rewrite Ascii.eqb_refl.
  - rewrite str_app_cons. simpl. by rewrite IH.
Qed.

Lemma split_char_nonempty c s : split_char c s ≠ [].
Proof.
  destruct s as [|a s]; simpl; [done|].
  destruct (Ascii.eqb a c); [done|]. by destruct (split_char c s).
Qed.

Lemma split_char_whole c s : contains_char c s = false → split_char c s = [s].
Proof.
  induction s as [|a s IH]; [done|]. simpl.
  intros [Ha Hs]%orb_false_iff. rewrite Ha, IH by done. done.
Qed.

Lemma split_char_sep c s t :
  split_char c (s +:+ String c t) = split_char c s ++ split_char c t.
Proof.
  induction s as [|a s IH].
  - rewrite str_app_nil_l. simpl. by rewrite Ascii.eqb_refl.
  - rewrite str_app_cons. simpl. destruct (Ascii.eqb a c); [by rewrite IH|].
    rewrite IH. pose proof (split_char_nonempty c s).
    by destruct (split_char c s).
Qed.

Lemma lstrip_char_app c s t :
  lstrip_char c s ≠ "" → lstrip_char c (s +:+ t) = lstrip_char c s +:+ t.
Proof.
  induction s as [|a s IH]; [done|]. rewrite str_app_cons. simpl.
  destruct (Ascii.eqb a c); [exact IH|done].
Qed.

Lemma endswith_app_r s t c :
  t ≠ "" → endswith (s +:+ t) (String c "") = endswith t (String c "").
Proof.
  intros Ht. induction s as [|a s IH]; [done|]. rewrite str_app_cons. simpl.
  rewrite IH.
  replace (String.eqb (s +:+ t) "") with false; [by destruct (Ascii.eqb a c)|].
  symmetry. apply String.eqb_neq. by apply str_app_nonempty_r.
Qed.

Lemma endswith_char_notin c s :
  contains_char c s = false → endswith s (String c "") = false.
Proof.
  induction s as [|a s IH]; [done|]. simpl.
  intros [Ha Hs]%orb_false_iff. rewrite IH by done.
  rewrite Ha. done.
Qed.

Lemma second_last_app {A} (l : list A) (a b : A) :
  second_last (l ++ [a; b]) = Ok a.
Proof. unfold second_last. by rewrite reverse_app. Qed.

Lemma path_split (prefix name : string) :
  prefix = "" ∨ (∃ d, prefix = d +:+ "/") →
  contains_char "/" name = false →
  path_name (prefix +:+ name) = name
  ∧ path_before_name (prefix +:+ name) = prefix.
Proof.
  unfold path_name, path_before_name. intros [->|[d ->]] Hname.
  - rewrite str_app_nil_l. by rewrite rfind_split_None.
  - rewrite str_app_assoc. change ("/" +:+ name) with (String "/" name).
    by rewrite rfind_split_sep.
Qed.

Lemma py_int_nonempty n v : py_int n = Ok v → n ≠ "".
Proof. by intros H ->. Qed.

(** A file named [<stem>.<N>.<ext>], in any directory, is a versioned file
    with version [int(N)] and unversioned form [<stem>.<ext>]. *)
Lemma versioned_shape (prefix stem n ext : string) (v : Z) :
  prefix = "" ∨ (∃ d, prefix = d +:+ "/") →
  contains_char "/" stem = false → lstrip_char "." stem ≠ "" →
  contains_char "/" n = false → contains_char "." n = false →
  py_int n = Ok v →
  contains_char "/" ext = false → contains_char "." ext = false → ext ≠ "" →
  versioned (prefix +:+ stem +:+ "." +:+ n +:+ "." +:+ ext)
  = Ok (v, prefix +:+ stem +:+ "." +:+ ext).
Proof.
  intros Hprefix Hstem1 Hstem2 Hn1 Hn2 Hint Hext1 Hext2 Hext3.
  assert (n ≠ "") as Hn3 by by eapply py_int_nonempty.
  assert (stem ≠ "") as Hstem3 by by intros ->.
  change ("." +:+ n +:+ "." +:+ ext) with (String "." (n +:+ String "." ext)).
  change ("." +:+ ext) with (String "." ext).
  set (name := stem +:+ String "." (n +:+ String "." ext)).
  assert (contains_char "/" name = false) as Hname.
  { unfold name. rewrite contains_char_app. simpl. rewrite contains_char_app.
    simpl. by rewrite Hstem1, Hn1, Hext1. }
  destruct (path_split prefix name Hprefix Hname) as [Hpn Hpb].
  assert (name = (stem +:+ String "." n) +:+ String "." ext) as Hname2.
  { unfold name. by rewrite str_app_assoc, str_app_cons. }
  assert (rfind_split "." name = Some (stem +:+ String "." n, ext)) as Hrf.
  { rewrite Hname2. by apply rfind_split_sep. }
  assert (path_suffixes (prefix +:+ name)
          = ((λ x, String "." x) <$> tail (split_char "." (lstrip_char "." stem)))
              ++ [String "." n; String "." ext]) as Hsufs.
  { unfold path_suffixes. rewrite Hpn.
    assert (endswith name "." = false) as ->.
    { rewrite Hname2. rewrite endswith_app_r by done.
      change (endswith (String "." ext) ".")
        with (String.eqb (String "." ext) "." || endswith ext ".").
      rewrite (endswith_char_notin "." ext Hext2).
      by destruct ext. }
    unfold name. rewrite lstrip_char_app by done.
    rewrite split_char_sep, split_char_sep.
    rewrite (split_char_whole "." n), (split_char_whole "." ext) by done.
    pose proof (split_char_nonempty "." (lstrip_char "." stem)) as Hne.
    destruct (split_char "." (lstrip_char "." stem)) as [|x l]; [done|].
    simpl. by rewrite fmap_app. }
  assert (path_stem (prefix +:+ name) = stem +:+ String "." n) as Hstem.
  { unfold path_stem. rewrite Hpn, Hrf.
    destruct stem as [|a stem]; [done|]. rewrite str_app_cons.
    by destruct ext. }
  assert (path_suffix (prefix +:+ name) = String "." ext) as Hsuf.
  { unfold path_suffix. rewrite Hpn, Hrf.
    destruct stem as [|a stem]; [done|]. rewrite str_app_cons.
    by destruct ext. }
  unfold versioned. rewrite Hsufs, second_last_app. csimpl.
  rewrite Hint. csimpl.
  assert (with_suffix (prefix +:+ name) ""
          = Ok (prefix +:+ stem +:+ String "." n)) as ->.
  { unfold with_suffix. simpl. rewrite Hpn, Hpb, Hstem.
    assert (String.eqb name "" = false) as ->.
    { apply String.eqb_neq. unfold name. by apply str_app_nonempty_r. }
    by rewrite str_app_nil_r. }
  csimpl. rewrite Hsuf.
  assert (contains_char "/" (stem +:+ String "." n) = false) as Hname'.
  { rewrite contains_char_app. simpl. by rewrite Hstem1, Hn1. }
  destruct (path_split prefix (stem +:+ String "." n) Hprefix Hname')
    as [Hpn' Hpb'].
  unfold with_suffix. simpl. rewrite Hext1, Hpn', Hpb'.
  assert (String.prefix "" ext = true) as -> by by destruct ext.
  assert (String.eqb ext "" = false) as -> by by apply String.eqb_neq.
  assert (String.eqb (stem +:+ String "." n) "" = false) as ->.
  { apply String.eqb_neq. by apply str_app_nonempty_r. }
  csimpl.
  unfold path_stem. rewrite Hpn', (rfind_split_sep "." stem n Hn2).
  destruct stem as [|a stem]; [done|]. by destruct n.
Qed.

(** [int] reads the decimal digits of any script and skips the white space
    of Unicode around them; other digits, such as the superscript two, are
    refused. *)
Example py_int_examples :
  py_int " 12 " = Ok 12
  ∧ py_int "-1_000" = Ok (-1000)
  ∧ py_int "٣" = Ok 3
  ∧ py_int "１２" = Ok 12
  ∧ py_int (utf8_encode 0xA0 +:+ "5") = Ok 5
  ∧ py_int "²" = Raise ValueError
  ∧ py_int "1__0" = Raise ValueError
  ∧ py_int "" = Raise ValueError
  ∧ versioned "a.٣.ext" = Ok (3, "a.ext").
Proof. split_and!; reflexivity. Qed.

Example strip_examples :
  strip (String nl " one two" +:+ String tab (String nl "")) = "one two"
  ∧ strip (utf8_encode 0xA0 +:+ "x" +:+ utf8_encode 0x2003) = "x"
  ∧ strip "é" = "é".
Proof. split_and!; reflexivity. Qed.

Example versioned_shape_example :
  versioned "css/site.min.12.css" = Ok (12, "css/site.min.css")
  ∧ versioned "css/site.css" = Raise IndexError
  ∧ versioned "css/site.min.css" = Raise ValueError
  ∧ versioned "a.0.ext" = Ok (0, "a.ext")
  ∧ versioned "a.-4.ext" = Ok (-4, "a.ext").
Proof. split_and!; reflexivity. Qed.

(** C7 as the code has it: a file named [<stem>.<N>.<ext>] counts as
    version [int(N)] of [<stem>.<ext>]; after any walk the version map binds
    an unversioned form to the maximum version seen for it when that maximum
    is greater than 0, and leaves it unbound otherwise
    ([max_version.get(key, 0)] is the maximum of 0 and the versions seen);
    the files [a.1.ext], [a.2.ext] and [a.3.ext] bind [a.ext] to 3. *)
Theorem walk_versioned_max (paths : list string) (key : string) :
  (∀ prefix stem n ext v,
     prefix = "" ∨ (∃ d, prefix = d +:+ "/") →
     contains_char "/" stem = false → lstrip_char "." stem ≠ "" →
     contains_char "/" n = false → contains_char "." n = false →
     py_int n = Ok v →
     contains_char "/" ext = false → contains_char "." ext = false →
     ext ≠ "" →
     version_for (prefix +:+ stem +:+ "." +:+ ext)
       (prefix +:+ stem +:+ "." +:+ n +:+ "." +:+ ext) = Some v)
  ∧ (∃ m, walk_versioned paths ∅ = Ok m
          ∧ default 0 (m !! key) = foldl Z.max 0 (versions_of key paths)
          ∧ ∀ v, m !! key = Some v ↔
                 0 < v ∧ v ∈ versions_of key paths
                 ∧ ∀ u, u ∈ versions_of key paths → u ≤ v)
  ∧ versions_of "a.ext" ["a.1.ext"; "a.2.ext"; "a.3.ext"] = [1; 2; 3]
  ∧ ∃ m, walk_versioned ["a.1.ext"; "a.2.ext"; "a.3.ext"] ∅ = Ok m
         ∧ m !! "a.ext" = Some 3.
Proof.
  split_and!; [| |reflexivity|].
  - intros prefix stem n ext v H1 H2 H3 H4 H5 H6 H7 H8 H9.
    unfold version_for.
    rewrite (versioned_shape prefix stem n ext v) by done.
    by rewrite decide_True.
  - destruct (walk_versioned_lookup paths ∅) as (m & Hrun & Hlook).
    exists m. specialize (Hlook key). rewrite lookup_empty in Hlook.
    simpl in Hlook. split_and!; [done..|].
    assert (map_Forall (λ _ x, 0 < x) m) as Hpos.
    { eapply walk_versioned_positive; [|done]. apply map_Forall_empty. }
    intros v. split.
    + intros Hv. rewrite Hv in Hlook. simpl in Hlook.
      apply Hpos in Hv. split_and!; [done| |].
      * destruct (foldl_max_in (versions_of key paths) 0) as [E|E];
          rewrite <- Hlook in E; [lia|done].
      * intros u Hu. rewrite Hlook. by apply foldl_max_upper.
    + intros (Hpos' & Hin & Hmax).
      assert (foldl Z.max 0 (versions_of key paths) = v) as E.
      { apply Z.le_antisymm; [|by apply foldl_max_upper].
        destruct (foldl_max_in (versions_of key paths) 0) as [E|E];
          [rewrite E; lia|auto]. }
      rewrite E in Hlook. destruct (m !! key) as [d|]; simpl in Hlook; [|lia].
      by subst.
  - eexists. split; [reflexivity|]. vm_compute. reflexivity.
Qed.

(** The only file seen for [a.ext] is [a.0.ext]: the maximum version seen
    is 0, and the map has no entry for [a.ext], where C7 promises the
    entry 0. *)
Lemma walk_versioned_zero_counterexample :
  versioned "a.0.ext" = Ok (0, "a.ext")
  ∧ versions_of "a.ext" ["a.0.ext"] = [0]
  ∧ ∃ m, walk_versioned ["a.0.ext"] ∅ = Ok m
         ∧ m !! "a.ext" = None
         ∧ m !! "a.ext" ≠ Some 0.
Proof.
  split_and!; [reflexivity..|].
  exists ∅. split_and!; [vm_compute; reflexivity|done|done].
Qed.

Lemma walk_versioned_max_witness :
  version_for "css/site.css" "css/site.12.css" = Some 12.
Proof.
  apply (proj1 (walk_versioned_max [] "") "css/" "site" "12" "css" 12);
    first [ right; by exists "css" | done | reflexivity ].
Defined.

(** ** Sharded text

    A sharded file is written as a TOML document and handed to
    [tomllib.loads] (lines 163 to 176 of [process_content]); the properties
    follow the text through both steps. *)

(** *** Texts *)

Lemma str_length_app (s t : string) :
  String.length (s +:+ t) = (String.length s + String.length t)%nat.
Proof. induction s as [|a s IH]; simpl; [done|]. by rewrite IH. Qed.

Lemma str_app_inv_head (s t u : string) : s +:+ t = s +:+ u → t = u.
Proof. induction s as [|a s IH]; simpl; [done|]. intros [= H]. auto. Qed.

Lemma all_chars_app p s t :
  all_chars p (s +:+ t) = all_chars p s && all_chars p t.
Proof.
  induction s as [|a s IH]; simpl; [done|]. by rewrite IH, andb_assoc.
Qed.

Lemma contains_char_all c s :
  contains_char c s = false ↔ all_chars (λ a, negb (Ascii.eqb a c)) s = true.
Proof.
  induction s as [|a s IH]; simpl; [done|].
  rewrite orb_false_iff, andb_true_iff, negb_true_iff. by rewrite IH.
Qed.

(** *** White space *)

Lemma white_space_facts w :
  w ∈ white_space →
  w ≠ ""
  ∧ contains_char dq w = false
  ∧ contains_char backslash w = false
  ∧ rstrip w = ""
  ∧ ∀ x, lstrip (w +:+ x) = lstrip x.
Proof.
  revert w. apply Forall_forall. unfold white_space.
  repeat (apply Forall_cons; split;
          [split_and!; [done|reflexivity|reflexivity|reflexivity|]; intros x;
           reflexivity|]).
  apply Forall_nil_2.
Qed.

Lemma white_space_length w :
  w ∈ white_space →
  (∃ a, w = String a "")
  ∨ (∃ a b, w = String a (String b ""))
  ∨ (∃ a b c, w = String a (String b (String c ""))).
Proof.
  revert w. apply Forall_forall. unfold white_space.
  repeat (apply Forall_cons; split; [eauto 10|]).
  apply Forall_nil_2.
Qed.

Lemma one_space_spec w : one_space w = true ↔ w ∈ white_space.
Proof. unfold one_space. by rewrite bool_decide_eq_true. Qed.

Lemma lstrip_fixed x : ¬ blank_prefix x → lstrip x = x.
Proof.
  intros Hno.
  assert (∀ w r, x = w +:+ r → one_space w = false) as Hw.
  { intros w r ->. destruct (one_space w) eqn:E; [|done].
    destruct Hno. exists w, r. by rewrite <- one_space_spec. }
  destruct x as [|a [|b [|c x]]]; simpl; [done|..].
  - by rewrite (Hw (String a "") "").
  - rewrite (Hw (String a "") (String b "")) by done.
    by rewrite (Hw (String a (String b "")) "").
  - rewrite (Hw (String a "") (String b (String c x))) by done.
    rewrite (Hw (String a (String b "")) (String c x)) by done.
    by rewrite (Hw (String a (String b (String c ""))) x).
Qed.

Lemma blank_prefix_dec x : blank_prefix x ∨ ¬ blank_prefix x.
Proof.
  assert (∀ w r, x = w +:+ r → one_space w = true → blank_prefix x) as Hyes.
  { intros w r -> Hw. exists w, r. by rewrite <- one_space_spec. }
  destruct x as [|a x].
  { right. intros (w & r & Hw & Heq).
    destruct (white_space_facts w Hw) as (Hne & _). by destruct w. }
  destruct (one_space (String a "")) eqn:E1;
    [left; by apply (Hyes (String a "") x)|].
  destruct x as [|b x].
  { right. intros (w & r & Hw & Heq).
    destruct (white_space_length w Hw) as [(?&->)|[(?&?&->)|(?&?&?&->)]];
      cbv [String.append] in Heq; simplify_eq;
      apply one_space_spec in Hw; congruence. }
  destruct (one_space (String a (String b ""))) eqn:E2;
    [left; by apply (Hyes (String a (String b "")) x)|].
  destruct x as [|c x].
  { right. intros (w & r & Hw & Heq).
    destruct (white_space_length w Hw) as [(?&->)|[(?&?&->)|(?&?&?&->)]];
      cbv [String.append] in Heq; simplify_eq;
      apply one_space_spec in Hw; congruence. }
  destruct (one_space (String a (String b (String c "")))) eqn:E3;
    [left; by apply (Hyes (String a (String b (String c ""))) x)|].
  right. intros (w & r & Hw & Heq).
  destruct (white_space_length w Hw) as [(?&->)|[(?&?&->)|(?&?&?&->)]];
    cbv [String.append] in Heq; simplify_eq;
      apply one_space_spec in Hw; congruence.
Qed.

Lemma lstrip_blank s x : blank s → lstrip (s +:+ x) = lstrip x.
Proof.
  induction 1 as [|w s Hw _ IH]; [done|].
  rewrite str_app_assoc.
  destruct (white_space_facts w Hw) as (_ & _ & _ & _ & ->). done.
Qed.

Lemma lstrip_spec s :
  ∃ l, blank l ∧ s = l +:+ lstrip s ∧ ¬ blank_prefix (lstrip s).
Proof.
  remember (String.length s) as n eqn:Hn.
  revert s Hn. induction (lt_wf n) as [n _ IH]. intros s ->.
  destruct (blank_prefix_dec s) as [(w & r & Hw & ->)|Hno].
  - destruct (IH (String.length r)) with (s := r) as (l & Hl & Hr & Hno);
      [|done|].
    { rewrite str_length_app.
      destruct (white_space_facts w Hw) as (Hne & _). destruct w; [done|].
      simpl. lia. }
    destruct (white_space_facts w Hw) as (_ & _ & _ & _ & Hstrip).
    exists (w +:+ l). rewrite Hstrip. split_and!; [|by rewrite str_app_assoc, <- Hr|done].
    by constructor.
  - exists "". rewrite lstrip_fixed by done. split_and!; [constructor|done..].
Qed.

Lemma rstrip_app x y : rstrip y = "" → rstrip (x +:+ y) = rstrip x.
Proof. intros Hy. induction x as [|a x IH]; simpl; [done|]. by rewrite IH. Qed.

Lemma rstrip_blank s : blank s → rstrip s = "".
Proof.
  induction 1 as [|w s Hw _ IH]; [done|].
  rewrite rstrip_app by done. by destruct (white_space_facts w Hw) as (_ & _ & _ & -> & _).
Qed.

Lemma rstrip_fixed x : ¬ blank_suffix x → rstrip x = x.
Proof.
  induction x as [|a x IH]; intros Hno; simpl; [done|].
  rewrite IH.
  - destruct (one_space (String a x)) eqn:E; [|done].
    destruct Hno. exists "", (String a x). by rewrite <- one_space_spec.
  - intros (p & w & Hw & ->). destruct Hno. by exists (String a p), w.
Qed.

Lemma rstrip_spec s :
  ∃ r, blank r ∧ s = rstrip s +:+ r ∧ ¬ blank_suffix (rstrip s).
Proof.
  induction s as [|a s (r & Hr & Hs & Hno)]; simpl.
  { exists "". split_and!; [constructor|done|].
    intros (p & w & Hw & Heq). destruct (white_space_facts w Hw) as (Hne & _).
    destruct p, w; done. }
  destruct (one_space (String a (rstrip s))) eqn:E.
  - exists (String a (rstrip s) +:+ r). split_and!.
    + constructor; [by apply one_space_spec|done].
    + rewrite str_app_nil_l, str_app_cons. by f_equal.
    + intros (p & w & Hw & Heq). destruct (white_space_facts w Hw) as (Hne & _).
      destruct p, w; done.
  - exists r. split_and!; [done|rewrite str_app_cons; by f_equal|].
    intros (p & w & Hw & Heq). destruct p as [|b p].
    + rewrite str_app_nil_l in Heq. rewrite Heq in E.
      apply one_space_spec in Hw. congruence.
    + rewrite str_app_cons in Heq. injection Heq as -> Heq.
      destruct Hno. by exists p, w.
Qed.

Lemma blank_no_dq s : blank s → contains_char dq s = false.
Proof.
  induction 1 as [|w s Hw _ IH]; [done|].
  rewrite contains_char_app, IH.
  by destruct (white_space_facts w Hw) as (_ & -> & _).
Qed.

(** *** Escaping the delimiter *)

Abbreviation esc := (str_replace triple_quote escaped_quote).

Lemma str_prefix_cons a p b s :
  String.prefix (String a p) (String b s)
  = if ascii_dec a b then String.prefix p s else false.
Proof. reflexivity. Qed.

Lemma str_prefix_nil s : String.prefix "" s = true.
Proof. by destruct s. Qed.

Lemma str_prefix_spec p s : String.prefix p s = true ↔ ∃ r, s = p +:+ r.
Proof.
  revert s. induction p as [|a p IH]; intros s.
  { split; [intros _; by exists s|intros _; by destruct s]. }
  destruct s as [|b s].
  { split; [intros H; discriminate H|]. intros [r Hr]. rewrite str_app_cons in Hr. discriminate Hr. }
  rewrite str_prefix_cons. destruct (ascii_dec a b) as [->|Hne].
  - rewrite IH. split; intros [r Hr].
    + exists r. by rewrite str_app_cons, Hr.
    + exists r. rewrite str_app_cons in Hr. by injection Hr.
  - split; [done|]. intros [r Hr]. rewrite str_app_cons in Hr. congruence.
Qed.

Lemma replace_go_0 old new a s :
  replace_go old new 0 (String a s)
  = if String.prefix old (String a s)
    then new +:+ replace_go old new (String.length old - 1) s
    else String a (replace_go old new 0 s).
Proof. reflexivity. Qed.

Lemma replace_go_S old new skip a s :
  replace_go old new (S skip) (String a s) = replace_go old new skip s.
Proof. reflexivity. Qed.

Lemma esc_other a s : a ≠ dq → esc (String a s) = String a (esc s).
Proof.
  intros Hne. unfold str_replace. rewrite replace_go_0.
  unfold triple_quote at 1. rewrite str_prefix_cons.
  destruct (ascii_dec dq a) as [E|_]; [by destruct Hne|done].
Qed.

Lemma esc_triple s : esc (triple_quote +:+ s) = escaped_quote +:+ esc s.
Proof.
  unfold str_replace.
  assert (String.prefix triple_quote (triple_quote +:+ s) = true) as H
    by (apply str_prefix_spec; by exists s).
  change (triple_quote +:+ s) with (String dq (String dq (String dq s))) in *.
  by rewrite replace_go_0, H.
Qed.

Lemma esc_quote s :
  String.prefix triple_quote (String dq s) = false →
  esc (String dq s) = String dq (esc s).
Proof. intros H. unfold str_replace. by rewrite replace_go_0, H. Qed.

Lemma esc_head_dq s : ∃ r, esc (String dq s) = String dq r.
Proof.
  destruct (String.prefix triple_quote (String dq s)) eqn:E.
  - apply str_prefix_spec in E as [r Hr]. rewrite Hr, esc_triple.
    by eexists.
  - rewrite esc_quote by done. by eexists.
Qed.

Lemma esc_plain w : contains_char dq w = false → esc w = w.
Proof.
  induction w as [|a w IH]; [done|]. simpl.
  intros [Ha Hw]%orb_false_iff. apply Ascii.eqb_neq in Ha.
  rewrite esc_other by done. by rewrite IH.
Qed.

Lemma esc_no_dq x : contains_char dq (esc x) = false → contains_char dq x = false.
Proof.
  induction x as [|c x IH]; [done|].
  destruct (decide (c = dq)) as [->|Hc].
  - destruct (esc_head_dq x) as [r ->]. intros H. discriminate H.
  - rewrite esc_other by done. simpl.
    intros [-> Hx]%orb_false_iff. by rewrite IH.
Qed.

Lemma esc_app_plain_l w x :
  contains_char dq w = false → esc (w +:+ x) = w +:+ esc x.
Proof.
  induction w as [|a w IH]; [done|]. simpl.
  intros [Ha Hw]%orb_false_iff. apply Ascii.eqb_neq in Ha.
  rewrite !str_app_cons, esc_other by done. by rewrite IH.
Qed.

Lemma triple_quote_prefix_app s u :
  contains_char dq u = false →
  String.prefix triple_quote (s +:+ u) = String.prefix triple_quote s.
Proof.
  intros Hu.
  assert (∀ p, String.prefix (String dq p) u = false) as Hhead.
  { intros p. destruct u as [|x u]; [done|]. simpl in Hu.
    apply orb_false_iff in Hu as [Hx _]. apply Ascii.eqb_neq in Hx.
    rewrite str_prefix_cons. by destruct (ascii_dec dq x). }
  unfold triple_quote.
  destruct s as [|a [|b [|c s]]];
    rewrite ?str_app_cons, ?str_app_nil_l, ?str_prefix_cons.
  - by rewrite Hhead.
  - destruct (ascii_dec dq a); [|done]. by rewrite Hhead.
  - destruct (ascii_dec dq a); [|done]. destruct (ascii_dec dq b); [|done].
    by rewrite Hhead.
  - by rewrite !str_prefix_nil.
Qed.

Lemma replace_go_app_plain skip s u :
  contains_char dq u = false → (skip ≤ String.length s)%nat →
  replace_go triple_quote escaped_quote skip (s +:+ u)
  = replace_go triple_quote escaped_quote skip s +:+ u.
Proof.
  intros Hu. revert skip. induction s as [|a s IH]; intros skip Hlen.
  { simpl in Hlen. assert (skip = 0%nat) as -> by lia.
    rewrite str_app_nil_l. by apply (esc_plain u). }
  rewrite str_app_cons. destruct skip as [|skip]; simpl in Hlen.
  - rewrite !replace_go_0.
    rewrite <- str_app_cons, triple_quote_prefix_app by done.
    destruct (String.prefix triple_quote (String a s)) eqn:E.
    + apply str_prefix_spec in E as [r Hr].
      rewrite IH, str_app_assoc; [done|].
      injection Hr as _ ->. simpl. lia.
    + rewrite IH by lia. done.
  - rewrite !replace_go_S. rewrite IH by lia. done.
Qed.

Lemma esc_app_plain_r s u :
  contains_char dq u = false → esc (s +:+ u) = esc s +:+ u.
Proof. intros Hu. apply replace_go_app_plain; [done|lia]. Qed.

(** The escaped text starts, or ends, with a text without delimiter only
    when the text itself does. *)
Lemma esc_prefix w x r :
  contains_char dq w = false → esc x = w +:+ r → ∃ r', x = w +:+ r'.
Proof.
  revert x. induction w as [|a w IH]; intros x Hw Heq; [by exists x|].
  simpl in Hw. apply orb_false_iff in Hw as [Ha Hw]. apply Ascii.eqb_neq in Ha.
  rewrite str_app_cons in Heq. destruct x as [|b x]; [done|].
  destruct (decide (b = dq)) as [->|Hb].
  - destruct (esc_head_dq x) as [r' Hr']. congruence.
  - rewrite esc_other in Heq by done. injection Heq as -> Heq.
    destruct (IH x Hw Heq) as [r' ->]. by exists r'.
Qed.

Lemma esc_suffix w x p :
  w ≠ "" → contains_char dq w = false → contains_char backslash w = false →
  esc x = p +:+ w → ∃ p', x = p' +:+ w.
Proof.
  intros Hne Hdq Hbs.
  assert (∃ a w', w = String a w' ∧ a ≠ dq ∧ a ≠ backslash) as (a0 & w' & Hw & Ha1 & Ha2).
  { destruct w as [|a w']; [done|]. simpl in Hdq, Hbs.
    apply orb_false_iff in Hdq as [H1 _]. apply orb_false_iff in Hbs as [H2 _].
    apply Ascii.eqb_neq in H1, H2. eauto. }
  remember (String.length x) as n eqn:Hn.
  revert x p Hn. induction (lt_wf n) as [n _ IH]. intros x p -> Heq.
  destruct x as [|b x].
  { change (esc "") with "" in Heq.
    destruct p; rewrite ?str_app_cons, ?str_app_nil_l in Heq; congruence. }
  destruct (decide (b = dq)) as [->|Hb].
  - destruct (String.prefix triple_quote (String dq x)) eqn:E.
    + apply str_prefix_spec in E as [r Hr]. rewrite Hr in *.
      rewrite esc_triple in Heq.
      change (escaped_quote +:+ esc r)
        with (String dq (String dq (String backslash (String dq (esc r)))))
        in Heq.
      destruct p as [|p1 [|p2 [|p3 [|p4 p]]]];
        rewrite ?str_app_cons, ?str_app_nil_l, Hw in Heq;
        try (injection Heq; congruence).
      injection Heq as <- <- <- <- Heq. rewrite <- Hw in Heq.
      destruct (IH (String.length r)) with (x := r) (p := p) as [p' ->];
        [|done|done|].
      { rewrite str_length_app. simpl. lia. }
      exists (triple_quote +:+ p'). by rewrite str_app_assoc.
    + rewrite esc_quote in Heq by done.
      destruct p as [|p1 p]; rewrite ?str_app_cons, ?str_app_nil_l in Heq.
      { rewrite Hw in Heq. congruence. }
      injection Heq as <- Heq.
      destruct (IH (String.length x)) with (x := x) (p := p) as [p' ->];
        [simpl; lia|done|done|].
      exists (String dq p'). by rewrite str_app_cons.
  - rewrite esc_other in Heq by done.
    destruct p as [|p1 p]; rewrite ?str_app_cons, ?str_app_nil_l in Heq.
    + exists "". rewrite str_app_nil_l. rewrite <- Heq. f_equal.
      symmetry. apply esc_plain, esc_no_dq.
      rewrite Hw in Heq. injection Heq as _ ->.
      rewrite Hw in Hdq. simpl in Hdq. by apply orb_false_iff in Hdq as [_ ?].
    + injection Heq as <- Heq.
      destruct (IH (String.length x)) with (x := x) (p := p) as [p' ->];
        [simpl; lia|done|done|].
      exists (String b p'). by rewrite str_app_cons.
Qed.

(** *** Stripping and escaping commute *)

Lemma lstrip_esc s : lstrip (esc s) = esc (lstrip s).
Proof.
  destruct (lstrip_spec s) as (l & Hl & Hs & Hno).
  rewrite Hs at 1. rewrite esc_app_plain_l by by apply blank_no_dq.
  rewrite lstrip_blank by done. apply lstrip_fixed.
  intros (w & r & Hw & Heq).
  destruct (white_space_facts w Hw) as (_ & Hdq & _).
  apply esc_prefix in Heq as [r' Hr']; [|done].
  apply Hno. by exists w, r'.
Qed.

Lemma rstrip_esc s : rstrip (esc s) = esc (rstrip s).
Proof.
  destruct (rstrip_spec s) as (r & Hr & Hs & Hno).
  rewrite Hs at 1. rewrite esc_app_plain_r by by apply blank_no_dq.
  rewrite rstrip_app by by apply rstrip_blank. apply rstrip_fixed.
  intros (p & w & Hw & Heq).
  destruct (white_space_facts w Hw) as (Hne & Hdq & Hbs & _).
  apply esc_suffix in Heq as [p' Hp']; [|done..].
  apply Hno. by exists p', w.
Qed.

Lemma clean_shard_esc shard : clean_shard shard = esc (strip shard).
Proof.
  unfold clean_shard, strip. by rewrite lstrip_esc, rstrip_esc.
Qed.

Lemma strip_plain s : plain_text s → plain_text (strip s).
Proof.
  unfold plain_text, strip. intros Hs.
  destruct (lstrip_spec s) as (l & _ & Hl & _).
  destruct (rstrip_spec (lstrip s)) as (r & _ & Hr & _).
  rewrite Hl, Hr, !all_chars_app in Hs.
  by apply andb_true_iff in Hs as [_ [Hs _]%andb_true_iff].
Qed.

Lemma strip_no_blank_prefix s : ¬ blank_prefix (strip s).
Proof.
  unfold strip. intros (w & x & Hw & Heq).
  destruct (lstrip_spec s) as (_ & _ & _ & Hno).
  destruct (rstrip_spec (lstrip s)) as (r & _ & Hr & _).
  apply Hno. exists w, (x +:+ r). split; [done|].
  by rewrite Hr, Heq, str_app_assoc.
Qed.

Lemma clean_shard_head shard a r :
  clean_shard shard = String a r → a ≠ nl.
Proof.
  rewrite clean_shard_esc. intros Heq ->.
  apply (esc_prefix (String nl "") _ r) in Heq as [r' Hr']; [|done].
  apply (strip_no_blank_prefix shard). exists (String nl ""), r'.
  split; [|done]. by_computation.
Qed.

(** *** Decoding the generated document *)

Lemma after_prefix_app p s : after_prefix p (p +:+ s) = Some s.
Proof.
  induction p as [|a p IH]; [done|].
  rewrite str_app_cons. simpl. by rewrite Ascii.eqb_refl.
Qed.

Lemma after_prefix_cons a p b s :
  after_prefix (String a p) (String b s)
  = if Ascii.eqb a b then after_prefix p s else None.
Proof. reflexivity. Qed.

Lemma after_prefix_not_head c p s :
  not_head c s → after_prefix (String c p) s = None.
Proof.
  intros Hs. destruct s as [|a s]; [done|]. simpl.
  destruct (Ascii.eqb_spec c a) as [->|]; [|done]. by destruct (Hs s).
Qed.

Lemma plain_text_cons a s :
  plain_text (String a s) →
  Ascii.eqb a backslash = false
  ∧ illegal_multiline_basic_str_char a = false
  ∧ plain_text s.
Proof.
  unfold plain_text, plain_char. simpl.
  intros [[H1 H2]%andb_true_iff H3]%andb_true_iff.
  by apply negb_true_iff in H1, H2.
Qed.

Lemma parse_basic_str_S fuel multiline result a s :
  parse_basic_str (S fuel) multiline result (String a s)
  = if Ascii.eqb a dq then
      if negb multiline then Decoded (result, s)
      else
        match after_prefix triple_quote (String a s) with
        | Some rest => Decoded (result, rest)
        | None => parse_basic_str fuel multiline (result +:+ String a "") s
        end
    else if Ascii.eqb a backslash then
      r ← parse_basic_str_escape multiline (String a s);
      parse_basic_str fuel multiline (result +:+ r.1) r.2
    else if if multiline then illegal_multiline_basic_str_char a
            else illegal_basic_str_char a
    then DecodeError
    else parse_basic_str fuel multiline (result +:+ String a "") s.
Proof. reflexivity. Qed.

Lemma str_app_snoc (s : string) a t : (s +:+ String a "") +:+ t = s +:+ String a t.
Proof. by rewrite str_app_assoc. Qed.

(** A multi-line basic string whose text is an escaped plain text reads
    back as the text. *)
Lemma parse_basic_str_esc t : ∀ fuel result rest,
  plain_text t → not_head dq rest →
  (String.length (esc t) < fuel)%nat →
  ∃ r, parse_basic_str fuel true result (esc t +:+ triple_quote +:+ rest)
       = Decoded r
       ∧ closing_quotes r = (result +:+ t, rest).
Proof.
  remember (String.length t) as n eqn:Hn.
  revert t Hn. induction (lt_wf n) as [n _ IH].
  intros t -> fuel result rest Hplain Hrest Hfuel.
  assert (closing_quotes (result, rest) = (result, rest)) as Hclose0.
  { unfold closing_quotes. change ((result, rest).2) with rest.
    by rewrite after_prefix_not_head. }
  destruct fuel as [|fuel]; [lia|].
  destruct t as [|a t].
  { change (esc "") with "". rewrite str_app_nil_l.
    change (triple_quote +:+ rest) with (String dq (String dq (String dq rest))).
    rewrite parse_basic_str_S. simpl.
    eexists. split; [done|]. by rewrite str_app_nil_r. }
  apply plain_text_cons in Hplain as (Hbs & Hill & Hplain).
  destruct (decide (a = dq)) as [->|Ha].
  2:{ rewrite esc_other in * by done. simpl in Hfuel.
      rewrite str_app_cons, parse_basic_str_S.
      apply Ascii.eqb_neq in Ha. rewrite Ha, Hbs, Hill.
      destruct (IH (String.length t)) with (t := t) (fuel := fuel)
        (result := result +:+ String a "") (rest := rest)
        as (r & Hr & Hc); [simpl; lia|done|done|done|lia|].
      exists r. split; [done|]. by rewrite Hc, str_app_snoc. }
  destruct (String.prefix triple_quote (String dq t)) eqn:E.
  - apply str_prefix_spec in E as [u Hu].
    change (triple_quote +:+ u) with (String dq (String dq (String dq u))) in Hu.
    injection Hu as ->.
    apply plain_text_cons in Hplain as (_ & _ & Hplain).
    apply plain_text_cons in Hplain as (_ & _ & Hplain).
    change (String dq (String dq (String dq u))) with (triple_quote +:+ u) in *.
    rewrite esc_triple in *.
    change (escaped_quote +:+ esc u)
      with (String dq (String dq (String backslash (String dq (esc u))))) in *.
    simpl in Hfuel.
    destruct fuel as [|[|fuel]]; [lia..|].
    rewrite !str_app_cons.
    rewrite parse_basic_str_S.
    change (Ascii.eqb dq dq) with true. cbv iota. change (negb true) with false.
    cbv iota.
    change (after_prefix triple_quote
              (String dq (String dq (String backslash
                 (String dq (esc u +:+ triple_quote +:+ rest)))))) with (@None string).
    cbv iota.
    rewrite parse_basic_str_S.
    change (Ascii.eqb dq dq) with true. cbv iota. change (negb true) with false.
    cbv iota.
    change (after_prefix triple_quote
              (String dq (String backslash
                 (String dq (esc u +:+ triple_quote +:+ rest))))) with (@None string).
    cbv iota.
    rewrite parse_basic_str_S.
    change (Ascii.eqb backslash dq) with false. cbv iota.
    change (Ascii.eqb backslash backslash) with true. cbv iota.
    change (parse_basic_str_escape true
              (String backslash (String dq (esc u +:+ triple_quote +:+ rest))))
      with (Decoded (String dq "", esc u +:+ triple_quote +:+ rest)).
    change (Decoded (String dq "", esc u +:+ triple_quote +:+ rest) ≫=
            λ r, parse_basic_str fuel true
                   (((result +:+ String dq "") +:+ String dq "") +:+ r.1) r.2)
      with (parse_basic_str fuel true
              (((result +:+ String dq "") +:+ String dq "") +:+ String dq "")
              (esc u +:+ triple_quote +:+ rest)).
    destruct (IH (String.length u)) with (t := u) (fuel := fuel)
      (result := ((result +:+ String dq "") +:+ String dq "") +:+ String dq "")
      (rest := rest) as (r & Hr & Hc);
      [rewrite str_length_app; simpl; lia|done|done|done|lia|].
    exists r. split; [done|]. rewrite Hc. by rewrite !str_app_snoc.
  - rewrite esc_quote in * by done. simpl in Hfuel.
    rewrite str_app_cons, parse_basic_str_S.
    change (Ascii.eqb dq dq) with true. cbv iota. change (negb true) with false.
    cbv iota.
    assert (match t with
            | EmptyString => True
            | String b EmptyString => True
            | String b (String c _) => b ≠ dq ∨ c ≠ dq
            end) as Hshape.
    { destruct t as [|b [|c t]]; [done..|].
      destruct (decide (b = dq)) as [->|]; [|by left].
      destruct (decide (c = dq)) as [->|]; [|by right].
      assert (String.prefix triple_quote (String dq (String dq (String dq t)))
              = true) as E'; [|congruence].
      apply str_prefix_spec. by exists t. }
    assert (∀ b u, b ≠ dq →
              after_prefix triple_quote (String dq (String b u)) = None)
      as Hnone1.
    { intros b u Hb. unfold triple_quote.
      rewrite !after_prefix_cons, Ascii.eqb_refl.
      destruct (Ascii.eqb_spec dq b); [congruence|done]. }
    assert (∀ b u, b ≠ dq →
              after_prefix triple_quote (String dq (String dq (String b u)))
              = None) as Hnone2.
    { intros b u Hb. unfold triple_quote.
      rewrite !after_prefix_cons, !Ascii.eqb_refl.
      destruct (Ascii.eqb_spec dq b); [congruence|done]. }
    assert (∃ r, parse_basic_str fuel true (result +:+ String dq "")
                   (esc t +:+ triple_quote +:+ rest) = Decoded r
                 ∧ closing_quotes r = (result +:+ String dq t, rest)) as Hnext.
    { destruct (IH (String.length t)) with (t := t) (fuel := fuel)
        (result := result +:+ String dq "") (rest := rest)
        as (r & Hr & Hc); [simpl; lia|done|done|done|lia|].
      exists r. split; [done|]. by rewrite Hc, str_app_snoc. }
    destruct t as [|b [|c t]].
    + change (esc "") with "". rewrite str_app_nil_l.
      change (after_prefix triple_quote (String dq (triple_quote +:+ rest)))
        with (Some (String dq rest)).
      cbv iota. eexists. split; [done|].
      unfold closing_quotes.
      change ((result, String dq rest).2) with (String dq rest).
      rewrite after_prefix_cons, Ascii.eqb_refl.
      change (after_prefix "" rest) with (Some rest). cbv iota.
      by rewrite after_prefix_not_head.
    + destruct (decide (b = dq)) as [->|Hb].
      * change (esc (String dq "")) with (String dq "").
        change (after_prefix triple_quote
                  (String dq (String dq "" +:+ triple_quote +:+ rest)))
          with (Some (String dq (String dq rest))).
        cbv iota. eexists. split; [done|].
        unfold closing_quotes.
        change ((result, String dq (String dq rest)).2)
          with (String dq (String dq rest)).
        rewrite after_prefix_cons, Ascii.eqb_refl.
        change (after_prefix "" (String dq rest)) with (Some (String dq rest)).
        cbv iota. rewrite after_prefix_cons, Ascii.eqb_refl.
        by destruct rest.
      * rewrite esc_other in * by done.
        rewrite str_app_cons in *. by rewrite Hnone1 by done.
    + destruct (decide (b = dq)) as [->|Hb].
      * destruct Hshape as [?|Hc]; [done|].
        assert (String.prefix triple_quote (String dq (String c t)) = false)
          as E'.
        { unfold triple_quote. rewrite !str_prefix_cons.
          destruct (ascii_dec dq dq); [|done].
          destruct (ascii_dec dq c) as [Heq|]; [congruence|done]. }
        rewrite (esc_quote (String c t)) in * by done.
        rewrite (esc_other c) in * by done.
        rewrite !str_app_cons in *. by rewrite Hnone2 by done.
      * rewrite esc_other in * by done.
        rewrite str_app_cons in *. by rewrite Hnone1 by done.
Qed.

(** *** Values *)

Lemma parse_multiline_str_clean shard rest :
  plain_text shard → not_head dq rest →
  parse_multiline_str (clean_shard shard +:+ triple_quote +:+ rest)
  = Decoded (strip shard, rest).
Proof.
  intros Hplain Hrest. unfold parse_multiline_str.
  set (s := clean_shard shard +:+ triple_quote +:+ rest).
  assert (match s with
          | String a s' => if Ascii.eqb a nl then s' else s
          | EmptyString => s
          end = s) as ->.
  { unfold s. destruct (clean_shard shard) as [|a r] eqn:E; [done|].
    rewrite str_app_cons. apply clean_shard_head in E.
    apply Ascii.eqb_neq in E. by rewrite E. }
  unfold s. rewrite clean_shard_esc.
  destruct (parse_basic_str_esc (strip shard)
              (S (String.length (esc (strip shard) +:+ triple_quote +:+ rest)))
              "" rest) as (r & Hr & Hc);
    [by apply strip_plain|done|rewrite str_length_app; lia|].
  rewrite Hr. csimpl. by rewrite Hc.
Qed.

Lemma parse_value_S fuel a s :
  parse_value (S fuel) (String a s)
  = if Ascii.eqb a dq then
      match after_prefix triple_quote (String a s) with
      | Some s'' => r ← parse_multiline_str s''; Decoded (VStr r.1, r.2)
      | None =>
          r ← parse_basic_str (S (String.length s)) false "" s;
          Decoded (VStr r.1, r.2)
      end
    else if Ascii.eqb a "[" then
      s1 ← skip_comments_and_array_ws (S (String.length s)) s;
      match after_prefix "]" s1 with
      | Some s2 => Decoded (VList [], s2)
      | None => parse_array_items fuel [] s1
      end
    else Unsupported.
Proof. reflexivity. Qed.

Lemma parse_array_items_S fuel array s :
  parse_array_items (S fuel) array s
  = r ← parse_value fuel s;
    let array := array ++ [r.1] in
    s1 ← skip_comments_and_array_ws (S (String.length r.2)) r.2;
    match s1 with
    | String c s2 =>
        if Ascii.eqb c "]" then Decoded (VList array, s2)
        else if negb (Ascii.eqb c ",") then DecodeError
        else
          s3 ← skip_comments_and_array_ws (S (String.length s2)) s2;
          match after_prefix "]" s3 with
          | Some s4 => Decoded (VList array, s4)
          | None => parse_array_items fuel array s3
          end
    | EmptyString => DecodeError
    end.
Proof. reflexivity. Qed.

Lemma quoted_app x rest :
  quoted x +:+ rest = String dq (String dq (String dq (x +:+ triple_quote +:+ rest))).
Proof. unfold quoted. by rewrite !str_app_assoc. Qed.

Lemma parse_value_quoted fuel shard rest :
  plain_text shard → not_head dq rest →
  parse_value (S fuel) (quoted (clean_shard shard) +:+ rest)
  = Decoded (VStr (strip shard), rest).
Proof.
  intros Hplain Hrest. rewrite quoted_app, parse_value_S.
  change (Ascii.eqb dq dq) with true. cbv iota.
  change (String dq (String dq (String dq
            (clean_shard shard +:+ triple_quote +:+ rest))))
    with (triple_quote +:+ clean_shard shard +:+ triple_quote +:+ rest).
  rewrite after_prefix_app, parse_multiline_str_clean by done.
  done.
Qed.

(** Nothing to skip in front of a character that is neither white space
    nor the start of a comment. *)
Lemma skip_comments_and_array_ws_S fuel s :
  skip_comments_and_array_ws (S fuel) s
  = s' ← skip_comment (skip_chars toml_ws_and_newline s);
    if String.eqb s' s then Decoded s
    else skip_comments_and_array_ws fuel s'.
Proof. reflexivity. Qed.

Lemma bind_Decoded {A B} (a : A) (f : A → decoding B) : Decoded a ≫= f = f a.
Proof. reflexivity. Qed.

Lemma skip_nothing a s :
  toml_ws_and_newline a = false → Ascii.eqb a "#" = false →
  skip_comment (skip_chars toml_ws_and_newline (String a s))
  = Decoded (String a s).
Proof. intros Hws Hc. simpl. rewrite Hws. simpl. by rewrite Hc. Qed.

Lemma skip_comments_and_array_ws_none fuel a s :
  toml_ws_and_newline a = false → Ascii.eqb a "#" = false →
  skip_comments_and_array_ws (S fuel) (String a s) = Decoded (String a s).
Proof.
  intros Hws Hc.
  rewrite skip_comments_and_array_ws_S, skip_nothing, bind_Decoded by done.
  by rewrite String.eqb_refl.
Qed.

Lemma str_eqb_cons_self a s : String.eqb s (String a s) = false.
Proof.
  apply String.eqb_neq. intros H. apply (f_equal String.length) in H.
  simpl in H. lia.
Qed.

Lemma skip_comments_and_array_ws_space fuel a s :
  toml_ws_and_newline a = false → Ascii.eqb a "#" = false →
  skip_comments_and_array_ws (S (S fuel)) (String " " (String a s))
  = Decoded (String a s).
Proof.
  intros Hws Hc. rewrite skip_comments_and_array_ws_S.
  change (skip_chars toml_ws_and_newline (String " " (String a s)))
    with (skip_chars toml_ws_and_newline (String a s)).
  rewrite skip_nothing, bind_Decoded, str_eqb_cons_self by done.
  by apply skip_comments_and_array_ws_none.
Qed.

Lemma join_cons2 sep x y l :
  join sep (x :: y :: l) = x +:+ sep +:+ join sep (y :: l).
Proof. reflexivity. Qed.

Lemma join_length sep (l : list string) :
  (∀ x, x ∈ l → x ≠ "") → (length l ≤ String.length (join sep l))%nat.
Proof.
  induction l as [|x [|y l] IH]; intros Hne; [done|..].
  - simpl. specialize (Hne x (list_elem_of_here _ _)). destruct x; [done|].
    simpl. lia.
  - rewrite join_cons2, !str_length_app.
    specialize (IH (λ z Hz, Hne z (list_elem_of_further _ _ _ Hz))).
    specialize (Hne x (list_elem_of_here _ _)). destruct x; [done|].
    simpl in *. lia.
Qed.

Lemma quoted_head x rest : ∃ s, quoted x +:+ rest = String dq s.
Proof. rewrite quoted_app. by eexists. Qed.

Lemma join_quoted_head (l : list string) rest :
  l ≠ [] → ∃ s, join ", " (quoted <$> l) +:+ rest = String dq s.
Proof.
  destruct l as [|x [|y l]]; intros Hne; [done|..].
  - apply quoted_head.
  - cbn [fmap list_fmap]. rewrite join_cons2, str_app_assoc.
    apply quoted_head.
Qed.

Lemma parse_array_items_quoted shards : ∀ fuel array rest,
  shards ≠ [] → Forall plain_text shards →
  (length shards < fuel)%nat →
  parse_array_items fuel array
    (join ", " (quoted <$> (clean_shard <$> shards)) +:+ "]" +:+ rest)
  = Decoded (VList (array ++ (VStr <$> (strip <$> shards))), rest).
Proof.
  induction shards as [|x [|y shards] IH]; intros fuel array rest Hne Hplain Hfuel;
    [done|..].
  - apply Forall_cons in Hplain as [Hx _]. simpl in Hfuel.
    destruct fuel as [|[|fuel]]; [lia..|].
    change (join ", " (quoted <$> (clean_shard <$> [x])))
      with (quoted (clean_shard x)).
    rewrite parse_array_items_S, parse_value_quoted; [|done|by intros r].
    rewrite bind_Decoded. cbn [fst snd].
    change ("]" +:+ rest) with (String "]" rest).
    rewrite skip_comments_and_array_ws_none, bind_Decoded by done.
    done.
  - apply Forall_cons in Hplain as [Hx Hplain]. simpl in Hfuel.
    destruct fuel as [|[|fuel]]; [lia..|].
    change (join ", " (quoted <$> (clean_shard <$> x :: y :: shards)))
      with (join ", " (quoted (clean_shard x)
                       :: (quoted <$> (clean_shard <$> y :: shards)))).
    destruct (join_quoted_head (clean_shard <$> y :: shards) ("]" +:+ rest))
      as [s Hs]; [done|].
    specialize (IH (S fuel) (array ++ [VStr (strip x)]) rest).
    rewrite Hs in IH.
    change (quoted <$> (clean_shard <$> y :: shards))
      with (quoted (clean_shard y) :: (quoted <$> (clean_shard <$> shards)))
      in *.
    rewrite join_cons2, !str_app_assoc, Hs.
    rewrite parse_array_items_S, parse_value_quoted; [|done|by intros r].
    rewrite bind_Decoded. cbn [fst snd].
    change (", " +:+ String dq s) with (String "," (String " " (String dq s))).
    rewrite skip_comments_and_array_ws_none, bind_Decoded by done.
    change (Ascii.eqb "," "]") with false. change (Ascii.eqb "," ",") with true.
    cbv iota. change (negb true) with false. cbv iota.
    change (String.length (String " " (String dq s)))
      with (S (S (String.length s))).
    rewrite skip_comments_and_array_ws_space, bind_Decoded by done.
    change (after_prefix "]" (String dq s)) with (@None string). cbv iota.
    rewrite IH; [|done|done|simpl; lia].
    by rewrite <- app_assoc.
Qed.

Lemma parse_value_array fuel shards rest :
  shards ≠ [] → Forall plain_text shards →
  (length shards < fuel)%nat →
  parse_value (S fuel)
    ("[" +:+ join ", " (quoted <$> (clean_shard <$> shards)) +:+ "]" +:+ rest)
  = Decoded (VList (VStr <$> (strip <$> shards)), rest).
Proof.
  intros Hne Hplain Hfuel.
  pose proof (parse_array_items_quoted shards fuel [] rest Hne Hplain Hfuel) as H.
  destruct (join_quoted_head (clean_shard <$> shards) ("]" +:+ rest))
    as [s Hs]; [by destruct shards|].
  rewrite Hs in *.
  change ("[" +:+ String dq s) with (String "[" (String dq s)).
  rewrite parse_value_S.
  change (Ascii.eqb "[" dq) with false. change (Ascii.eqb "[" "[") with true.
  cbv iota.
  rewrite skip_comments_and_array_ws_none, bind_Decoded by done.
  change (after_prefix "]" (String dq s)) with (@None string). cbv iota.
  done.
Qed.

(** *** Keys *)

Lemma split_char_dotted k :
  ∃ p ps, split_char "." k = p :: ps ∧ k = p +:+ dotted ps.
Proof.
  induction k as [|a k (p & ps & Hsplit & Hk)].
  { by exists "", []. }
  simpl. destruct (Ascii.eqb_spec a ".") as [->|Hne].
  - exists "", (p :: ps). rewrite Hsplit. split; [done|].
    rewrite str_app_nil_l. simpl. by rewrite <- Hk.
  - rewrite Hsplit. exists (String a p), ps. split; [done|].
    by rewrite str_app_cons, <- Hk.
Qed.

Lemma bare_not_ws a : bare_key_char a = true → toml_ws a = false.
Proof.
  intros Ha. unfold toml_ws.
  destruct (Ascii.eqb_spec a " ") as [->|_]; [done|].
  destruct (Ascii.eqb_spec a tab) as [->|_]; done.
Qed.

(** A text that is empty or starts with a character outside the bare
    keys. *)
Lemma take_skip_bare p rest :
  all_chars bare_key_char p = true →
  (∀ a r, rest = String a r → bare_key_char a = false) →
  take_chars bare_key_char (p +:+ rest) = p
  ∧ skip_chars bare_key_char (p +:+ rest) = rest.
Proof.
  intros Hp Hrest. induction p as [|a p IH].
  - rewrite str_app_nil_l. destruct rest as [|a r]; [done|].
    simpl. by rewrite (Hrest a r).
  - simpl in Hp. apply andb_true_iff in Hp as [Ha Hp].
    rewrite str_app_cons. simpl. rewrite Ha.
    destruct (IH Hp) as [-> ->]. done.
Qed.

Lemma parse_key_part_bare p rest :
  bare_key p →
  (∀ a r, rest = String a r → bare_key_char a = false) →
  parse_key_part (p +:+ rest) = Decoded (p, rest).
Proof.
  intros [Hne Hp] Hrest.
  destruct (take_skip_bare p rest Hp Hrest) as [Htake Hskip].
  destruct p as [|a p]; [done|].
  rewrite str_app_cons in *. unfold parse_key_part.
  simpl in Hp. apply andb_true_iff in Hp as [Ha _]. rewrite Ha.
  by rewrite Htake, Hskip.
Qed.

Lemma dotted_length ps : (length ps ≤ String.length (dotted ps))%nat.
Proof.
  induction ps as [|p ps IH]; simpl; [done|].
  rewrite !str_length_app. simpl. lia.
Qed.

Lemma parse_key_parts_S fuel key a s :
  parse_key_parts (S fuel) key (String a s)
  = if Ascii.eqb a "." then
      r ← parse_key_part (skip_chars toml_ws s);
      parse_key_parts fuel (key ++ [r.1]) (skip_chars toml_ws r.2)
    else Decoded (key, String a s).
Proof. reflexivity. Qed.

Lemma dotted_head ps rest :
  ∀ a r, dotted ps +:+ String " " rest = String a r → bare_key_char a = false.
Proof.
  intros a r. destruct ps as [|p ps].
  - rewrite str_app_nil_l. by intros [= <- _].
  - simpl. rewrite !str_app_assoc. by intros [= <- _].
Qed.

Lemma parse_key_parts_dotted ps : ∀ fuel key rest,
  Forall bare_key ps → (length ps < fuel)%nat →
  parse_key_parts fuel key
    (skip_chars toml_ws (dotted ps +:+ String " " (String "=" rest)))
  = Decoded (key ++ ps, String "=" rest).
Proof.
  induction ps as [|p ps IH]; intros fuel key rest Hps Hfuel.
  - destruct fuel as [|fuel]; [lia|]. rewrite str_app_nil_l.
    change (skip_chars toml_ws (String " " (String "=" rest)))
      with (String "=" rest).
    rewrite parse_key_parts_S. by rewrite app_nil_r.
  - apply Forall_cons in Hps as [Hp Hps]. simpl in Hfuel.
    destruct fuel as [|fuel]; [lia|].
    change (dotted (p :: ps)) with ("." +:+ p +:+ dotted ps).
    rewrite !str_app_assoc.
    change ("." +:+ ?s) with (String "." s).
    change (skip_chars toml_ws
              (String "." (p +:+ dotted ps +:+ String " " (String "=" rest))))
      with (String "." (p +:+ dotted ps +:+ String " " (String "=" rest))).
    rewrite parse_key_parts_S.
    change (Ascii.eqb "." ".") with true. cbv iota.
    assert (skip_chars toml_ws
              (p +:+ dotted ps +:+ String " " (String "=" rest))
            = p +:+ dotted ps +:+ String " " (String "=" rest)) as ->.
    { destruct Hp as [Hne Hp]. destruct p as [|a p]; [done|].
      simpl in Hp. apply andb_true_iff in Hp as [Ha _].
      rewrite str_app_cons. simpl. by rewrite bare_not_ws. }
    rewrite parse_key_part_bare; [|done|apply dotted_head].
    rewrite bind_Decoded. cbn [fst snd].
    rewrite IH by (done || lia). by rewrite <- app_assoc.
Qed.

Lemma parse_key_dotted k rest :
  toml_key k →
  parse_key (k +:+ String " " (String "=" rest))
  = Decoded (key_parts k, String "=" rest).
Proof.
  unfold toml_key, key_parts. intros Hk.
  destruct (split_char_dotted k) as (p & ps & Hsplit & Hdot).
  rewrite Hsplit in *. apply Forall_cons in Hk as [Hp Hps].
  rewrite Hdot at 1. rewrite str_app_assoc. unfold parse_key.
  rewrite parse_key_part_bare; [|done|apply dotted_head].
  rewrite bind_Decoded. cbn [fst snd].
  rewrite parse_key_parts_dotted; [done|done|].
  rewrite !str_length_app. pose proof (dotted_length ps).
  destruct Hp as [Hne _]. destruct p; [done|]. simpl. lia.
Qed.

(** *** Statements *)

Lemma statement_single k x :
  statement (k, [x]) = k +:+ String " " (String "=" (String " " (quoted x))).
Proof. reflexivity. Qed.

Lemma statement_many k x y l :
  statement (k, x :: y :: l)
  = k +:+ String " " (String "=" (String " "
      ("[" +:+ join ", " (quoted <$> x :: y :: l) +:+ "]"))).
Proof. reflexivity. Qed.

Lemma line_end_not_head rest : line_end rest → not_head dq rest.
Proof. intros [->|[r ->]] r'; done. Qed.

Lemma parse_key_value_pair_statement k shards rest :
  toml_key k → shards ≠ [] → Forall plain_text shards → line_end rest →
  parse_key_value_pair (statement (k, clean_shard <$> shards) +:+ rest)
  = Decoded (key_parts k, bound_value (strip <$> shards), rest).
Proof.
  intros Hk Hne Hplain Hrest. unfold parse_key_value_pair.
  destruct shards as [|x [|y shards]]; [done|..].
  - change (clean_shard <$> [x]) with [clean_shard x].
    rewrite statement_single, str_app_assoc.
    change (String " " (String "=" (String " " (quoted (clean_shard x)))) +:+ rest)
      with (String " " (String "=" (String " " (quoted (clean_shard x) +:+ rest)))).
    rewrite parse_key_dotted, bind_Decoded by done. cbn [fst snd].
    change (Ascii.eqb "=" "=") with true. cbv iota.
    change (skip_chars toml_ws (String " " (quoted (clean_shard x) +:+ rest)))
      with (skip_chars toml_ws (quoted (clean_shard x) +:+ rest)).
    destruct (quoted_head (clean_shard x) rest) as [s Hs].
    assert (skip_chars toml_ws (quoted (clean_shard x) +:+ rest)
            = quoted (clean_shard x) +:+ rest) as ->.
    { by rewrite Hs. }
    apply Forall_cons in Hplain as [Hx _].
    rewrite parse_value_quoted, bind_Decoded;
      [done|done|by apply line_end_not_head].
  - change (clean_shard <$> x :: y :: shards)
      with (clean_shard x :: clean_shard y :: (clean_shard <$> shards)).
    rewrite statement_many, str_app_assoc.
    change (clean_shard x :: clean_shard y :: (clean_shard <$> shards))
      with (clean_shard <$> x :: y :: shards).
    change (String " " (String "=" (String " " ?s)) +:+ rest)
      with (String " " (String "=" (String " " (s +:+ rest)))).
    rewrite parse_key_dotted, bind_Decoded by done. cbn [fst snd].
    change (Ascii.eqb "=" "=") with true. cbv iota.
    rewrite !str_app_assoc.
    change (skip_chars toml_ws (String " " ("[" +:+ ?s))) with ("[" +:+ s).
    rewrite parse_value_array, bind_Decoded; [done|done|done|].
    change (String.length (String " " ?s)) with (S (String.length s)).
    rewrite !str_length_app.
    pose proof (join_length ", "
                  (quoted <$> (clean_shard <$> x :: y :: shards))) as Hlen.
    rewrite !length_fmap in Hlen.
    assert (length (x :: y :: shards)
            ≤ String.length
                (join ", " (quoted <$> (clean_shard <$> x :: y :: shards))))%nat;
      [|lia].
    apply Hlen. intros z (u & -> & _)%list_elem_of_fmap. done.
Qed.

Lemma statements_S fuel out s :
  statements (S fuel) out s
  = let s := skip_chars toml_ws s in
    match s with
    | EmptyString => Decoded (data out)
    | String a s' =>
        if Ascii.eqb a nl then statements fuel out s'
        else
          r ← (if bare_key_char a || Ascii.eqb a dq || Ascii.eqb a "'"
               then r ← key_value_rule s out;
                    Decoded (skip_chars toml_ws r.1, r.2)
               else if Ascii.eqb a "[" then Unsupported
               else if negb (Ascii.eqb a "#") then DecodeError
               else Decoded (s, out));
          s1 ← skip_comment r.1;
          match s1 with
          | EmptyString => Decoded (data r.2)
          | String b s2 =>
              if Ascii.eqb b nl then statements fuel r.2 s2
              else DecodeError
          end
    end.
Proof. reflexivity. Qed.

Lemma bare_not_nl a : bare_key_char a = true → Ascii.eqb a nl = false.
Proof. intros Ha. by destruct (Ascii.eqb_spec a nl) as [->|_]. Qed.

Lemma statement_head k v rest :
  toml_key k →
  ∃ a s, statement (k, v) +:+ rest = String a s ∧ bare_key_char a = true.
Proof.
  unfold toml_key, key_parts. intros Hk.
  destruct (split_char_dotted k) as (p & ps & Hsplit & Hdot).
  rewrite Hsplit in Hk. apply Forall_cons in Hk as [[Hne Hp] _].
  destruct p as [|a p]; [done|]. simpl in Hp.
  apply andb_true_iff in Hp as [Ha _].
  exists a. unfold statement. rewrite Hdot.
  destruct (1 <? length v)%nat; rewrite !str_app_cons; by eexists.
Qed.

Lemma statements_step fuel out group rest :
  plain_group group → line_end rest →
  statements (S fuel) out (statement (cleaned group) +:+ rest)
  = out' ← set_key_value (bound group).1 (bound group).2 out;
    match rest with
    | EmptyString => Decoded (data out')
    | String _ r => statements fuel out' r
    end.
Proof.
  destruct group as [k shards]. intros (Hk & Hne & Hplain) Hrest.
  unfold cleaned, bound. cbn [fst snd] in *.
  destruct (statement_head k (clean_shard <$> shards) rest Hk)
    as (a & s & Hs & Ha).
  rewrite statements_S. cbv zeta.
  assert (skip_chars toml_ws (statement (k, clean_shard <$> shards) +:+ rest)
          = statement (k, clean_shard <$> shards) +:+ rest) as ->.
  { rewrite Hs. simpl. by rewrite bare_not_ws. }
  rewrite Hs. rewrite bare_not_nl, Ha by done. cbn [orb].
  rewrite <- Hs. unfold key_value_rule.
  rewrite parse_key_value_pair_statement, bind_Decoded by done.
  cbn [fst snd].
  destruct (set_key_value (key_parts k) (bound_value (strip <$> shards)) out)
    as [out'| |]; [|done..].
  rewrite !bind_Decoded. cbn [fst snd].
  destruct Hrest as [->|[r ->]]; [done|].
  change (skip_chars toml_ws (String nl r)) with (String nl r).
  change (skip_comment (String nl r)) with (Decoded (String nl r)).
  rewrite bind_Decoded. by rewrite Ascii.eqb_refl.
Qed.

Lemma statements_join groups : ∀ fuel out,
  Forall plain_group groups → (length groups < fuel)%nat →
  statements fuel out (join (String nl "") (statement <$> (cleaned <$> groups)))
  = out' ← set_all (bound <$> groups) out; Decoded (data out').
Proof.
  induction groups as [|g [|g' groups] IH]; intros fuel out Hall Hfuel.
  - destruct fuel; [simpl in Hfuel; lia|]. done.
  - destruct fuel; [simpl in Hfuel; lia|].
    apply Forall_cons in Hall as [Hg _].
    change (join (String nl "") (statement <$> (cleaned <$> [g])))
      with (statement (cleaned g)).
    rewrite <- (str_app_nil_r (statement (cleaned g))).
    rewrite statements_step; [|done|by left].
    simpl. by destruct (set_key_value _ _ _).
  - destruct fuel; [simpl in Hfuel; lia|].
    apply Forall_cons in Hall as [Hg Hall].
    change (statement <$> (cleaned <$> g :: g' :: groups))
      with (statement (cleaned g)
            :: (statement <$> (cleaned <$> g' :: groups))).
    change (statement <$> (cleaned <$> g' :: groups))
      with (statement (cleaned g')
            :: (statement <$> (cleaned <$> groups))) at 1.
    rewrite join_cons2.
    change (String nl "" +:+ ?s) with (String nl s).
    rewrite statements_step; [|done|right; by eexists].
    change (bound <$> g :: g' :: groups)
      with (bound g :: (bound <$> g' :: groups)).
    change (set_all (bound g :: (bound <$> g' :: groups)) out)
      with (out' ← set_key_value (bound g).1 (bound g).2 out;
            set_all (bound <$> g' :: groups) out').
    destruct (set_key_value _ _ _) as [out'| |]; [|done..].
    rewrite !bind_Decoded.
    change (statement (cleaned g') :: (statement <$> (cleaned <$> groups)))
      with (statement <$> (cleaned <$> g' :: groups)).
    apply IH; [done|simpl in *; lia].
Qed.

(** *** The nest of tables *)

Lemma lookup_path_cons k key d :
  lookup_path (k :: key) (VDict d) = dict_get k d ≫= lookup_path key.
Proof. reflexivity. Qed.

Lemma lookup_path_empty key : key ≠ [] → lookup_path key (VDict []) = None.
Proof. by destruct key. Qed.

Lemma comparable_cons k p q : comparable (k :: p) (k :: q) ↔ comparable p q.
Proof.
  unfold comparable. split.
  - intros [H|H]; [left|right]; by eapply prefix_cons_inv_2.
  - intros [H|H]; [left|right]; by apply prefix_cons.
Qed.

Lemma comparable_heads k k' p q : comparable (k :: p) (k' :: q) → k = k'.
Proof. intros [H|H]; apply prefix_cons_inv_1 in H; done. Qed.

Lemma nest_set_spec parent stem v : ∀ cont,
  (∀ p x, p ≠ [] → p `prefix_of` parent ++ [stem] →
          lookup_path p (VDict cont) = Some x →
          p ≠ parent ++ [stem] ∧ is_table x) →
  ∃ d, nest_set parent stem v cont = Decoded d
    ∧ lookup_path (parent ++ [stem]) (VDict d) = Some v
    ∧ (∀ q, ¬ comparable q (parent ++ [stem]) →
            lookup_path q (VDict d) = lookup_path q (VDict cont))
    ∧ (∀ q x, q ≠ [] → lookup_path q (VDict d) = Some x →
         (q `prefix_of` parent ++ [stem] ∧ q ≠ parent ++ [stem] ∧ is_table x)
         ∨ (∃ r, q = (parent ++ [stem]) ++ r ∧ lookup_path r v = Some x)
         ∨ (¬ comparable q (parent ++ [stem])
            ∧ lookup_path q (VDict cont) = Some x)).
Proof.
  induction parent as [|k parent IH]; intros cont Hfree.
  - change ([] ++ [stem]) with [stem] in *. cbn [nest_set].
    destruct (dict_get stem cont) as [x0|] eqn:Hget.
    { destruct (Hfree [stem] x0) as [Hne _]; [done|done| |done].
      by rewrite lookup_path_cons, Hget. }
    exists (setitem stem v cont). split_and!; [done| | |].
    + by rewrite lookup_path_cons, dict_get_setitem_eq.
    + intros [|k' r] Hq.
      { destruct Hq. left. apply prefix_nil. }
      rewrite !lookup_path_cons, dict_get_setitem_ne; [done|].
      intros ->. apply Hq. right. apply prefix_cons, prefix_nil.
    + intros [|k' r] x Hq Hx; [done|].
      rewrite lookup_path_cons, dict_get_setitem in Hx.
      case_decide as E.
      * subst k'. right; left. by exists r.
      * right; right. split; [|by rewrite lookup_path_cons].
        intros Hc. by apply comparable_heads in Hc.
  - rewrite <- app_comm_cons in *.
    assert (∃ c0, (∀ p', p' ≠ [] → lookup_path (k :: p') (VDict cont)
                                  = lookup_path p' (VDict c0))
                  ∧ nest_set (k :: parent) stem v cont
                    = nest ← nest_set parent stem v c0;
                      Decoded (setitem k (VDict nest) cont))
      as (c0 & Hc0 & Hrun).
    { destruct (dict_get k cont) as [x0|] eqn:Hget.
      - destruct (Hfree [k] x0) as [_ [d1 ->]]; [done| | |].
        { apply prefix_cons, prefix_nil. }
        { by rewrite lookup_path_cons, Hget. }
        exists d1. split; [|by cbn [nest_set]; rewrite Hget].
        intros p' _. by rewrite lookup_path_cons, Hget.
      - exists []. split; [|by cbn [nest_set]; rewrite Hget].
        intros p' Hp'. rewrite lookup_path_cons, Hget.
        by rewrite lookup_path_empty. }
    destruct (IH c0) as (d0 & Hd0 & Hkey & Hother & Hall).
    { intros p x Hp Hpre Hx. rewrite <- Hc0 in Hx by done.
      destruct (Hfree (k :: p) x) as [Hne Ht]; [done|by apply prefix_cons|done|].
      split; [|done]. intros ->. done. }
    exists (setitem k (VDict d0) cont). split_and!.
    + by rewrite Hrun, Hd0.
    + by rewrite lookup_path_cons, dict_get_setitem_eq.
    + intros [|k' r] Hq.
      { destruct Hq. left. apply prefix_nil. }
      rewrite (lookup_path_cons k' r (setitem k (VDict d0) cont)).
      rewrite dict_get_setitem. case_decide as E.
      * subst k'. rewrite comparable_cons in Hq.
        change (Some (VDict d0) ≫= lookup_path r)
          with (lookup_path r (VDict d0)).
        rewrite Hother by done. rewrite Hc0; [done|].
        intros ->. apply Hq. left. apply prefix_nil.
      * by rewrite lookup_path_cons.
    + intros [|k' r] x Hq Hx; [done|].
      rewrite lookup_path_cons, dict_get_setitem in Hx.
      case_decide as E.
      * subst k'. simpl in Hx. destruct r as [|k2 r].
        { injection Hx as <-. left. split_and!.
          - apply prefix_cons, prefix_nil.
          - by destruct parent.
          - by eexists. }
        destruct (Hall (k2 :: r) x) as [(H1 & H2 & H3)|[(r' & H1 & H2)|[H1 H2]]];
          [done|done|..].
        -- left. split_and!; [by apply prefix_cons|congruence|done].
        -- right; left. exists r'. by rewrite <- app_comm_cons, <- H1.
        -- right; right. rewrite comparable_cons. split; [done|].
           by rewrite Hc0.
      * right; right. split; [|by rewrite lookup_path_cons].
        intros Hc. by apply comparable_heads in Hc.
Qed.

Lemma lookup_path_leaf key v :
  ¬ is_table v → key ≠ [] → lookup_path key v = None.
Proof.
  intros Hv Hkey. destruct key as [|k key]; [done|].
  destruct v; try done. destruct Hv. by eexists.
Qed.

Lemma set_key_value_spec pairs out key v :
  holds pairs out → key ≠ [] → ¬ is_table v →
  (∀ key', key' ∈ pairs.*1 → ¬ comparable key key') →
  ∃ out', set_key_value key v out = Decoded out'
          ∧ holds (pairs ++ [(key, v)]) out'.
Proof.
  intros (Hfound & Honly & Hfrozen) Hkey Hv Hfresh.
  assert (key = removelast key ++ [List.last key ""]) as Hsplit
    by by apply app_removelast_last.
  unfold set_key_value.
  assert (is_frozen out (removelast key) = false) as ->.
  { apply bool_decide_eq_false. rewrite Exists_exists.
    intros (f & Hf & Hne & Hpre). destruct (Hfrozen f Hf) as [_ Hin].
    apply (Hfresh f Hin). right. rewrite Hsplit.
    by apply prefix_app_r. }
  destruct (nest_set_spec (removelast key) (List.last key "") v (data out))
    as (d & Hd & Hnew & Hother & Hall).
  { rewrite <- Hsplit. intros p x Hp Hpre Hx.
    destruct (Honly p x Hp Hx) as (key' & v' & Hin & Hpre' & Hcase).
    assert (key' ∈ pairs.*1) as Hin'.
    { apply list_elem_of_fmap. by exists (key', v'). }
    destruct Hcase as [[Hne Ht]|[-> ->]].
    - split; [|done]. intros ->. apply (Hfresh key' Hin'). by left.
    - destruct (Hfresh key' Hin'). by right. }
  rewrite <- Hsplit in *. rewrite Hd. eexists. split; [done|].
  split_and!; cbn [data frozen].
  - intros key' v' [Hin|Hin]%elem_of_app.
    + rewrite Hother; [by apply Hfound|].
      intros Hc. apply (Hfresh key').
      * apply list_elem_of_fmap. by exists (key', v').
      * destruct Hc; [by right|by left].
    + apply list_elem_of_singleton in Hin. by injection Hin as -> ->.
  - intros q x Hq Hx.
    destruct (Hall q x Hq Hx) as [(H1 & H2 & H3)|[(r & H1 & H2)|[H1 H2]]].
    + exists key, v. split_and!; [|done|by left].
      apply elem_of_app. right. apply list_elem_of_singleton. done.
    + destruct r as [|k r].
      * rewrite app_nil_r in H1. injection H2 as <-. subst q.
        exists key, v. split_and!; [|done|by right].
        apply elem_of_app. right. by apply list_elem_of_singleton.
      * by rewrite lookup_path_leaf in H2.
    + destruct (Honly q x Hq H2) as (key' & v' & Hin & Hrest).
      exists key', v'. split; [|done]. apply elem_of_app. by left.
  - intros f Hf. rewrite fmap_app. simpl.
    assert (f ∈ frozen out ∨ f = key) as [Hold| ->].
    { destruct v; try (by left);
        apply elem_of_app in Hf as [?|Hf%list_elem_of_singleton]; auto. }
    + destruct (Hfrozen f Hold) as [? ?]. split; [done|].
      apply elem_of_app. by left.
    + split; [done|]. apply elem_of_app. right. by apply list_elem_of_singleton.
Qed.

Lemma set_all_spec new : ∀ pairs out,
  holds pairs out →
  (∀ key v, (key, v) ∈ new → key ≠ [] ∧ ¬ is_table v) →
  NoDup (pairs.*1 ++ new.*1) →
  (∀ key key', key ∈ pairs.*1 ++ new.*1 → key' ∈ pairs.*1 ++ new.*1 →
               key `prefix_of` key' → key = key') →
  ∃ out', set_all new out = Decoded out' ∧ holds (pairs ++ new) out'.
Proof.
  induction new as [|[key v] new IH]; intros pairs out Hholds Hnew Hnd Hfree.
  { exists out. by rewrite app_nil_r. }
  cbn [set_all fst snd].
  destruct (Hnew key v) as [Hkey Hv]; [apply list_elem_of_here|].
  destruct (set_key_value_spec pairs out key v) as (out' & Hout' & Hholds');
    [done..| |].
  { intros key' Hin Hc.
    assert (key = key') as <-.
    { assert (key ∈ pairs.*1 ++ ((key, v) :: new).*1) as Hk1
        by (apply elem_of_app; right; apply list_elem_of_here).
      assert (key' ∈ pairs.*1 ++ ((key, v) :: new).*1) as Hk2
        by (apply elem_of_app; by left).
      destruct Hc as [Hc|Hc];
        [exact (Hfree _ _ Hk1 Hk2 Hc)|symmetry; exact (Hfree _ _ Hk2 Hk1 Hc)]. }
    apply NoDup_app in Hnd as (_ & Hnd & _).
    apply (Hnd key Hin). apply list_elem_of_here. }
  rewrite Hout', bind_Decoded.
  destruct (IH (pairs ++ [(key, v)]) out') as (out'' & Hrun & Hholds'').
  - done.
  - intros key' v' Hin. apply Hnew. by apply list_elem_of_further.
  - rewrite fmap_app, <- app_assoc. done.
  - rewrite fmap_app, <- app_assoc. done.
  - exists out''. by rewrite <- app_assoc in Hholds''.
Qed.

(** *** The groups of a sharded file *)

Lemma shard_pairs_shards_of markers : shard_pairs (shards_of markers) = markers.
Proof.
  unfold shard_pairs, shards_of. cbn [tail].
  induction markers as [|[k b] markers IH]; [done|].
  cbn [mbind list_bind fst snd app tail stride2].
  destruct (markers ≫= λ m, [m.1; m.2]) as [|y l];
    simpl in *; by rewrite IH.
Qed.

Lemma bodies_of_snoc k markers id_ shard :
  bodies_of k (markers ++ [(id_, shard)])
  = bodies_of k markers ++ (if decide (id_ = k) then [shard] else []).
Proof.
  unfold bodies_of. rewrite filter_app, fmap_app. f_equal.
  rewrite filter_cons, filter_nil. simpl. by case_decide.
Qed.

Lemma group_shards_bodies markers :
  NoDup (keys (group_shards markers))
  ∧ ∀ k, match dict_get k (group_shards markers) with
         | Some v => v = clean_shard <$> bodies_of k markers ∧ v ≠ []
         | None => bodies_of k markers = []
         end.
Proof.
  unfold group_shards.
  induction markers as [|[id_ shard] markers [IHnd IH]] using rev_ind.
  { split; [apply NoDup_nil_2|done]. }
  rewrite foldl_app. simpl. unfold setdefault_append. split.
  - by apply NoDup_keys_setitem.
  - intros k. rewrite dict_get_setitem, bodies_of_snoc.
    case_decide as E.
    + subst k. rewrite decide_True by done. unfold get_default.
      specialize (IH id_).
      destruct (dict_get id_ _) as [v|].
      * destruct IH as [-> _]. rewrite fmap_app. split; [done|].
        by intros ?%app_nil_r_inv.
      * rewrite IH. split; [done|]. done.
    + rewrite decide_False by done. rewrite app_nil_r. apply IH.
Qed.

Lemma elem_of_dict_get {V} (d : dict V) k v :
  NoDup (keys d) → (k, v) ∈ d → dict_get k d = Some v.
Proof.
  unfold keys. induction d as [|[k' v'] d IH]; intros Hnd Hin.
  { by apply elem_of_nil in Hin. }
  apply NoDup_cons in Hnd as [Hk' Hnd]. simpl.
  apply elem_of_cons in Hin as [[= -> ->]|Hin].
  - by rewrite String.eqb_refl.
  - destruct (String.eqb_spec k k') as [->|_]; [|by apply IH].
    destruct Hk'. apply list_elem_of_fmap. by exists (k', v).
Qed.

Lemma dict_of_keys {V} (d : dict V) (f : string → V) :
  (∀ k v, (k, v) ∈ d → v = f k) → d = (λ k, (k, f k)) <$> keys d.
Proof.
  unfold keys. induction d as [|[k v] d IH]; intros Hf; [done|].
  simpl. rewrite <- (Hf k v) by apply list_elem_of_here.
  f_equal. apply IH. intros k' v' Hin. apply Hf. by apply list_elem_of_further.
Qed.

Lemma bodies_of_elem k body markers :
  body ∈ bodies_of k markers → k ∈ markers.*1 ∧ body ∈ markers.*2.
Proof.
  unfold bodies_of. intros ([k' b] & -> & [Hk Hin]%list_elem_of_filter)%list_elem_of_fmap.
  simpl in *. subst k'. split; apply list_elem_of_fmap; by exists (k, b).
Qed.

Lemma bodies_of_nonempty k markers : k ∈ markers.*1 → bodies_of k markers ≠ [].
Proof.
  intros ([k' b] & -> & Hin)%list_elem_of_fmap. unfold bodies_of.
  assert (b ∈ (filter (λ m, m.1 = k') markers).*2) as Hb.
  { apply list_elem_of_fmap. exists (k', b). split; [done|].
    by apply list_elem_of_filter. }
  intros E. simpl in *. rewrite E in Hb. by apply elem_of_nil in Hb.
Qed.

(** *** Carriage returns *)

Lemma str_replace_absent a old new s :
  contains_char a s = false → str_replace (String a old) new s = s.
Proof.
  unfold str_replace. induction s as [|b s IH]; [done|]. simpl contains_char.
  intros [Hb Hs]%orb_false_iff. rewrite replace_go_0, str_prefix_cons.
  apply Ascii.eqb_neq in Hb.
  destruct (ascii_dec a b) as [->|_]; [done|]. by rewrite IH.
Qed.

Lemma contains_char_esc c t :
  c ≠ dq → c ≠ backslash → contains_char c (esc t) = contains_char c t.
Proof.
  intros H1%Ascii.eqb_neq H2%Ascii.eqb_neq.
  rewrite Ascii.eqb_sym in H1. rewrite Ascii.eqb_sym in H2.
  remember (String.length t) as n eqn:Hn.
  revert t Hn. induction (lt_wf n) as [n _ IH]. intros t ->.
  destruct t as [|a t]; [done|].
  destruct (decide (a = dq)) as [->|Ha].
  - destruct (String.prefix triple_quote (String dq t)) eqn:E.
    + apply str_prefix_spec in E as [u Hu]. rewrite Hu, esc_triple.
      change (escaped_quote +:+ esc u)
        with (String dq (String dq (String backslash (String dq (esc u))))).
      change (triple_quote +:+ u) with (String dq (String dq (String dq u))).
      cbn [contains_char]. rewrite H1, H2. simpl.
      apply (IH (String.length u)); [|done].
      rewrite Hu, str_length_app. simpl. lia.
    + rewrite esc_quote by done. cbn [contains_char]. rewrite H1. simpl.
      apply (IH (String.length t)); [simpl; lia|done].
  - rewrite esc_other by done. cbn [contains_char].
    rewrite (IH (String.length t)); [done|simpl; lia|done].
Qed.

Lemma contains_char_strip c s :
  contains_char c s = false → contains_char c (strip s) = false.
Proof.
  unfold strip. intros Hs.
  destruct (lstrip_spec s) as (l & _ & Hl & _).
  destruct (rstrip_spec (lstrip s)) as (r & _ & Hr & _).
  rewrite Hl, Hr, !contains_char_app in Hs.
  by apply orb_false_iff in Hs as [_ [Hs _]%orb_false_iff].
Qed.

Lemma all_chars_contains p c s :
  all_chars p s = true → p c = false → contains_char c s = false.
Proof.
  intros Hs Hc. induction s as [|a s IH]; [done|]. simpl in *.
  apply andb_true_iff in Hs as [Ha Hs]. rewrite IH by done.
  destruct (Ascii.eqb_spec a c) as [->|]; [congruence|done].
Qed.

Lemma clean_shard_no_cr shard :
  plain_text shard → contains_char cr (clean_shard shard) = false.
Proof.
  intros Hplain. rewrite clean_shard_esc, contains_char_esc by done.
  apply contains_char_strip. by eapply all_chars_contains.
Qed.

Lemma dotted_no_cr ps : Forall bare_key ps → contains_char cr (dotted ps) = false.
Proof.
  induction 1 as [|p ps [_ Hp] _ IH]; [done|]. simpl.
  rewrite !contains_char_app, IH, (all_chars_contains bare_key_char cr p) by done.
  done.
Qed.

Lemma toml_key_no_cr k : toml_key k → contains_char cr k = false.
Proof.
  unfold toml_key, key_parts. intros Hk.
  destruct (split_char_dotted k) as (p & ps & Hsplit & ->).
  rewrite Hsplit in Hk. apply Forall_cons in Hk as [[_ Hp] Hps].
  rewrite contains_char_app, dotted_no_cr by done.
  by rewrite (all_chars_contains bare_key_char cr p).
Qed.

Lemma join_no_cr sep (l : list string) :
  contains_char cr sep = false →
  Forall (λ x, contains_char cr x = false) l →
  contains_char cr (join sep l) = false.
Proof.
  intros Hsep. induction l as [|x [|y l] IH]; intros Hl; [done|..].
  - by apply Forall_cons in Hl as [? _].
  - apply Forall_cons in Hl as [Hx Hl].
    rewrite join_cons2, !contains_char_app, Hx, Hsep, IH by done. done.
Qed.

Lemma quoted_no_cr x :
  contains_char cr x = false → contains_char cr (quoted x) = false.
Proof. intros Hx. unfold quoted. by rewrite !contains_char_app, Hx. Qed.

Lemma statement_no_cr group :
  plain_group group → contains_char cr (statement (cleaned group)) = false.
Proof.
  destruct group as [k shards]. intros (Hk & Hne & Hplain).
  unfold cleaned. cbn [fst snd] in *.
  assert (Forall (λ x, contains_char cr x = false)
            (quoted <$> (clean_shard <$> shards))) as Hall.
  { rewrite <- list_fmap_compose. apply Forall_fmap.
    eapply Forall_impl; [done|]. intros x Hx. simpl.
    by apply quoted_no_cr, clean_shard_no_cr. }
  unfold statement. destruct (1 <? length (clean_shard <$> shards))%nat.
  - rewrite !contains_char_app, toml_key_no_cr, join_no_cr by done. done.
  - rewrite !contains_char_app, toml_key_no_cr by done.
    destruct shards as [|x shards]; [done|].
    apply Forall_cons in Hall as [Hx _]. cbn [fmap list_fmap head default].
    unfold id. by rewrite Hx.
Qed.

Lemma statement_nonempty k v : toml_key k → statement (k, v) ≠ "".
Proof.
  intros Hk E. destruct (statement_head k v "" Hk) as (a & s & Hs & _).
  rewrite str_app_nil_r in Hs. congruence.
Qed.

(** *** The value of a sharded file *)

Lemma process_shards_groups markers :
  markers ≠ [] →
  (∀ k, k ∈ markers.*1 → toml_key k) →
  (∀ body, body ∈ markers.*2 → plain_text body) →
  let groups := (λ k, (k, bodies_of k markers))
                  <$> keys (group_shards markers) in
  Forall plain_group groups
  ∧ NoDup groups.*1
  ∧ (∀ k, k ∈ markers.*1 → (k, bodies_of k markers) ∈ groups)
  ∧ (∀ k, k ∈ groups.*1 → k ∈ markers.*1)
  ∧ process_shards (shards_of markers)
    = Some (out ← set_all (bound <$> groups) (mkOutput [] []);
            Decoded (data out)).
Proof.
  intros Hne Hkeys Hplain groups.
  destruct (group_shards_bodies markers) as [Hnd Hget].
  assert (∀ k, k ∈ keys (group_shards markers) ↔ k ∈ markers.*1) as Hin.
  { intros k. specialize (Hget k). split.
    - intros [v Hv]%dict_get_keys. rewrite Hv in Hget.
      destruct Hget as [-> Hv'].
      destruct (bodies_of k markers) as [|b l] eqn:E; [done|].
      eapply (bodies_of_elem k b). rewrite E. apply list_elem_of_here.
    - intros Hk%bodies_of_nonempty.
      destruct (dict_get k (group_shards markers)) eqn:E; [|done].
      by eapply dict_get_Some_keys. }
  assert (group_shards markers = cleaned <$> groups) as Hgroups.
  { unfold groups. rewrite <- list_fmap_compose.
    apply (dict_of_keys _ (λ k, clean_shard <$> bodies_of k markers)).
    intros k v Hkv. apply elem_of_dict_get in Hkv; [|done].
    specialize (Hget k). rewrite Hkv in Hget. by destruct Hget. }
  assert (groups.*1 = keys (group_shards markers)) as Hfst.
  { unfold groups. rewrite <- list_fmap_compose. apply list_fmap_id. }
  assert (Forall plain_group groups) as Hall.
  { apply Forall_forall. intros [k bodies] (k' & [= -> ->] & Hk)%list_elem_of_fmap.
    apply Hin in Hk. split_and!; cbn [fst snd].
    - by apply Hkeys.
    - by apply bodies_of_nonempty.
    - apply Forall_forall. intros b [_ Hb]%bodies_of_elem. by apply Hplain. }
  split_and!; [done|by rewrite Hfst| |intros k; rewrite Hfst; apply Hin|].
  { intros k Hk%Hin. apply list_elem_of_fmap. by exists k. }
  unfold process_shards, sharded_toml.
  destruct markers as [|[k0 b0] markers']; [done|].
  change (shards_of ((k0, b0) :: markers'))
    with ("" :: k0 :: b0 :: (markers' ≫= λ m, [m.1; m.2])).
  cbn [fmap option_fmap option_map].
  change ("" :: k0 :: b0 :: (markers' ≫= λ m, [m.1; m.2]))
    with (shards_of ((k0, b0) :: markers')).
  rewrite shard_pairs_shards_of, Hgroups. f_equal.
  set (doc := join (String nl "") (statement <$> (cleaned <$> groups))).
  unfold toml_loads.
  assert (contains_char cr doc = false) as Hcr.
  { apply join_no_cr; [done|]. rewrite <- list_fmap_compose.
    apply Forall_fmap. eapply Forall_impl; [done|].
    intros g Hg. by apply statement_no_cr. }
  rewrite str_replace_absent by done.
  apply statements_join; [done|].
  pose proof (join_length (String nl "") (statement <$> (cleaned <$> groups)))
    as Hlen.
  rewrite !length_fmap in Hlen. fold doc in Hlen.
  assert (length groups ≤ String.length doc)%nat; [|lia].
  apply Hlen.
  intros x ([k v] & -> & (g & -> & Hg)%list_elem_of_fmap)%list_elem_of_fmap.
  rewrite Forall_forall in Hall. destruct (Hall g Hg) as (Hk & _).
  by apply statement_nonempty.
Qed.

Example sharded_text_example :
  sharded_toml [""; "a.b"; " one "; "a.b"; "two"; "c"; "three"]
  = Some ("a.b = [" +:+ quoted "one" +:+ ", " +:+ quoted "two" +:+ "]"
          +:+ String nl "" +:+ "c = " +:+ quoted "three")
  ∧ sharded_toml ["plain text"] = None.
Proof. split; reflexivity. Qed.

Lemma process_shards_bound markers :
  markers ≠ [] →
  (∀ k, k ∈ markers.*1 → toml_key k) →
  (∀ k k', k ∈ markers.*1 → k' ∈ markers.*1 →
           key_parts k `prefix_of` key_parts k' → k = k') →
  (∀ body, body ∈ markers.*2 → plain_text body) →
  ∃ d, process_shards (shards_of markers) = Some (Decoded d)
    ∧ ∀ k, k ∈ markers.*1 →
        lookup_path (key_parts k) (VDict d)
        = Some (bound_value (strip <$> bodies_of k markers)).
Proof.
  intros Hne Hkeys Hfree Hplain.
  destruct (process_shards_groups markers Hne Hkeys Hplain)
    as (Hall & Hnd & Hin & Hids & Hrun).
  set (groups := (λ k, (k, bodies_of k markers))
                   <$> keys (group_shards markers)) in *.
  assert ((bound <$> groups).*1 = key_parts <$> groups.*1) as Hfst.
  { rewrite <- !list_fmap_compose. done. }
  destruct (set_all_spec (bound <$> groups) [] (mkOutput [] []))
    as (out & Hout & Hfound & _).
  - split_and!.
    + intros key v Hin'. by apply elem_of_nil in Hin'.
    + intros q x Hq Hx. by rewrite lookup_path_empty in Hx.
    + intros f Hf. by apply elem_of_nil in Hf.
  - intros key v ([k bodies] & [= -> ->] & _)%list_elem_of_fmap.
    split; [apply split_char_nonempty|].
    intros [d Hd]. unfold bound_value in Hd. cbn [snd] in Hd.
    by destruct (strip <$> bodies) as [|? [|? ?]].
  - rewrite app_nil_l, Hfst. apply NoDup_fmap_2_strong; [|done].
    intros k k' Hk%Hids Hk'%Hids Heq. apply Hfree; [done..|].
    by rewrite Heq.
  - rewrite app_nil_l, Hfst.
    intros key key' (k & -> & Hk%Hids)%list_elem_of_fmap
      (k' & -> & Hk'%Hids)%list_elem_of_fmap Hpre.
    by rewrite (Hfree k k').
  - exists (data out). rewrite Hrun, Hout. split; [done|].
    intros k Hk. apply Hfound. rewrite app_nil_l.
    apply list_elem_of_fmap. exists (k, bodies_of k markers).
    split; [done|]. by apply Hin.
Qed.

(** C3 as the code has it: the marker identifiers being TOML keys (dotted
    sequences of non-empty bare keys) none of which is the beginning of
    another, and the bodies holding no backslash and no control character
    other than tab and newline, the value returned for a sharded file is a
    nest of tables in which an identifier that occurs once is bound, along
    its dotted path, to its body stripped of surrounding white space, and an
    identifier that occurs more than once to the list of its stripped bodies
    in file order. *)
Theorem sharded_text_groups (markers : list (string * string)) :
  markers ≠ [] →
  (∀ k, k ∈ markers.*1 → toml_key k) →
  (∀ k k', k ∈ markers.*1 → k' ∈ markers.*1 →
           key_parts k `prefix_of` key_parts k' → k = k') →
  (∀ body, body ∈ markers.*2 → plain_text body) →
  ∃ d, process_shards (shards_of markers) = Some (Decoded d)
    ∧ (∀ k body, bodies_of k markers = [body] →
         lookup_path (key_parts k) (VDict d) = Some (VStr (strip body)))
    ∧ (∀ k, (1 < length (bodies_of k markers))%nat →
         lookup_path (key_parts k) (VDict d)
         = Some (VList (VStr <$> (strip <$> bodies_of k markers)))).
Proof.
  intros Hne Hkeys Hfree Hplain.
  destruct (process_shards_bound markers Hne Hkeys Hfree Hplain)
    as (d & Hrun & Hbound).
  assert (∀ k, bodies_of k markers ≠ [] → k ∈ markers.*1) as Hin.
  { intros k Hk. destruct (bodies_of k markers) as [|b l] eqn:E; [done|].
    eapply (bodies_of_elem k b). rewrite E. apply list_elem_of_here. }
  exists d. split_and!; [done| |].
  - intros k body Hk. rewrite Hbound by (apply Hin; by rewrite Hk).
    by rewrite Hk.
  - intros k Hk. rewrite Hbound.
    + by destruct (bodies_of k markers) as [|? [|? ?]]; simpl in *; try lia.
    + apply Hin. intros E. rewrite E in Hk. simpl in Hk. lia.
Qed.

(** C3 fails without these conditions.  A body with a backslash: the
    regular expression [\d+] is no TOML string and the file is refused; the
    path [C:\temp\new] is read with a tab and a newline in it.  A body with
    a control character (a form feed between two lines): refused.  An
    identifier that is the beginning of another one ([a] and [a.b] cannot
    both be bound), an identifier with an empty part ([a..b]) or with a
    letter outside ASCII, which the marker pattern accepts: refused. *)
Lemma sharded_text_counterexample :
  process_shards (shards_of [("re", "\d+")]) = Some DecodeError
  ∧ (∃ v, process_shards (shards_of [("path", "C:\temp\new")])
          = Some (Decoded [("path", VStr v)])
          ∧ v = "C:" +:+ String tab "emp" +:+ String nl "ew"
          ∧ v ≠ strip "C:\temp\new")
  ∧ process_shards (shards_of [("text", "one" +:+ String "012" "two")])
    = Some DecodeError
  ∧ process_shards (shards_of [("a", "x"); ("a.b", "y")]) = Some DecodeError
  ∧ process_shards (shards_of [("a..b", "x")]) = Some DecodeError
  ∧ process_shards (shards_of [("é", "x")]) = Some DecodeError.
Proof.
  split_and!; try (vm_compute; reflexivity).
  eexists. split_and!; [vm_compute; reflexivity|reflexivity|].
  vm_compute. intros H. discriminate H.
Qed.

Lemma sharded_text_groups_witness :
  ∃ d, process_shards (shards_of example_markers) = Some (Decoded d)
    ∧ d = [("a", VDict [("b", VList [VStr "shard a.b 1"; VStr "shard a.b 2"])]);
           ("c", VStr "shard c")]
    ∧ lookup_path (key_parts "c") (VDict d) = Some (VStr "shard c")
    ∧ lookup_path (key_parts "a.b") (VDict d)
      = Some (VList [VStr "shard a.b 1"; VStr "shard a.b 2"]).
Proof.
  destruct (sharded_text_groups example_markers) as (d & Hrun & Hone & Hmany).
  - done.
  - intros k Hk. unfold example_markers in Hk. simpl in Hk.
    repeat (apply elem_of_cons in Hk as [->|Hk]);
      [repeat constructor; done..|by apply elem_of_nil in Hk].
  - intros k k' Hk Hk'. unfold example_markers in Hk, Hk'. simpl in Hk, Hk'.
    repeat (apply elem_of_cons in Hk as [->|Hk]);
      repeat (apply elem_of_cons in Hk' as [->|Hk']);
      try (by apply elem_of_nil in Hk); try (by apply elem_of_nil in Hk');
      try done; vm_compute; intros [l Hl]; discriminate Hl.
  - intros body Hb. unfold example_markers in Hb. simpl in Hb.
    repeat (apply elem_of_cons in Hb as [->|Hb]);
      [reflexivity..|by apply elem_of_nil in Hb].
  - assert (process_shards (shards_of example_markers)
            = Some (Decoded
                [("a", VDict [("b", VList [VStr "shard a.b 1";
                                           VStr "shard a.b 2"])]);
                 ("c", VStr "shard c")])) as Hd by (vm_compute; reflexivity).
    exists d. split_and!; [exact Hrun|congruence| |].
    + exact (Hone "c" _ eq_refl).
    + refine (Hmany "a.b" _). vm_compute. lia.
Defined.

(** ** The theorems at concrete inputs *)

Lemma process_weight_spec_witness :
  process_weight [] "blog/post" = Ok (Some 0)
  ∧ process_weight [("weight", VStr "heavy")] "blog/post" = Raise TypeError.
Proof.
  split.
  - exact (proj1 (process_weight_spec [] "blog/post") eq_refl).
  - refine (proj2 (proj2 (proj2
      (process_weight_spec [("weight", VStr "heavy")] "blog/post")))
      (VStr "heavy") eq_refl _).
    simpl. discriminate.
Defined.

Lemma fix_siblings_reaches_every_page_witness :
  ∃ pages' p' sibs,
    fix_siblings example_pages = Ok pages'
    ∧ dict_get "d/note" pages' = Some p'
    ∧ Page.path p' = ""
    ∧ Page.siblings p' = ["d/b"; "d/a"; "d/c"]
    ∧ Page.lighter p' = Some "d/c"
    ∧ Page.heavier p' = None
    ∧ (∀ s, s ∈ sibs ↔ ordered example_pages s ∧ dirname s = "d")
    ∧ sort_siblings sibs "d/note" example_pages
      = Ok (["d/b"; "d/a"; "d/c"], Some "d/c", None)
    ∧ (∀ s, s ∈ Page.siblings p' ↔
            ordered example_pages s ∧ dirname s = "d" ∧ s ≠ "d/note")
    ∧ ∀ q p2, dict_get q pages' = Some p2 →
        (∃ o, ordered example_pages o ∧ dirname o = dirname q) →
        "d/note" ∉ Page.siblings p2.
Proof.
  destruct (fix_siblings_reaches_every_page example_pages)
    as (pages' & Hrun & Hall).
  destruct (Hall "d/note" _ eq_refl) as [Hsome _].
  destruct Hsome
    as (p' & sibs & Hget & _ & Hiff & Hr & _ & Hmem & Hnot & _).
  { exists "d/a". split; [|reflexivity].
    eexists _, _. split_and!; [reflexivity..|discriminate]. }
  assert (fix_siblings example_pages = Ok (fixed_example_pages)) as Hrun'
    by (vm_compute; reflexivity).
  assert (pages' = fixed_example_pages) as -> by congruence.
  assert (p' = Page.mk "d/note" "" "d" "" [] [] [] [] (Some 7)
                 ["d/b"; "d/a"; "d/c"] (Some "d/c") None) as Hp'.
  { vm_compute in Hget. congruence. }
  assert (Page.siblings p' = ["d/b"; "d/a"; "d/c"]) as Hs by by rewrite Hp'.
  assert (Page.lighter p' = Some "d/c") as Hl by by rewrite Hp'.
  assert (Page.heavier p' = None) as Hh by by rewrite Hp'.
  exists fixed_example_pages, p', sibs.
  split_and!;
    [exact Hrun|exact Hget|by rewrite Hp'|exact Hs|exact Hl|exact Hh
    |exact Hiff|by rewrite Hr, Hs, Hl, Hh|exact Hmem|exact (Hnot eq_refl)].
Defined.

Lemma quick_mode_skips_iff_newer_witness :
  newer site_public post_task
  ∧ ¬ newer site_public index_task
  ∧ NoDup (output_path <$> site_tasks)
  ∧ output_task post_render (λ _, 10) true site_public post_task
    = Ok (site_public, [])
  ∧ output_task post_render (λ _, 10) true site_public index_task
    = output_task post_render (λ _, 10) false site_public index_task
  ∧ ∃ r, output_site post_render (λ _, 10) true site_tasks site_public = Ok r
         ∧ rendered r.2 = filter (λ t, ¬ newer site_public t) site_tasks
         ∧ rendered r.2 = [index_task].
Proof.
  assert (newer site_public post_task) as Hpost.
  { exists (mkFile "hello" 9). split; [reflexivity|]. simpl. lia. }
  assert (¬ newer site_public index_task) as Hindex.
  { intros (f & Hf & Hlt). vm_compute in Hf. injection Hf as <-.
    simpl in Hlt. lia. }
  assert (NoDup (output_path <$> site_tasks)) as Hnd by by_computation.
  assert (output_site post_render (λ _, 10) true site_tasks site_public
          = Ok (site_public, [Rendering index_task])) as Hrun
    by (vm_compute; reflexivity).
  pose proof (quick_mode_skips_iff_newer post_render (λ _, 10) site_public
                post_task) as (Hskip & _).
  pose proof (quick_mode_skips_iff_newer post_render (λ _, 10) site_public
                index_task) as (_ & Hfull & _ & _ & Hquick & _).
  split_and!; [exact Hpost|exact Hindex|exact Hnd
              |exact (proj2 Hskip Hpost)|exact (Hfull Hindex)|].
  eexists. split_and!; [exact Hrun|exact (Hquick _ _ Hnd Hrun)|reflexivity].
Defined.

(** ** The iteration order of the sibling set does not matter *)

Lemma isort_pure_order (w : string → Z) (l1 l2 : list string) :
  NoDup l1 → l1 ≡ₚ l2 →
  isort_pure (key_ltb w) [] l1 = isort_pure (key_ltb w) [] l2.
Proof.
  intros Hnd Hperm.
  assert (AntiSymm (=) (key_lt w)) as Hanti.
  { intros a b Hab Hba. apply key_lt_le, key_ltb_false in Hab.
    apply key_ltb_spec in Hba. congruence. }
  apply (StronglySorted_unique (key_lt w)).
  - by apply isort_pure_strict.
  - apply isort_pure_strict. by rewrite <- Hperm.
  - by rewrite !isort_pure_perm.
Qed.

(** X1: whatever order the set of siblings is walked in, [sort_siblings]
    returns the same list and the same neighbors. *)
Lemma sort_siblings_set_order (s1 s2 : list string) (me : string)
    (pages : dict Page.t) :
  NoDup s1 → s1 ≡ₚ s2 → Forall (weighted pages) s1 →
  is_Some (dict_get me pages) →
  sort_siblings s1 me pages = sort_siblings s2 me pages.
Proof.
  intros Hnd Hperm Hall [p Hp].
  assert (Forall (weighted pages) s2) as Hall2 by by rewrite <- Hperm.
  rewrite (sort_siblings_eval s1 me pages p), (sort_siblings_eval s2 me pages p)
    by done.
  destruct (Page.weight p); simpl.
  - assert (∀ P `{!∀ x, Decision (P x)},
              isort_pure (key_ltb (weight_of pages)) []
                (filter P (set_discard me s1))
              = isort_pure (key_ltb (weight_of pages)) []
                  (filter P (set_discard me s2))) as Heq.
    { intros P ?. apply isort_pure_order.
      - by do 2 apply NoDup_filter.
      - unfold set_discard. by rewrite Hperm. }
    by rewrite !Heq.
  - by rewrite (isort_pure_order _ s1 s2).
Qed.

Lemma sort_siblings_set_order_witness :
  sort_siblings ["d/c"; "d/a"; "d/b"] "d/a" example_pages
  = sort_siblings ["d/b"; "d/c"; "d/a"] "d/a" example_pages.
Proof.
  apply sort_siblings_set_order.
  - by_computation.
  - by_computation.
  - repeat constructor; has_weight.
  - eexists. reflexivity.
Defined.

(** ** Sorting pages with and without weight *)

Section MixedSort.
Context (pages : dict Page.t).

Let deco (a : string) : sort_key * string := ((weight_opt pages a, a), a).
Let cls (x : sort_key * string) : bool := bool_decide (is_Some x.1.1).

Lemma key_known a :
  is_Some (dict_get a pages) → key pages a = Ok (weight_opt pages a, a).
Proof.
  intros [p Hp]. unfold key, getitem, weight_opt. by rewrite Hp.
Qed.

Lemma decorate_known l :
  Forall (λ a, is_Some (dict_get a pages)) l →
  decorate (key pages) l = Ok (deco <$> l).
Proof.
  induction 1 as [|a l Ha Hl IH]; csimpl; [done|].
  rewrite key_known by done. csimpl. by rewrite IH.
Qed.

Lemma tuple_lt_cases (x y : sort_key * string) :
  if bool_decide (cls x = cls y)
  then ∃ b, tuple_lt x.1 y.1 = Ok b
  else tuple_lt x.1 y.1 = Raise TypeError.
Proof.
  unfold cls, tuple_lt.
  destruct x as [[[wx|] ax] ?], y as [[[wy|] ay] ?]; simpl.
  - destruct (wx =? wy); eauto.
  - done.
  - done.
  - eauto.
Qed.

Lemma insort_cross x y acc :
  cls x ≠ cls y → insort tuple_lt x (y :: acc) = Raise TypeError.
Proof.
  intros Hne. csimpl. pose proof (tuple_lt_cases x y) as H.
  rewrite bool_decide_false in H by done. by rewrite H.
Qed.

Lemma insort_homog c x acc :
  cls x = c → Forall (λ y, cls y = c) acc →
  ∃ r, insort tuple_lt x acc = Ok r ∧ r ≡ₚ x :: acc.
Proof.
  intros Hx. induction 1 as [|y acc Hy Hacc IH]; csimpl.
  { by exists [x]. }
  pose proof (tuple_lt_cases x y) as H.
  rewrite bool_decide_true in H by congruence.
  destruct H as [b ->]. csimpl. destruct b.
  - by eexists.
  - destruct IH as (r & -> & Hr). csimpl. eexists. split; [done|].
    rewrite Hr. apply Permutation_swap.
Qed.

Lemma isort_go_homog c acc d :
  Forall (λ y, cls y = c) acc → Forall (λ y, cls y = c) d →
  ∃ r, isort_go tuple_lt acc d = Ok r ∧ r ≡ₚ acc ++ d.
Proof.
  intros Hacc Hd. revert acc Hacc.
  induction Hd as [|x d Hx Hd IH]; intros acc Hacc; csimpl.
  { exists acc. by rewrite app_nil_r. }
  destruct (insort_homog c x acc Hx Hacc) as (r & -> & Hr). csimpl.
  destruct (IH r) as (r' & Hr' & Hperm).
  { rewrite Hr. by constructor. }
  exists r'. split; [done|]. rewrite Hperm, Hr. simpl.
  apply Permutation_middle.
Qed.

Lemma isort_go_cross c acc d1 x d2 :
  Forall (λ y, cls y = c) acc → Forall (λ y, cls y = c) d1 →
  cls x ≠ c → acc ++ d1 ≠ [] →
  isort_go tuple_lt acc (d1 ++ x :: d2) = Raise TypeError.
Proof.
  intros Hacc Hd1 Hx. revert acc Hacc.
  induction Hd1 as [|z d1 Hz Hd1 IH]; intros acc Hacc Hne; csimpl.
  - rewrite app_nil_r in Hne. destruct acc as [|y acc]; [done|].
    rewrite insort_cross; [done|]. inv Hacc. congruence.
  - destruct (insort_homog c z acc Hz Hacc) as (r & -> & Hr). csimpl.
    apply IH.
    + rewrite Hr. by constructor.
    + intros [E _]%app_eq_nil. rewrite E in Hr.
      by apply Permutation_nil_cons in Hr.
Qed.

Lemma first_of_other_class {B} (f : B → bool) (c : bool) (l : list B) :
  Forall (λ y, f y = c) l
  ∨ ∃ d1 x d2, l = d1 ++ x :: d2 ∧ Forall (λ y, f y = c) d1 ∧ f x ≠ c.
Proof.
  induction l as [|a l IH]; [by left|].
  destruct (decide (f a = c)) as [Ha|Ha].
  - destruct IH as [IH|(d1 & x & d2 & -> & Hd1 & Hx)].
    + left. by constructor.
    + right. exists (a :: d1), x, d2. split_and!; [done| |done].
      by constructor.
  - right. by exists [], a, l.
Qed.

Lemma sorted_mixed l :
  Forall (λ a, is_Some (dict_get a pages)) l → mixed pages l →
  sorted (key pages) tuple_lt l = Raise TypeError.
Proof.
  intros Hknown [(a & Ha & Hwa) (b & Hb & Hwb)].
  unfold sorted. rewrite decorate_known by done. csimpl.
  destruct l as [|h l]; [by apply elem_of_nil in Ha|].
  destruct (first_of_other_class (λ a, cls (deco a)) (cls (deco h)) (h :: l))
    as [Hall|(d1 & x & d2 & Hl & Hd1 & Hx)].
  - rewrite Forall_forall in Hall.
    pose proof (Hall a Ha) as Ea. pose proof (Hall b Hb) as Eb.
    unfold cls, deco in Ea, Eb. simpl in Ea, Eb.
    rewrite Hwb in Eb. rewrite bool_decide_true in Ea by done.
    rewrite <- Ea in Eb. by apply bool_decide_eq_true in Eb as [? [=]].
  - rewrite Hl, fmap_app, fmap_cons.
    rewrite (isort_go_cross (cls (deco h))); [done|constructor| |done|].
    + by apply Forall_fmap.
    + destruct d1 as [|? d1]; [|done]. simpl in Hl. injection Hl as -> _.
      done.
Qed.

Lemma sorted_unmixed l :
  Forall (λ a, is_Some (dict_get a pages)) l → ¬ mixed pages l →
  ∃ r, sorted (key pages) tuple_lt l = Ok r ∧ r ≡ₚ l.
Proof.
  intros Hknown Hunmixed.
  unfold sorted. rewrite decorate_known by done. csimpl.
  assert (∃ c, Forall (λ y, cls y = c) (deco <$> l)) as [c Hc].
  { destruct l as [|h l]; [by exists true|].
    exists (cls (deco h)).
    destruct (first_of_other_class (λ a, cls (deco a)) (cls (deco h)) (h :: l))
      as [Hall|(d1 & x & d2 & Hl & Hd1 & Hx)]; [by apply Forall_fmap|].
    destruct Hunmixed.
    assert (h ∈ h :: l) as Hh by apply list_elem_of_here.
    assert (x ∈ h :: l) as Hxin.
    { rewrite Hl. apply elem_of_app. right. apply list_elem_of_here. }
    unfold cls, deco in Hx. simpl in Hx.
    destruct (weight_opt pages h) as [wh|] eqn:Eh,
             (weight_opt pages x) as [wx|] eqn:Ex.
    - by rewrite !bool_decide_true in Hx by done.
    - split; [exists h|exists x]; by rewrite ?Eh.
    - split; [exists x|exists h]; by rewrite ?Ex.
    - by rewrite !bool_decide_false in Hx by by intros [? [=]]. }
  destruct (isort_go_homog c [] (deco <$> l)) as (r & -> & Hr);
    [constructor|done|].
  csimpl. eexists. split; [done|]. rewrite Hr. simpl.
  rewrite <- list_fmap_compose. by rewrite list_fmap_id.
Qed.

End MixedSort.

(** ** The tag index in general *)

Lemma holds_lists_append d f k x :
  holds_lists d f →
  holds_lists (setdefault_append k x d)
    (λ t, f t ++ if decide (k = t) then [x] else []).
Proof.
  intros Hd t. unfold setdefault_append. rewrite dict_get_setitem.
  specialize (Hd t). case_decide as E.
  - subst t. rewrite decide_True by done. unfold get_default.
    destruct (dict_get k d) as [l|].
    + destruct Hd as [-> _]. split; [done|]. by intros ?%app_nil_r_inv.
    + rewrite Hd. split; [done|]. done.
  - rewrite decide_False by done. by rewrite app_nil_r.
Qed.

Lemma holds_lists_ext d f g :
  (∀ k, f k = g k) → holds_lists d f → holds_lists d g.
Proof. intros Hfg Hd k. specialize (Hd k). by rewrite <- Hfg. Qed.

Lemma collect_tags_spec (pages : dict Page.t) :
  NoDup (keys (collect_tags pages))
  ∧ holds_lists (collect_tags pages) (λ t, tagged t pages).
Proof.
  unfold collect_tags, tagged.
  induction (values pages) as [|v vs [IHnd IH]] using rev_ind.
  { split; [apply NoDup_nil_2|done]. }
  rewrite foldl_app. simpl.
  set (acc := foldl _ [] vs) in *.
  assert (∀ ts,
    NoDup (keys (foldl (λ tags tag, setdefault_append tag (Page.id v) tags)
                   acc ts))
    ∧ holds_lists
        (foldl (λ tags tag, setdefault_append tag (Page.id v) tags) acc ts)
        (λ t, (vs ≫= λ v, (λ _, Page.id v)
                            <$> filter (λ t', t' = t) (Page.tags v))
              ++ ((λ _, Page.id v) <$> filter (λ t', t' = t) ts))) as Hinner.
  { induction ts as [|tag ts [IHnd' IH']] using rev_ind.
    { split; [done|]. eapply holds_lists_ext; [|exact IH].
      intros k. by rewrite app_nil_r. }
    rewrite foldl_app. simpl. split.
    - unfold setdefault_append. by apply NoDup_keys_setitem.
    - eapply holds_lists_ext; [|by apply holds_lists_append].
      intros k. simpl. rewrite filter_app, fmap_app, <- app_assoc. f_equal.
      f_equal. rewrite filter_cons, filter_nil. by case_decide. }
  destruct (Hinner (Page.tags v)) as [Hnd Hholds]. split; [done|].
  eapply holds_lists_ext; [|exact Hholds].
  intros k. rewrite bind_app. csimpl. by rewrite app_nil_r.
Qed.

Lemma tagged_known (pages : dict Page.t) (tag : string) :
  ids_are_keys pages →
  Forall (λ a, is_Some (dict_get a pages)) (tagged tag pages).
Proof.
  intros Hids. apply Forall_forall. intros a Ha.
  unfold tagged in Ha. apply list_elem_of_bind in Ha as (v & Ha & Hv).
  apply list_elem_of_fmap in Ha as (t & -> & _). by apply Hids.
Qed.

Lemma mixed_dec (pages : dict Page.t) (l : list string) :
  mixed pages l ∨ ¬ mixed pages l.
Proof.
  unfold mixed.
  destruct (decide (Exists (λ a, is_Some (weight_opt pages a)) l)) as [H1|H1].
  2:{ right. intros [(a & Ha & Hw) _]. apply H1, Exists_exists. eauto. }
  destruct (decide (Exists (λ b, weight_opt pages b = None) l)) as [H2|H2].
  2:{ right. intros [_ (b & Hb & Hw)]. apply H2, Exists_exists. eauto. }
  left. apply Exists_exists in H1, H2. done.
Qed.

Section SortTags.
Context (pages : dict Page.t).

Lemma sort_tags_unmixed ks (tags : dict (list string)) :
  (∀ k, k ∈ ks → ∃ l, dict_get k tags = Some l
                      ∧ Forall (λ a, is_Some (dict_get a pages)) l
                      ∧ ¬ mixed pages l) →
  ∃ tags', sort_tags pages ks tags = Ok tags'
    ∧ keys tags' = keys tags
    ∧ ∀ k, match dict_get k tags with
           | Some l => ∃ l', dict_get k tags' = Some l' ∧ l' ≡ₚ l
           | None => dict_get k tags' = None
           end.
Proof.
  revert tags. induction ks as [|k0 ks IH]; intros tags Hks; csimpl.
  { exists tags. split_and!; [done..|]. intros k.
    destruct (dict_get k tags); eauto. }
  destruct (Hks k0) as (l0 & Hl0 & Hknown & Hun); [apply list_elem_of_here|].
  unfold getitem. rewrite Hl0. csimpl.
  destruct (sorted_unmixed pages l0 Hknown Hun) as (r & -> & Hr). csimpl.
  destruct (IH (setitem k0 r tags)) as (tags' & Hrun & Hkeys & Hget).
  { intros k Hk. rewrite dict_get_setitem. case_decide as E.
    - subst. exists r. split; [done|]. split.
      + by rewrite Hr.
      + intros [(a & Ha & Hwa) (b & Hb & Hwb)]. apply Hun.
        rewrite Hr in Ha, Hb. split; eauto.
    - apply Hks. by apply list_elem_of_further. }
  exists tags'. split_and!; [done| |].
  - rewrite Hkeys. apply keys_setitem_in. by eapply dict_get_Some_keys.
  - intros k. specialize (Hget k). rewrite dict_get_setitem in Hget.
    case_decide as E.
    + subst. rewrite Hl0. destruct Hget as (l' & Hl' & Hperm).
      exists l'. split; [done|]. by rewrite Hperm.
    + done.
Qed.

Lemma sort_tags_mixed ks (tags : dict (list string)) :
  NoDup ks →
  (∀ k, k ∈ ks → ∃ l, dict_get k tags = Some l
                      ∧ Forall (λ a, is_Some (dict_get a pages)) l) →
  (∃ k l, k ∈ ks ∧ dict_get k tags = Some l ∧ mixed pages l) →
  sort_tags pages ks tags = Raise TypeError.
Proof.
  revert tags. induction ks as [|k0 ks IH]; intros tags Hnd Hks Hmixed; csimpl.
  { destruct Hmixed as (k & l & Hk & _). by apply elem_of_nil in Hk. }
  apply NoDup_cons in Hnd as [Hnotin Hnd].
  destruct (Hks k0) as (l0 & Hl0 & Hknown); [apply list_elem_of_here|].
  unfold getitem. rewrite Hl0. csimpl.
  destruct (mixed_dec pages l0) as [Hm|Hun].
  - by rewrite sorted_mixed.
  - destruct (sorted_unmixed pages l0 Hknown Hun) as (r & -> & Hr). csimpl.
    apply IH; [done| |].
    + intros k Hk. rewrite dict_get_setitem_ne by by intros ->.
      apply Hks. by apply list_elem_of_further.
    + destruct Hmixed as (k & l & Hk & Hl & Hm).
      apply elem_of_cons in Hk as [->|Hk]; [by simplify_eq|].
      exists k, l. split_and!; [done| |done].
      by rewrite dict_get_setitem_ne by by intros ->.
Qed.

End SortTags.

Lemma exists_or_all {B} (P : B → Prop) (l : list B) :
  (∀ x, P x ∨ ¬ P x) → (∃ x, x ∈ l ∧ P x) ∨ (∀ x, x ∈ l → ¬ P x).
Proof.
  intros Hdec. induction l as [|a l IH].
  { right. intros x Hx. by apply elem_of_nil in Hx. }
  destruct (Hdec a) as [Ha|Ha].
  { left. exists a. split; [apply list_elem_of_here|done]. }
  destruct IH as [(x & Hx & HP)|IH].
  - left. exists x. split; [by apply list_elem_of_further|done].
  - right. intros x [->|Hx]%elem_of_cons; auto.
Qed.

(** X3: when the pages are stored under their identifiers, [process_tags]
    raises [TypeError] exactly when some tag is carried both by a page with
    an integer weight and by a page without weight; otherwise it returns,
    for every tag, a reordering of the identifiers of the pages that carry
    it. *)
Theorem process_tags_raises_iff_mixed (pages : dict Page.t) :
  ids_are_keys pages →
  (process_tags pages = Raise TypeError
   ↔ ∃ tag, mixed pages (tagged tag pages))
  ∧ ((∀ tag, ¬ mixed pages (tagged tag pages)) →
     ∃ tags, process_tags pages = Ok tags
       ∧ ∀ tag, match dict_get tag tags with
                | Some l => l ≡ₚ tagged tag pages ∧ l ≠ []
                | None => tagged tag pages = []
                end).
Proof.
  intros Hids. unfold process_tags.
  destruct (collect_tags_spec pages) as [Hnd Hholds].
  set (tags0 := collect_tags pages) in *.
  assert (∀ k, k ∈ keys tags0 →
            dict_get k tags0 = Some (tagged k pages)) as Hkeys.
  { intros k [l Hl]%dict_get_keys. specialize (Hholds k). rewrite Hl in Hholds.
    destruct Hholds as [-> _]. done. }
  assert ((∀ tag, ¬ mixed pages (tagged tag pages)) →
          ∃ tags, sort_tags pages (keys tags0) tags0 = Ok tags
            ∧ ∀ tag, match dict_get tag tags with
                     | Some l => l ≡ₚ tagged tag pages ∧ l ≠ []
                     | None => tagged tag pages = []
                     end) as Hok.
  { intros Hun.
    destruct (sort_tags_unmixed pages (keys tags0) tags0)
      as (tags & Hrun & _ & Hget).
    { intros k Hk. exists (tagged k pages). split_and!; [auto| |auto].
      by apply tagged_known. }
    exists tags. split; [done|]. intros tag.
    specialize (Hget tag). specialize (Hholds tag).
    destruct (dict_get tag tags0) as [l|].
    - destruct Hget as (l' & -> & Hperm). destruct Hholds as [<- Hne].
      split; [done|]. intros ->. by apply Permutation_nil in Hperm.
    - by rewrite Hget. }
  assert (∀ tag, mixed pages (tagged tag pages) → tag ∈ keys tags0) as Hin.
  { intros tag Hm. destruct (decide (tag ∈ keys tags0)) as [|Hout]; [done|].
    apply dict_get_None_keys in Hout. specialize (Hholds tag).
    rewrite Hout in Hholds. rewrite Hholds in Hm.
    destruct Hm as [(a & Ha & _) _]. by apply elem_of_nil in Ha. }
  split; [|done]. split.
  - intros Hraise.
    destruct (exists_or_all (λ k, mixed pages (tagged k pages)) (keys tags0))
      as [(k & _ & Hm)|Hnone]; [intros k; apply mixed_dec|by exists k|].
    destruct Hok as (tags & Hrun & _); [|congruence].
    intros tag Hm. exact (Hnone tag (Hin tag Hm) Hm).
  - intros (tag & Hm). apply sort_tags_mixed; [done| |].
    + intros k Hk. exists (tagged k pages). split; [auto|].
      by apply tagged_known.
    + exists tag, (tagged tag pages). auto.
Qed.

Lemma process_tags_raises_iff_mixed_witness :
  ids_are_keys example_pages
  ∧ mixed example_pages (tagged "t" example_pages)
  ∧ process_tags example_pages = Raise TypeError.
Proof.
  assert (ids_are_keys example_pages) as Hids.
  { intros v Hv. unfold values in Hv.
    apply list_elem_of_fmap in Hv as ([k p] & -> & Hkp).
    repeat (apply elem_of_cons in Hkp as [[= -> ->]|Hkp]; [by eexists|]).
    by apply elem_of_nil in Hkp. }
  assert (mixed example_pages (tagged "t" example_pages)) as Hm.
  { split.
    - exists "d/c". split; [apply list_elem_of_here|]. by eexists.
    - exists "d/index". split; [|reflexivity].
      apply list_elem_of_further, list_elem_of_here. }
  split_and!; [done..|].
  apply (proj1 (process_tags_raises_iff_mixed example_pages Hids)).
  by exists "t".
Defined.

(** ** Further properties *)

(** X2: [process_versioned] reads a file named [<stem>.<N>.<ext>] (in any
    directory, with a stem that is not made of dots only) as version
    [int(N)] of [<stem>.<ext>]. *)
Theorem versioned_file_name (prefix stem n ext : string) (v : Z) :
  prefix = "" ∨ (∃ d, prefix = d +:+ "/") →
  contains_char "/" stem = false → lstrip_char "." stem ≠ "" →
  contains_char "/" n = false → contains_char "." n = false →
  py_int n = Ok v →
  contains_char "/" ext = false → contains_char "." ext = false → ext ≠ "" →
  versioned (prefix +:+ stem +:+ "." +:+ n +:+ "." +:+ ext)
  = Ok (v, prefix +:+ stem +:+ "." +:+ ext).
Proof. apply versioned_shape. Qed.

Lemma versioned_file_name_witness :
  versioned "css/site.min.12.css" = Ok (12, "css/site.min.css").
Proof.
  apply (versioned_file_name "css/" "site.min" "12" "css" 12);
    first [ right; by exists "css" | done | reflexivity ].
Defined.

(** X4: [fix_siblings] never raises and changes nothing but the three
    sibling fields of the pages. *)
Theorem fix_siblings_frame (pages : dict Page.t) :
  ∃ pages', fix_siblings pages = Ok pages' ∧
    ∀ k, match dict_get k pages, dict_get k pages' with
         | Some p, Some p' =>
             p' = Page.replace_siblings p (Page.siblings p') (Page.lighter p')
                    (Page.heavier p')
         | None, None => True
         | _, _ => False
         end.
Proof.
  destruct (fix_siblings_spec pages) as (sd & pages' & _ & Hrun & Hfixed).
  exists pages'. split; [done|]. intros k. rewrite Hfixed.
  destruct (dict_get k pages) as [p|]; simpl; [|done].
  unfold fixed. destruct (dict_get (dirname k) sd); [|by destruct p].
  destruct (sort_siblings _ _ _); by destruct p.
Qed.

(** ** The order of the walk does not matter for the version map *)

Lemma foldl_max_perm (l1 l2 : list Z) (a : Z) :
  l1 ≡ₚ l2 → foldl Z.max a l1 = foldl Z.max a l2.
Proof.
  intros Hperm. revert a.
  induction Hperm as [|x l1 l2 _ IH|x y l|l1 l2 l3 _ IH1 _ IH2]; intros a; simpl.
  - done.
  - apply IH.
  - f_equal. lia.
  - by rewrite IH1.
Qed.

Lemma versions_of_perm key (paths1 paths2 : list string) :
  paths1 ≡ₚ paths2 → versions_of key paths1 ≡ₚ versions_of key paths2.
Proof. intros Hperm. unfold versions_of. by rewrite Hperm. Qed.

Lemma positive_map_eq (m1 m2 : gmap string Z) :
  map_Forall (λ _ x, 0 < x) m1 → map_Forall (λ _ x, 0 < x) m2 →
  (∀ k, default 0 (m1 !! k) = default 0 (m2 !! k)) → m1 = m2.
Proof.
  intros H1 H2 Heq. apply map_eq. intros k. specialize (Heq k).
  destruct (m1 !! k) as [v1|] eqn:E1, (m2 !! k) as [v2|] eqn:E2; simpl in Heq.
  - by subst.
  - apply H1 in E1. lia.
  - apply H2 in E2. lia.
  - done.
Qed.

(** X5: the version map does not depend on the order in which the walk visits
    the files: two walks over the same files give the same map. *)
Theorem walk_versioned_any_order (paths1 paths2 : list string) :
  paths1 ≡ₚ paths2 →
  ∃ m, walk_versioned paths1 ∅ = Ok m ∧ walk_versioned paths2 ∅ = Ok m.
Proof.
  intros Hperm.
  destruct (walk_versioned_lookup paths1 ∅) as (m1 & Hrun1 & Hlook1).
  destruct (walk_versioned_lookup paths2 ∅) as (m2 & Hrun2 & Hlook2).
  exists m1. split; [done|]. rewrite Hrun2. f_equal. symmetry.
  apply positive_map_eq.
  - eapply walk_versioned_positive; [|done]. apply map_Forall_empty.
  - eapply walk_versioned_positive; [|done]. apply map_Forall_empty.
  - intros k. rewrite Hlook1, Hlook2. apply foldl_max_perm.
    by apply versions_of_perm.
Qed.

Lemma walk_versioned_any_order_witness :
  ∃ m, walk_versioned ["css/a.1.css"; "b.txt"; "css/a.3.css"; "css/a.2.css"] ∅
       = Ok m
     ∧ walk_versioned ["css/a.3.css"; "css/a.2.css"; "b.txt"; "css/a.1.css"] ∅
       = Ok m.
Proof.
  apply walk_versioned_any_order. by_computation.
Defined.

(** ** What a run leaves in the output directory *)

Section RunFacts.
Context (render : Task → result string) (now : Task → Z).

Lemma output_task_keeps quick public task r p :
  output_task render now quick public task = Ok r →
  is_Some (public !! p) → is_Some (r.1 !! p).
Proof.
  intros Hrun Hp.
  apply output_task_log in Hrun as [->|[->|(? & _ & _ & ->)]]; [done..|].
  simpl. destruct (decide (p = output_path task)) as [->|Hne].
  - rewrite lookup_insert_eq. by eexists.
  - by rewrite lookup_insert_ne.
Qed.

Lemma output_site_keeps quick tasks public r p :
  output_site render now quick tasks public = Ok r →
  is_Some (public !! p) → is_Some (r.1 !! p).
Proof.
  revert public r. induction tasks as [|task tasks IH]; intros public r; csimpl.
  { by intros [= <-]. }
  intros Hrun Hp.
  destruct (output_task render now quick public task) as [r1|] eqn:H1;
    csimpl in *; [|done].
  destruct (output_site render now quick tasks r1.1) as [r2|] eqn:H2;
    csimpl in *; [|done].
  injection Hrun as <-. simpl.
  eapply IH; [done|]. by eapply output_task_keeps.
Qed.

(** The file of a task after its step. *)
Lemma output_task_result quick public task r :
  output_task render now quick public task = Ok r →
  (quick = true ∧ r.1 = public
   ∧ ∃ f, public !! output_path task = Some f ∧ latest_timestamp task < mtime f)
  ∨ ∃ f output, render task = Ok output
      ∧ r.1 !! output_path task = Some f
      ∧ (raw f = output ∨ read_text f = output).
Proof.
  unfold output_task.
  destruct (public !! output_path task) as [f0|] eqn:Hf0.
  - destruct quick; simpl.
    + destruct (Z.ltb_spec (latest_timestamp task) (mtime f0)) as [Hlt|Hge].
      { intros [= <-]. left. split_and!; [done..|]. by exists f0. }
      destruct (render task) as [output|e]; csimpl; [|done].
      case_bool_decide as E; intros [= <-]; right; simpl.
      * exists f0, output. split_and!; [done..|]. right. congruence.
      * eexists _, output. rewrite lookup_insert_eq. split_and!; [done..|].
        by left.
    + destruct (render task) as [output|e]; csimpl; [|done].
      case_bool_decide as E; intros [= <-]; right; simpl.
      * exists f0, output. split_and!; [done..|]. right. congruence.
      * eexists _, output. rewrite lookup_insert_eq. split_and!; [done..|].
        by left.
  - destruct (render task) as [output|e]; csimpl; [|done].
    intros [= <-]. right. simpl.
    eexists _, output. rewrite lookup_insert_eq. split_and!; [done..|].
    by left.
Qed.

End RunFacts.

(** X6: after a run that ended, a file of the output directory that no task
    writes to is as it was, and no file has been removed: the outputs of
    pages that no longer exist stay in place. *)
Theorem output_site_leaves_other_files (render : Task → result string)
    (now : Task → Z) (quick : bool) (tasks : list Task)
    (public : gmap string file) (r : gmap string file * list event) :
  output_site render now quick tasks public = Ok r →
  (∀ p, p ∉ output_path <$> tasks → r.1 !! p = public !! p)
  ∧ (∀ p, is_Some (public !! p) → is_Some (r.1 !! p))
  ∧ (∀ p, p ∈ writes r.2 → p ∈ output_path <$> tasks).
Proof.
  intros Hrun. split_and!.
  - intros p Hp. by eapply output_site_frame.
  - intros p. by eapply output_site_keeps.
  - revert public r Hrun.
    induction tasks as [|task tasks IH]; intros public r; csimpl.
    { intros [= <-] p Hp. by apply elem_of_nil in Hp. }
    destruct (output_task render now quick public task) as [r1|] eqn:H1;
      csimpl; [|done].
    destruct (output_site render now quick tasks r1.1) as [r2|] eqn:H2;
      csimpl; [|done].
    intros [= <-] p. simpl. unfold writes. rewrite omap_app, elem_of_app.
    intros [Hp|Hp].
    + apply output_task_log in H1 as [->|[->|(? & _ & _ & ->)]]; simpl in Hp.
      * by apply elem_of_nil in Hp.
      * by apply elem_of_nil in Hp.
      * apply list_elem_of_singleton in Hp as ->. apply list_elem_of_here.
    + apply list_elem_of_further. by eapply IH.
Qed.

Lemma output_site_leaves_other_files_witness :
  output_site post_render (λ _, 10) false [post_task]
    {[ "old.html" := mkFile "stale" 1 ]}
  = Ok (<[ "post.html" := mkFile "hello" 10 ]>
          {[ "old.html" := mkFile "stale" 1 ]},
        [Rendering post_task; Wrote "post.html"])
  ∧ (<[ "post.html" := mkFile "hello" 10 ]>
       ({[ "old.html" := mkFile "stale" 1 ]} : gmap string file)) !! "old.html"
    = ({[ "old.html" := mkFile "stale" 1 ]} : gmap string file) !! "old.html".
Proof.
  assert (output_site post_render (λ _, 10) false [post_task]
            {[ "old.html" := mkFile "stale" 1 ]}
          = Ok (<[ "post.html" := mkFile "hello" 10 ]>
                  {[ "old.html" := mkFile "stale" 1 ]},
                [Rendering post_task; Wrote "post.html"])) as Hrun.
  { reflexivity. }
  split; [done|].
  apply (proj1 (output_site_leaves_other_files post_render (λ _, 10) false
                  [post_task] {[ "old.html" := mkFile "stale" 1 ]} _ Hrun)).
  by_computation.
Defined.

(** X7: when no two tasks share an output path, a run that ended leaves for
    every task its output file, and the file holds the text rendered for the
    task (as written, or as read back when the file was already there),
    unless the run was in quick mode and the file was newer than the sources
    of the task, in which case it is the file found at the start. *)
Theorem output_site_files (render : Task → result string)
    (now : Task → Z) (quick : bool) (tasks : list Task)
    (public : gmap string file) (r : gmap string file * list event) :
  NoDup (output_path <$> tasks) →
  output_site render now quick tasks public = Ok r →
  ∀ task, task ∈ tasks →
    ∃ f, r.1 !! output_path task = Some f
      ∧ ((quick = true ∧ public !! output_path task = Some f
          ∧ latest_timestamp task < mtime f)
         ∨ ∃ output, render task = Ok output
                     ∧ (raw f = output ∨ read_text f = output)).
Proof.
  revert public r. induction tasks as [|t tasks IH]; intros public r Hnd; csimpl.
  { intros _ task Ht. by apply elem_of_nil in Ht. }
  apply NoDup_cons in Hnd as [Hnotin Hnd].
  destruct (output_task render now quick public t) as [r1|] eqn:H1;
    csimpl; [|done].
  destruct (output_site render now quick tasks r1.1) as [r2|] eqn:H2;
    csimpl; [|done].
  intros [= <-] task Htask. simpl.
  apply elem_of_cons in Htask as [->|Htask].
  - rewrite (output_site_frame render now quick tasks r1.1 r2 _ H2 Hnotin).
    apply output_task_result in H1
      as [(Hq & Hsame & f & Hf & Hlt)|(f & output & Hout & Hf & Htext)].
    + exists f. rewrite Hsame. split; [done|]. by left.
    + exists f. split; [done|]. right. by exists output.
  - destruct (IH r1.1 r2 Hnd H2 task Htask) as (f & Hf & Hcase).
    exists f. split; [done|].
    destruct Hcase as [(Hq & Hsame & Hlt)|Hcase]; [|by right].
    left. split_and!; [done| |done].
    rewrite <- Hsame. symmetry. eapply output_task_frame; [done|].
    intros E. apply Hnotin. rewrite <- E. by apply list_elem_of_fmap_2.
Qed.

Lemma output_site_files_witness :
  ∃ f, ({[ "post.html" := mkFile "hello" 10 ]} : gmap string file)
         !! "post.html" = Some f
    ∧ ((false = true ∧ (∅ : gmap string file) !! "post.html" = Some f
        ∧ latest_timestamp post_task < mtime f)
       ∨ ∃ output, post_render post_task = Ok output
                   ∧ (raw f = output ∨ read_text f = output)).
Proof.
  refine (output_site_files post_render (λ _, 10) false [post_task] ∅
            ({[ "post.html" := mkFile "hello" 10 ]},
             [Rendering post_task; Wrote "post.html"]) _ _ post_task _).
  - apply NoDup_singleton.
  - reflexivity.
  - apply list_elem_of_here.
Defined.

(** ** The neighbors of a page *)

Section Neighbors.
Context (w : string → Z).

Lemma key_lt_asym a b : key_lt w a b → ¬ key_lt w b a.
Proof.
  intros Hab Hba. apply (key_lt_irrefl w a).
  by apply (key_lt_trans w a b a).
Qed.

Lemma head_strictly_sorted l b :
  StronglySorted (key_lt w) l →
  head l = Some b ↔ b ∈ l ∧ ∀ s, s ∈ l → s = b ∨ key_lt w b s.
Proof.
  intros Hs. destruct Hs as [|h l Hs Hall]; simpl.
  { split; [done|]. intros [Hb _]. by apply elem_of_nil in Hb. }
  rewrite Forall_forall in Hall. split.
  - intros [= <-]. split; [apply list_elem_of_here|].
    intros s [->|Hs']%elem_of_cons; [by left|]. right. by apply Hall.
  - intros [Hb Hmin]. apply elem_of_cons in Hb as [->|Hb]; [done|].
    destruct (Hmin h) as [->|Hlt]; [apply list_elem_of_here|done|].
    destruct (key_lt_asym h b); [by apply Hall|done].
Qed.

Lemma last_strictly_sorted l a :
  StronglySorted (key_lt w) l →
  last l = Some a ↔ a ∈ l ∧ ∀ s, s ∈ l → s = a ∨ key_lt w s a.
Proof.
  intros Hs. revert a. induction Hs as [|h l Hs IH Hall]; intros a.
  { split; [done|]. intros [Ha _]. by apply elem_of_nil in Ha. }
  rewrite Forall_forall in Hall. rewrite last_cons.
  destruct (last l) as [z|] eqn:Hz.
  - destruct (proj1 (IH z) eq_refl) as [Hin Hmax']. split.
    + intros [= <-].
      split; [by apply list_elem_of_further|].
      intros s [->|Hs']%elem_of_cons; [|by apply Hmax'].
      right. by apply Hall.
    + intros [Ha Hmax]. f_equal. symmetry.
      destruct (Hmax z) as [E|Hlt]; [by apply list_elem_of_further|done|].
      apply elem_of_cons in Ha as [->|Ha].
      * destruct (key_lt_asym z h); [done|by apply Hall].
      * destruct (Hmax' a Ha) as [E|Hlt']; [done|].
        by destruct (key_lt_asym z a).
  - apply last_None in Hz as ->. split.
    + intros [= <-]. split; [apply list_elem_of_here|].
      intros s ->%list_elem_of_singleton. by left.
    + intros [Ha _]. by apply list_elem_of_singleton in Ha as ->.
Qed.

(** The first of the siblings that are not below [a], and the last of the
    siblings below [b], for a set [sibs] of siblings. *)
Lemma head_heavier sibs a b :
  NoDup sibs →
  head (isort_pure (key_ltb w) []
          (filter (λ s, ¬ key_lt w s a) (set_discard a sibs))) = Some b
  ↔ b ∈ sibs ∧ key_lt w a b
    ∧ ∀ s, s ∈ sibs → key_lt w a s → s = b ∨ key_lt w b s.
Proof.
  intros Hnd.
  assert (∀ s, s ∈ isort_pure (key_ltb w) []
                     (filter (λ s, ¬ key_lt w s a) (set_discard a sibs))
               ↔ s ∈ sibs ∧ key_lt w a s) as Hmem.
  { intros s. rewrite isort_pure_perm. simpl.
    unfold set_discard. rewrite !list_elem_of_filter. split.
    - intros (Hnlt & Hne & Hs). split; [done|].
      destruct (key_lt_total w s a); done.
    - intros [Hs Hlt]. split_and!; [by apply key_lt_asym| |done].
      intros ->. by apply (key_lt_irrefl w a). }
  rewrite head_strictly_sorted
    by (apply isort_pure_strict; by do 2 apply NoDup_filter).
  rewrite Hmem. split.
  - intros [[Hb Hlt] Hmin]. split_and!; [done..|].
    intros s Hs Hlt'. apply Hmin, Hmem. done.
  - intros (Hb & Hlt & Hmin). split; [done|].
    intros s [Hs Hlt']%Hmem. by apply Hmin.
Qed.

Lemma last_lighter sibs a b :
  NoDup sibs →
  last (isort_pure (key_ltb w) []
          (filter (λ s, key_lt w s b) (set_discard b sibs))) = Some a
  ↔ a ∈ sibs ∧ key_lt w a b
    ∧ ∀ s, s ∈ sibs → key_lt w s b → s = a ∨ key_lt w s a.
Proof.
  intros Hnd.
  assert (∀ s, s ∈ isort_pure (key_ltb w) []
                     (filter (λ s, key_lt w s b) (set_discard b sibs))
               ↔ s ∈ sibs ∧ key_lt w s b) as Hmem.
  { intros s. rewrite isort_pure_perm. simpl.
    unfold set_discard. rewrite !list_elem_of_filter. split.
    - intros (Hlt & Hne & Hs). done.
    - intros [Hs Hlt]. split_and!; [done| |done].
      intros ->. by apply (key_lt_irrefl w b). }
  rewrite last_strictly_sorted
    by (apply isort_pure_strict; by do 2 apply NoDup_filter).
  rewrite Hmem. split.
  - intros [[Ha Hlt] Hmax]. split_and!; [done..|].
    intros s Hs Hlt'. apply Hmax, Hmem. done.
  - intros (Ha & Hlt & Hmax). split; [done|].
    intros s [Hs Hlt']%Hmem. by apply Hmax.
Qed.

(** In a set that holds both, [b] is the least element above [a] exactly
    when [a] is the greatest element below [b]. *)
Lemma next_iff_previous (sibs : list string) a b :
  a ∈ sibs → b ∈ sibs → key_lt w a b →
  (∀ s, s ∈ sibs → key_lt w a s → s = b ∨ key_lt w b s)
  ↔ (∀ s, s ∈ sibs → key_lt w s b → s = a ∨ key_lt w s a).
Proof.
  intros Ha Hb Hab. split.
  - intros Hnext s Hs Hsb. destruct (decide (s = a)) as [|Hne]; [by left|].
    destruct (key_lt_total w s a Hne) as [|Has]; [by right|].
    destruct (Hnext s Hs Has) as [->|Hbs].
    + by destruct (key_lt_irrefl w b).
    + by destruct (key_lt_asym s b).
  - intros Hprev s Hs Has. destruct (decide (s = b)) as [|Hne]; [by left|].
    destruct (key_lt_total w s b Hne) as [Hsb|]; [|by right].
    destruct (Hprev s Hs Hsb) as [->|Hsa].
    + by destruct (key_lt_irrefl w a).
    + by destruct (key_lt_asym s a).
Qed.

End Neighbors.

Lemma ordered_sibling_set (pages : dict Page.t) (sd : dict (list string))
    (a : string) :
  sibling_sets pages (keys pages) sd → ordered pages a →
  ∃ sibs, dict_get (dirname a) sd = Some sibs
    ∧ NoDup sibs
    ∧ Forall (weighted pages) sibs
    ∧ ∀ s, s ∈ sibs ↔ ordered pages s ∧ dirname s = dirname a.
Proof.
  intros Hsets Ho. pose proof (Hsets (dirname a)) as Hdir.
  assert (a ∈ keys pages) as Hin.
  { destruct Ho as (p & z & Hp & _). by eapply dict_get_Some_keys. }
  destruct (dict_get (dirname a) sd) as [sibs|] eqn:Hsd.
  2:{ by destruct (Hdir a Hin Ho). }
  destruct Hdir as (Hnd & _ & Hiff). exists sibs. split_and!; [done..| |].
  - by eapply sibling_sets_weighted.
  - intros s. rewrite Hiff. split; [tauto|]. intros [Hs Hd]. split_and!; [|done..].
    destruct Hs as (p & z & Hp & _). by eapply dict_get_Some_keys.
Qed.

(** The sibling fields of a page that takes part in the ordering, after the
    fix-up. *)
Lemma fixed_ordered (pages : dict Page.t) (sd : dict (list string))
    (a : string) (p : Page.t) (sibs : list string) :
  Forall (weighted pages) sibs →
  dict_get (dirname a) sd = Some sibs →
  dict_get a pages = Some p → is_Some (Page.weight p) →
  let ltb := key_ltb (weight_of pages) in
  let lt := key_lt (weight_of pages) in
  Page.lighter (fixed sd pages a p)
  = last (isort_pure ltb [] (filter (λ s, lt s a) (set_discard a sibs)))
  ∧ Page.heavier (fixed sd pages a p)
    = head (isort_pure ltb [] (filter (λ s, ¬ lt s a) (set_discard a sibs))).
Proof.
  intros Hall Hsd Hp [z Hz] ltb lt. unfold fixed. rewrite Hsd.
  rewrite (sort_siblings_eval sibs a pages p) by done. rewrite Hz. done.
Qed.

(** X8: after the sibling fix-up, among the pages that take part in the
    ordering (an integer weight and an output path), the heavier neighbor
    of [a] is [b] exactly when [b] comes directly after [a] in the key order
    of their directory, which is exactly when the lighter neighbor of [b]
    is [a]: the two links always agree. *)
Theorem fix_siblings_neighbors_agree (pages : dict Page.t) :
  ∃ pages', fix_siblings pages = Ok pages' ∧
    ∀ a b, ordered pages a → ordered pages b →
      ∃ pa pb, dict_get a pages' = Some pa ∧ dict_get b pages' = Some pb
        ∧ (Page.heavier pa = Some b ↔ follows pages a b)
        ∧ (Page.lighter pb = Some a ↔ follows pages a b).
Proof.
  destruct (fix_siblings_spec pages) as (sd & pages' & Hsets & Hrun & Hfixed).
  exists pages'. split; [done|]. intros a b Ha Hb.
  destruct (ordered_sibling_set pages sd a Hsets Ha)
    as (sa & Hsa & Hnda & Halla & Hina).
  destruct (ordered_sibling_set pages sd b Hsets Hb)
    as (sb & Hsb & Hndb & Hallb & Hinb).
  pose proof Ha as (p & za & Hp & Hza & _).
  pose proof Hb as (q & zb & Hq & Hzb & _).
  exists (fixed sd pages a p), (fixed sd pages b q).
  rewrite !Hfixed, Hp, Hq. split_and!; [done..| |].
  - destruct (fixed_ordered pages sd a p sa Halla Hsa Hp) as [_ ->];
      [by eexists|].
    rewrite (head_heavier (weight_of pages) sa a b Hnda), Hina. unfold follows.
    split.
    + intros ((_ & Hdir) & Hlt & Hnext). split_and!; [done..|].
      intros s Hs Hd. apply Hnext, Hina. done.
    + intros (Hdir & Hlt & Hnext). split_and!; [done..|].
      intros s [Hs Hd]%Hina. by apply Hnext.
  - destruct (fixed_ordered pages sd b q sb Hallb Hsb Hq) as [-> _];
      [by eexists|].
    rewrite (last_lighter (weight_of pages) sb a b Hndb), Hinb. unfold follows.
    split.
    + intros ((_ & Hdir) & Hlt & Hprev). split; [done|]. split; [done|].
      assert (a ∈ sb) as Hasb by by apply Hinb.
      assert (b ∈ sb) as Hbsb by by apply Hinb.
      intros s Hs Hd.
      apply (proj2 (next_iff_previous (weight_of pages) sb a b Hasb Hbsb Hlt) Hprev).
      apply Hinb. split; [done|]. congruence.
    + intros (Hdir & Hlt & Hnext).
      assert (a ∈ sb) as Hasb by by apply Hinb.
      assert (b ∈ sb) as Hbsb by by apply Hinb.
      split_and!; [done..|].
      apply (proj1 (next_iff_previous (weight_of pages) sb a b Hasb Hbsb Hlt)).
      intros s [Hs Hd]%Hinb. apply Hnext; [done|]. congruence.
Qed.

(** ** The tag index of weighted pages *)

Lemma isort_pure_ascending (w : string → Z) (l : list string) :
  Sorted (key_le w) (isort_pure (key_ltb w) [] l).
Proof.
  eapply Sorted_weaken; [|apply isort_pure_sorted].
  - intros a b H. by apply key_ltb_false.
  - apply key_ltb_asym.
  - constructor.
Qed.

Lemma sort_tags_weighted (pages : dict Page.t) (ks : list string)
    (tags : dict (list string)) :
  NoDup ks →
  (∀ k, k ∈ ks → ∃ l, dict_get k tags = Some l ∧ Forall (weighted pages) l) →
  ∃ tags', sort_tags pages ks tags = Ok tags'
    ∧ keys tags' = keys tags
    ∧ ∀ k, dict_get k tags'
           = if decide (k ∈ ks)
             then isort_pure (key_ltb (weight_of pages)) [] <$> dict_get k tags
             else dict_get k tags.
Proof.
  revert tags. induction ks as [|k0 ks IH]; intros tags Hnd Hks; csimpl.
  { exists tags. split_and!; [done..|]. intros k. done. }
  apply NoDup_cons in Hnd as [Hnotin Hnd].
  destruct (Hks k0) as (l0 & Hl0 & Hall0); [apply list_elem_of_here|].
  unfold getitem. rewrite Hl0. csimpl.
  rewrite sorted_weighted by done. csimpl.
  destruct (IH (setitem k0 (isort_pure (key_ltb (weight_of pages)) [] l0) tags))
    as (tags' & Hrun & Hkeys & Hget); [done| |].
  { intros k Hk. rewrite dict_get_setitem_ne by by intros ->.
    apply Hks. by apply list_elem_of_further. }
  exists tags'. split_and!; [done| |].
  - rewrite Hkeys. apply keys_setitem_in. by eapply dict_get_Some_keys.
  - intros k. rewrite Hget, dict_get_setitem.
    destruct (decide (k = k0)) as [->|Hne].
    + rewrite decide_False by done. rewrite decide_True by apply list_elem_of_here.
      by rewrite Hl0.
    + destruct (decide (k ∈ ks)) as [Hin|Hout].
      * rewrite decide_True by by apply list_elem_of_further. done.
      * rewrite decide_False; [done|]. by intros [?|?]%elem_of_cons.
Qed.

Lemma keys_setdefault_append {V} (k : string) (x : V) (d : dict (list V)) :
  keys (setdefault_append k x d) = set_add k (keys d).
Proof.
  unfold setdefault_append, set_add. case_bool_decide as E.
  - by apply keys_setitem_in.
  - by apply keys_setitem_notin.
Qed.

Lemma keys_collect_tags (pages : dict Page.t) :
  keys (collect_tags pages) = first_seen (values pages ≫= Page.tags).
Proof.
  unfold collect_tags, first_seen.
  induction (values pages) as [|v vs IH] using rev_ind; [done|].
  rewrite foldl_app, bind_app, foldl_app. csimpl. rewrite app_nil_r.
  rewrite <- IH. generalize (foldl (λ tags v,
    foldl (λ tags tag, setdefault_append tag (Page.id v) tags) tags (Page.tags v))
    [] vs). intros acc.
  induction (Page.tags v) as [|t ts IHt] using rev_ind; [done|].
  rewrite !foldl_app. simpl. by rewrite keys_setdefault_append, IHt.
Qed.

(** X9: when every page that carries a tag has an integer weight,
    [process_tags] returns the tags in the order in which they are first
    seen (walking the pages in the order of the library and the tags of a
    page in the order of its list), each with the identifiers of the pages
    that carry it in ascending order of the key (weight, id). *)
Theorem process_tags_weighted (pages : dict Page.t) :
  (∀ tag a, a ∈ tagged tag pages → weighted pages a) →
  ∃ tags, process_tags pages = Ok tags
    ∧ keys tags = first_seen (values pages ≫= Page.tags)
    ∧ ∀ tag,
        match dict_get tag tags with
        | Some l => l ≡ₚ tagged tag pages ∧ l ≠ []
                    ∧ Sorted (key_le (weight_of pages)) l
        | None => tagged tag pages = []
        end.
Proof.
  intros Hw. unfold process_tags.
  destruct (collect_tags_spec pages) as [Hnd Hholds].
  destruct (sort_tags_weighted pages (keys (collect_tags pages))
              (collect_tags pages) Hnd) as (tags & Hrun & Hkeys & Hget).
  { intros k [l Hl]%dict_get_keys. exists l. split; [done|].
    specialize (Hholds k). rewrite Hl in Hholds. destruct Hholds as [-> _].
    apply Forall_forall. intros a. apply Hw. }
  exists tags. split_and!; [done| |].
  - by rewrite Hkeys, keys_collect_tags.
  - intros tag. rewrite Hget. specialize (Hholds tag).
    destruct (dict_get tag (collect_tags pages)) as [l|] eqn:Hl.
    + rewrite decide_True by by eapply dict_get_Some_keys. simpl.
      destruct Hholds as [-> Hne]. split_and!.
      * apply isort_pure_perm.
      * intros E. apply Hne. apply Permutation_nil.
        rewrite <- E. by rewrite isort_pure_perm.
      * apply isort_pure_ascending.
    + by destruct (decide _).
Qed.

Lemma process_tags_weighted_witness :
  ∃ tags, process_tags tagged_pages = Ok tags
    ∧ keys tags = first_seen (values tagged_pages ≫= Page.tags)
    ∧ ∀ tag,
        match dict_get tag tags with
        | Some l => l ≡ₚ tagged tag tagged_pages ∧ l ≠ []
                    ∧ Sorted (key_le (weight_of tagged_pages)) l
        | None => tagged tag tagged_pages = []
        end.
Proof.
  apply process_tags_weighted. intros tag a Ha.
  unfold tagged in Ha. apply list_elem_of_bind in Ha as (v & Ha & Hv).
  apply list_elem_of_fmap in Ha as (t & -> & _).
  unfold values in Hv. apply list_elem_of_fmap in Hv as ([k p] & -> & Hkp).
  repeat (apply elem_of_cons in Hkp as [[= -> ->]|Hkp]; [has_weight|]).
  by apply elem_of_nil in Hkp.
Defined.

Example process_tags_weighted_example :
  process_tags tagged_pages = Ok [("x", ["c"; "b"]); ("y", ["c"; "a"; "b"])].
Proof. reflexivity. Qed.

Example fix_siblings_neighbors_example :
  ∃ pages', fix_siblings example_pages = Ok pages'
    ∧ (Page.heavier <$> dict_get "d/a" pages') = Some (Some "d/c")
    ∧ (Page.lighter <$> dict_get "d/c" pages') = Some (Some "d/a")
    ∧ (Page.lighter <$> dict_get "d/a" pages') = Some (Some "d/b")
    ∧ (Page.heavier <$> dict_get "d/b" pages') = Some (Some "d/a").
Proof.
  eexists. split; [vm_compute; reflexivity|].
  split_and!; vm_compute; reflexivity.
Qed.

(** ** Exceptions that carry notes *)

Lemma bind_Done {A B} (m : outcome A) (f : A → outcome B) (b : B) :
  m ≫= f = Done b ↔ ∃ a, m = Done a ∧ f a = Done b.
Proof.
  destruct m as [a|e notes]; simpl; split.
  - intros H. by exists a.
  - by intros (a' & [= <-] & H).
  - intros [=].
  - by intros (a' & [=] & _).
Qed.

Lemma lift_Done {A} (r : result A) (a : A) : lift r = Done a → r = Ok a.
Proof. destruct r; simpl; congruence. Qed.

Lemma add_note_Done {A} catches note (o : outcome A) (a : A) :
  add_note catches note o = Done a → o = Done a.
Proof.
  destruct o as [a'|e notes]; simpl; [done|].
  destruct (catches e); congruence.
Qed.

Lemma content_type_error_Done {A} (o : outcome A) (a : A) :
  content_type_error o = Done a → o = Done a.
Proof. destruct o as [a'|[] notes]; simpl; congruence. Qed.

(** ** Page Parser *)

Section PageParser.
Context (h : host).

Lemma load_content_Done parent items ts content ts' content' :
  load_content h parent items ts content = Done (ts', content') →
  ∃ loaded : list (Z * value),
    Forall2 (λ item r, ∃ s, item.2 = VStr s
                            ∧ stat h (truediv parent s) = Done r.1
                            ∧ process_content h (truediv parent s) = Done r.2)
      items loaded
    ∧ ts' = foldl Z.max ts (loaded.*1)
    ∧ content' = foldl (λ c ir, setitem ir.1.1 ir.2.2 c) content
                   (zip items loaded).
Proof.
  revert ts content. induction items as [|[k v] items IH]; intros ts content.
  { intros [= <- <-]. exists []. split_and!; [constructor|done..]. }
  simpl. destruct v as [| | | |s| | |]; try done.
  intros (t & Ht & Hrun)%bind_Done. apply bind_Done in Hrun as (c & Hc & Hrun).
  apply IH in Hrun as (loaded & Hall & -> & ->).
  exists ((t, c) :: loaded). split_and!; [|done..].
  constructor; [|done]. by exists s.
Qed.

Lemma path_stem_nonempty p : path_name p ≠ "" → path_stem p ≠ "".
Proof.
  unfold path_stem. intros Hn.
  destruct (rfind_split "." (path_name p)) as [[[|a pre] [|b post]]|]; done.
Qed.

Lemma with_suffix_Ok p suffix q :
  with_suffix p suffix = Ok q →
  q = path_before_name p +:+ path_stem p +:+ suffix ∧ path_name p ≠ "" ∧ q ≠ "".
Proof.
  unfold with_suffix. destruct (contains_char "/" suffix); [done|].
  destruct (_ || _); [done|].
  destruct (String.eqb_spec (path_name p) "") as [|Hn]; [done|].
  intros [= <-]. split_and!; [done..|].
  apply path_stem_nonempty in Hn.
  destruct (path_before_name p) as [|a b]; [|done]. rewrite str_app_nil_l.
  destruct (path_stem p); done.
Qed.

Lemma as_posix_nonempty p : p ≠ "" → as_posix p = p.
Proof. intros Hp. unfold as_posix. apply String.eqb_neq in Hp. by rewrite Hp. Qed.

Lemma process_page_file_Done content_dir subdirs page_id page task :
  process_page_file h content_dir subdirs page_id = Done (page, task) →
  ∃ page_path mtime toml items ts content tags weight,
    with_suffix (truediv content_dir page_id) ".page" = Ok page_path
    ∧ stat h page_path = Done mtime
    ∧ load h page_path = Done toml
    ∧ get_default toml "content" (VDict []) = VDict items
    ∧ load_content h (path_parent page_path) items mtime [] = Done (ts, content)
    ∧ (∃ l, get_default toml "tags" (VList []) = VList l ∧ str_list l = Some tags)
    ∧ process_weight toml page_id = Ok weight
    ∧ match dict_get "template" toml with
      | None =>
          task = None
          ∧ page = Page.new page_id "" (as_posix (path_parent (Path page_id)))
                     "" (as_posix <$> subdirs) content
                     (table_of (get_default toml "data" (VDict []))) tags weight
      | Some tv =>
          ∃ template suffix path,
            tv = VStr template
            ∧ get_default toml "suffix" (VStr ".html") = VStr suffix
            ∧ with_suffix (Path page_id) suffix = Ok path
            ∧ task = Some (mkTask page_id ts template path)
            ∧ page = Page.new page_id path (as_posix (path_parent path))
                       (path_name path) (as_posix <$> subdirs) content
                       (table_of (get_default toml "data" (VDict []))) tags
                       weight
      end.
Proof.
  unfold process_page_file.
  intros (page_path & Hpath%lift_Done & Hrun)%bind_Done.
  apply bind_Done in Hrun as (mtime & Hstat & Hrun).
  apply bind_Done in Hrun as (toml & Hload & Hrun).
  apply bind_Done in Hrun as ([ts content] & Hcontent%content_type_error_Done & Hrun).
  apply bind_Done in Hrun as ([[[task' dir_] name] str_path] & Hout & Hrun).
  apply bind_Done in Hrun as (tags & Htags & Hrun).
  apply bind_Done in Hrun as (weight & Hweight%lift_Done & Hrun).
  injection Hrun as <- <-.
  destruct (get_default toml "content" (VDict [])) as [| | | | | | |items] eqn:Hitems;
    try done.
  exists page_path, mtime, toml, items, ts, content, tags, weight.
  split_and!; [done..| |done|].
  - destruct (get_default toml "tags" (VList [])) as [| | | | | |l|]; try done.
    exists l. split; [done|]. destruct (str_list l); [|done]. by injection Htags as ->.
  - simpl in *. destruct (dict_get "template" toml) as [tv|].
    + destruct tv as [| | | |template| | |]; try done.
      destruct (get_default toml "suffix" (VStr ".html"))
        as [| | | |suffix| | |]; try done.
      apply bind_Done in Hout as (path & Hsuf%lift_Done & Hout).
      injection Hout as <- <- <- <-.
      exists template, suffix, path. split_and!; [done..|].
      apply with_suffix_Ok in Hsuf as (_ & _ & Hne).
      by rewrite as_posix_nonempty.
    + by injection Hout as <- <- <- <-.
Qed.

End PageParser.

(** ** Library Builder *)

Section Builder.
Context (h : host) (content_dir : string).

(** What a parse fixes, whatever the directories listed beside the page. *)
Lemma parsed_facts k p task :
  parsed h content_dir k p task →
  Page.id p = k
  ∧ Page.siblings p = [] ∧ Page.lighter p = None ∧ Page.heavier p = None
  ∧ match task with
    | Some t => page_id t = k ∧ output_path t = Page.path p ∧ Page.path p ≠ ""
                ∧ Page.filename p = path_name (Page.path p)
    | None => Page.path p = "" ∧ Page.filename p = ""
    end.
Proof.
  intros [subdirs Hrun]. apply process_page_file_Done in Hrun
    as (page_path & mtime & toml & items & ts & content & tags & weight
        & _ & _ & _ & _ & _ & _ & _ & Htemplate).
  destruct (dict_get "template" toml) as [tv|].
  - destruct Htemplate as (template & suffix & path & _ & _ & Hsuf & -> & ->).
    simpl. split_and!; try done. by apply with_suffix_Ok in Hsuf as (_ & _ & ?).
  - by destruct Htemplate as [-> ->].
Qed.

Lemma parsed_same_task k p1 p2 task1 task2 :
  parsed h content_dir k p1 task1 → parsed h content_dir k p2 task2 →
  task1 = task2 ∧ Page.path p1 = Page.path p2.
Proof.
  intros [s1 H1] [s2 H2].
  apply process_page_file_Done in H1
    as (page_path & mtime & toml & items & ts & content & tags & weight
        & Hp1 & Hs1 & Hl1 & Hi1 & Hc1 & _ & _ & Ht1).
  apply process_page_file_Done in H2
    as (page_path' & mtime' & toml' & items' & ts' & content' & tags' & weight'
        & Hp2 & Hs2 & Hl2 & Hi2 & Hc2 & _ & _ & Ht2).
  rewrite Hp1 in Hp2. injection Hp2 as <-.
  rewrite Hs1 in Hs2. injection Hs2 as <-.
  rewrite Hl1 in Hl2. injection Hl2 as <-.
  rewrite Hi1 in Hi2. injection Hi2 as <-.
  rewrite Hc1 in Hc2. injection Hc2 as <- <-.
  destruct (dict_get "template" toml) as [tv|].
  - destruct Ht1 as (template & suffix & path & -> & Hsuf & Hpath & -> & ->).
    destruct Ht2 as (template' & suffix' & path' & [= <-] & Hsuf' & Hpath' & -> & ->).
    rewrite Hsuf in Hsuf'. injection Hsuf' as <-.
    rewrite Hpath in Hpath'. by injection Hpath' as <-.
  - destruct Ht1 as [-> ->]. by destruct Ht2 as [-> ->].
Qed.


Lemma visit_file_invariant dirpath dirnames st f st' :
  walk_invariant h content_dir st →
  visit_file h content_dir dirpath dirnames st f = Done st' →
  walk_invariant h content_dir st'.
Proof.
  intros (Hnd & Hpages & Htasks). unfold visit_file.
  destruct (String.eqb (path_suffix (truediv dirpath f)) ".page").
  - intros (pid & _ & Hrun)%bind_Done.
    apply bind_Done in Hrun as ([p task] & Hparse%add_note_Done & Hrun).
    injection Hrun as <-. simpl.
    set (k := as_posix pid) in *.
    assert (parsed h content_dir k p task) as Hparsed by by eexists.
    split_and!; simpl.
    + by apply NoDup_keys_setitem.
    + intros k' p'. rewrite dict_get_setitem. case_decide as E.
      * intros [= <-]. subst k'. exists task. split; [done|].
        intros t ->. apply elem_of_app. right. apply list_elem_of_here.
      * intros Hp'. destruct (Hpages k' p' Hp') as (task' & Hparsed' & Hin).
        exists task'. split; [done|]. intros t Ht.
        destruct task; [apply elem_of_app; left|]; auto.
    + assert (∀ t, t ∈ st_tasks st →
                ∃ p0, parsed h content_dir (page_id t) p0 (Some t)
                      ∧ is_Some (dict_get (page_id t)
                                   (setitem k p (st_pages st)))) as Hold.
      { intros t Ht. destruct (Htasks t Ht) as (p0 & Hp0 & Hsome).
        exists p0. split; [done|]. rewrite dict_get_setitem.
        by case_decide. }
      destruct task as [t0|]; [|done].
      intros t [Ht| ->%list_elem_of_singleton]%elem_of_app; [auto|].
      destruct (parsed_facts k p (Some t0) Hparsed) as (_ & _ & _ & _ & Hk & _).
      rewrite Hk. exists p. split; [done|].
      rewrite dict_get_setitem_eq. by eexists.
  - intros (image_info & _ & Hrun)%bind_Done.
    apply bind_Done in Hrun as (max_version & _ & Hrun).
    by injection Hrun as <-.
Qed.

Lemma visit_files_invariant dirpath dirnames st filenames st' :
  walk_invariant h content_dir st →
  visit_files h content_dir dirpath dirnames st filenames = Done st' →
  walk_invariant h content_dir st'.
Proof.
  revert st. induction filenames as [|f filenames IH]; intros st Hinv; simpl.
  { by intros [= <-]. }
  intros (st1 & H1 & Hrun)%bind_Done.
  eapply IH; [|done]. by eapply visit_file_invariant.
Qed.

Lemma visit_dirs_invariant st walk st' :
  walk_invariant h content_dir st →
  visit_dirs h content_dir st walk = Done st' →
  walk_invariant h content_dir st'.
Proof.
  revert st. induction walk as [|[[dirpath dirnames] filenames] walk IH];
    intros st Hinv; simpl.
  { by intros [= <-]. }
  intros (st1 & H1 & Hrun)%bind_Done.
  eapply IH; [|done]. by eapply visit_files_invariant.
Qed.

Lemma walk_invariant_start : walk_invariant h content_dir (mkState [] [] ∅ ∅).
Proof.
  split_and!; simpl.
  - apply NoDup_nil_2.
  - done.
  - intros t Ht. by apply elem_of_nil in Ht.
Qed.

Lemma fixed_fields (sd : dict (list string)) (pages : dict Page.t) k p :
  Page.id (fixed sd pages k p) = Page.id p
  ∧ Page.path (fixed sd pages k p) = Page.path p
  ∧ Page.tags (fixed sd pages k p) = Page.tags p.
Proof.
  unfold fixed. destruct (dict_get (dirname k) sd); [|done].
  by destruct (sort_siblings _ _ _).
Qed.

Lemma fixed_siblings (sd : dict (list string)) (pages : dict Page.t) k p s :
  sibling_sets pages (keys pages) sd →
  dict_get k pages = Some p →
  s ∈ Page.siblings (fixed sd pages k p) →
  s ∈ Page.siblings p
  ∨ (s ≠ k ∧ ordered pages s ∧ dirname s = dirname k).
Proof.
  intros Hsets Hp. unfold fixed. pose proof (Hsets (dirname k)) as Hdir.
  destruct (dict_get (dirname k) sd) as [sibs|] eqn:Hsd; [|by left].
  destruct Hdir as (Hnd & _ & Hiff).
  destruct (sort_siblings_members sibs k pages p) as (r & -> & Hperm & _);
    [by eapply sibling_sets_weighted|done|].
  simpl. rewrite Hperm. intros Hs. right.
  destruct (Page.weight p) as [z|] eqn:Hz.
  - apply list_elem_of_filter in Hs as [Hne Hs]. apply Hiff in Hs. tauto.
  - pose proof Hs as Hs'. apply Hiff in Hs as (_ & Ho & Hd).
    split_and!; [|done..]. intros ->.
    destruct Ho as (p' & z & Hp' & Hz' & _). congruence.
Qed.

(** The pages and tasks of the library. *)
Lemma build_library_Done walk lib :
  build_library h content_dir walk = Done lib →
  ∃ st sd,
    visit_dirs h content_dir (mkState [] [] ∅ ∅) walk = Done st
    ∧ walk_invariant h content_dir st
    ∧ sibling_sets (st_pages st) (keys (st_pages st)) sd
    ∧ fix_siblings (st_pages st) = Ok (Library.pages lib)
    ∧ (∀ k, dict_get k (Library.pages lib)
            = fixed sd (st_pages st) k <$> dict_get k (st_pages st))
    ∧ process_tags (Library.pages lib) = Ok (Library.tags lib)
    ∧ Library.tasks lib = st_tasks st
    ∧ Library.versioned lib = st_max_version st
    ∧ Library.image_info lib = st_image_info st.
Proof.
  unfold build_library. destruct (is_dir h content_dir); [|done].
  intros (st & Hwalk & Hrun)%bind_Done.
  apply bind_Done in Hrun as (pages' & Hfix%lift_Done & Hrun).
  apply bind_Done in Hrun as (tags & Htags%lift_Done & Hrun).
  injection Hrun as <-. simpl.
  destruct (fix_siblings_spec (st_pages st)) as (sd & pages'' & Hsets & Hfix' & Hfixed).
  rewrite Hfix in Hfix'. injection Hfix' as <-.
  exists st, sd. split_and!; try done.
  eapply visit_dirs_invariant; [|done]. apply walk_invariant_start.
Qed.

End Builder.

(** X13: when the library has been built, every task belongs to a page of the
    library that is stored under the identifier of the task and has the
    output path of the task (so the lookup of the page of a task cannot
    fail); every page is stored under its own identifier, and it has a task
    exactly when its output path is not empty; and the sibling list of a
    page holds only other pages of its directory that have an integer
    weight and a task. *)
Theorem build_library_pages (h : host) (content_dir : string)
    (walk : list (string * list string * list string)) (lib : Library.t) :
  build_library h content_dir walk = Done lib →
  (∀ t, t ∈ Library.tasks lib →
     ∃ p, dict_get (page_id t) (Library.pages lib) = Some p
          ∧ Page.id p = page_id t
          ∧ Page.path p = output_path t
          ∧ output_path t ≠ "")
  ∧ (∀ k p, dict_get k (Library.pages lib) = Some p →
       Page.id p = k
       ∧ (Page.path p = "" → ∀ t, t ∈ Library.tasks lib → page_id t ≠ k)
       ∧ (Page.path p ≠ "" →
          ∃ t, t ∈ Library.tasks lib ∧ page_id t = k
               ∧ output_path t = Page.path p))
  ∧ (∀ k p s, dict_get k (Library.pages lib) = Some p →
       s ∈ Page.siblings p →
       s ≠ k ∧ dirname s = dirname k
       ∧ ∃ q z t, dict_get s (Library.pages lib) = Some q
                  ∧ Page.weight q = Some z
                  ∧ t ∈ Library.tasks lib ∧ page_id t = s).
Proof.
  intros (st & sd & _ & (Hnd & Hpages & Htasks) & Hsets & _ & Hfixed & _
          & Htl & _)%build_library_Done.
  rewrite Htl.
  assert (∀ k p, dict_get k (Library.pages lib) = Some p →
            ∃ p0 task, dict_get k (st_pages st) = Some p0
              ∧ p = fixed sd (st_pages st) k p0
              ∧ parsed h content_dir k p0 task
              ∧ ∀ t, task = Some t → t ∈ st_tasks st) as Hback.
  { intros k p. rewrite Hfixed.
    destruct (dict_get k (st_pages st)) as [p0|] eqn:Hp0; [|done].
    intros [= <-]. destruct (Hpages k p0 Hp0) as (task & Hparsed & Hin).
    by exists p0, task. }
  split_and!.
  - intros t Ht. destruct (Htasks t Ht) as (p1 & Hp1 & [p0 Hp0]).
    destruct (Hpages _ _ Hp0) as (task & Hparsed & _).
    destruct (parsed_same_task h content_dir _ _ _ _ _ Hp1 Hparsed) as [<- Hpath].
    destruct (parsed_facts h content_dir _ _ _ Hparsed) as (Hid & _ & _ & _ & Ht').
    destruct Ht' as (_ & Hout & Hne & _).
    exists (fixed sd (st_pages st) (page_id t) p0).
    rewrite Hfixed, Hp0.
    destruct (fixed_fields sd (st_pages st) (page_id t) p0) as (-> & -> & _).
    split_and!; [done..|]. by rewrite Hout.
  - intros k p (p0 & task & Hp0 & -> & Hparsed & Hin)%Hback.
    destruct (fixed_fields sd (st_pages st) k p0) as (-> & -> & _).
    destruct (parsed_facts h content_dir _ _ _ Hparsed) as (Hid & _ & _ & _ & Ht).
    split_and!; [done| |].
    + intros Hempty t Ht' <-.
      destruct (Htasks t Ht') as (p1 & Hp1 & _).
      destruct (parsed_same_task h content_dir _ _ _ _ _ Hp1 Hparsed) as [<- _].
      by destruct Ht as (_ & _ & ? & _).
    + intros Hne. destruct task as [t|]; [|by destruct Ht].
      destruct Ht as (? & ? & _). exists t. split_and!; auto.
  - intros k p s (p0 & task & Hp0 & -> & Hparsed & Hin)%Hback Hs.
    destruct (fixed_siblings sd (st_pages st) k p0 s Hsets Hp0 Hs)
      as [Hs'|(Hne & Ho & Hd)].
    { destruct (parsed_facts h content_dir _ _ _ Hparsed) as (_ & Hnil & _).
      rewrite Hnil in Hs'. by apply elem_of_nil in Hs'. }
    split_and!; [done..|].
    destruct Ho as (q0 & z & Hq0 & Hz & Hpath).
    destruct (Hpages s q0 Hq0) as (task' & Hparsed' & Hin').
    destruct (parsed_facts h content_dir _ _ _ Hparsed') as (_ & _ & _ & _ & Ht).
    destruct task' as [t|]; [|by destruct Ht].
    exists (fixed sd (st_pages st) s q0), z, t.
    rewrite Hfixed, Hq0. rewrite fixed_weight.
    destruct Ht as (? & _). split_and!; auto.
Qed.

(** ** The files that are not page files *)

Lemma walk_versioned_app (l1 l2 : list string) (m : gmap string Z) :
  walk_versioned (l1 ++ l2) m = walk_versioned l1 m ≫= walk_versioned l2.
Proof.
  revert m. induction l1 as [|p l1 IH]; intros m; csimpl; [done|].
  destruct (process_versioned p m); csimpl; [apply IH|done].
Qed.

Section OtherFiles.
Context (h : host) (content_dir : string).

Lemma visit_file_other dirpath dirnames st f st' :
  visit_file h content_dir dirpath dirnames st f = Done st' →
  let new := filter (λ p, path_suffix p ≠ ".page") [truediv dirpath f] in
  walk_versioned new (st_max_version st) = Ok (st_max_version st')
  ∧ ∀ files, only_images files (st_image_info st) →
             only_images (files ++ new) (st_image_info st').
Proof.
  unfold visit_file. rewrite filter_cons, filter_nil.
  destruct (String.eqb_spec (path_suffix (truediv dirpath f)) ".page") as [E|E].
  - intros (pid & _ & Hrun)%bind_Done.
    apply bind_Done in Hrun as ([p task] & _ & Hrun).
    injection Hrun as <-. simpl. rewrite decide_False by (by intros ?).
    split; [done|]. intros files Hfiles. by rewrite app_nil_r.
  - intros (image_info & Himg & Hrun)%bind_Done.
    apply bind_Done in Hrun as (max_version & Hver%lift_Done & Hrun).
    injection Hrun as <-. simpl. rewrite decide_True by done.
    split; [csimpl; by rewrite Hver|].
    intros files Hfiles p Hp. rewrite elem_of_app, list_elem_of_singleton.
    destruct (is_image (path_suffix (truediv dirpath f))) eqn:Hi.
    + apply bind_Done in Himg as (size & _ & [= <-]).
      destruct (decide (p = truediv dirpath f)) as [->|Hne]; [by auto|].
      rewrite lookup_insert_ne in Hp by done.
      destruct (Hfiles p Hp). auto.
    + injection Himg as <-. destruct (Hfiles p Hp). auto.
Qed.

Lemma visit_files_other dirpath dirnames st filenames st' :
  visit_files h content_dir dirpath dirnames st filenames = Done st' →
  walk_versioned (filter (λ p, path_suffix p ≠ ".page")
                    (truediv dirpath <$> filenames)) (st_max_version st)
  = Ok (st_max_version st')
  ∧ ∀ files, only_images files (st_image_info st) →
             only_images (files ++ filter (λ p, path_suffix p ≠ ".page")
                                     (truediv dirpath <$> filenames))
               (st_image_info st').
Proof.
  revert st. induction filenames as [|f filenames IH]; intros st; csimpl.
  { intros [= <-]. split; [done|]. intros files. by rewrite app_nil_r. }
  intros (st1 & H1 & Hrun)%bind_Done.
  apply visit_file_other in H1 as [Hv1 Hi1].
  apply IH in Hrun as [Hv2 Hi2].
  change (truediv dirpath f :: (truediv dirpath <$> filenames))
    with ([truediv dirpath f] ++ (truediv dirpath <$> filenames)).
  rewrite filter_app. split.
  - rewrite walk_versioned_app, Hv1. done.
  - intros files Hfiles. rewrite app_assoc. auto.
Qed.

Lemma visit_dirs_other st walk st' :
  visit_dirs h content_dir st walk = Done st' →
  walk_versioned (other_files walk) (st_max_version st)
  = Ok (st_max_version st')
  ∧ ∀ files, only_images files (st_image_info st) →
             only_images (files ++ other_files walk) (st_image_info st').
Proof.
  unfold other_files, walked_files.
  revert st. induction walk as [|[[dirpath dirnames] filenames] walk IH];
    intros st; csimpl.
  { intros [= <-]. split; [done|]. intros files. by rewrite app_nil_r. }
  intros (st1 & H1 & Hrun)%bind_Done.
  apply visit_files_other in H1 as [Hv1 Hi1].
  apply IH in Hrun as [Hv2 Hi2].
  rewrite filter_app. split.
  - rewrite walk_versioned_app, Hv1. done.
  - intros files Hfiles. rewrite app_assoc. auto.
Qed.

End OtherFiles.

(** X14: when the library has been built, its version map is the one that the
    calls of [process_versioned] give for the files of the walk that are
    not page files, in the order of the walk (a page file never counts as a
    version, an image does), and its image table has entries only for
    such files with one of the five image suffixes. *)
Theorem build_library_other_files (h : host) (content_dir : string)
    (walk : list (string * list string * list string)) (lib : Library.t) :
  build_library h content_dir walk = Done lib →
  walk_versioned (other_files walk) ∅ = Ok (Library.versioned lib)
  ∧ ∀ p, is_Some (Library.image_info lib !! p) →
         p ∈ other_files walk
         ∧ path_suffix p ∈ [".jpeg"; ".jpg"; ".webp"; ".png"; ".gif"].
Proof.
  intros (st & sd & Hwalk & _ & _ & _ & _ & _ & _ & -> & ->)%build_library_Done.
  apply visit_dirs_other in Hwalk as [Hv Hi]. split; [done|].
  intros p Hp. destruct (Hi [] ) with (p := p) as [Hin Himg]; [|done|].
  { intros q Hq. simpl in Hq. rewrite lookup_empty in Hq. by destruct Hq. }
  split; [done|]. unfold is_image in Himg. by apply bool_decide_eq_true in Himg.
Qed.

Lemma build_library_pages_witness :
  ∃ lib p,
    build_library example_host "/site/content" example_walk = Done lib
    ∧ dict_get "blog/post" (Library.pages lib) = Some p
    ∧ Page.id p = "blog/post"
    ∧ Page.path p = "blog/post.html".
Proof.
  let r := eval vm_compute in
    (build_library example_host "/site/content" example_walk) in
  lazymatch r with
  | Done ?lib =>
      assert (build_library example_host "/site/content" example_walk
              = Done lib) as Hrun by (vm_compute; reflexivity);
      exists lib
  end.
  destruct (proj1 (build_library_pages _ _ _ _ Hrun)
              (mkTask "blog/post" 30 "post.jinja" "blog/post.html"))
    as (p & Hp & Hid & Hpath & _).
  { apply list_elem_of_further, list_elem_of_here. }
  exists p. split_and!; [exact Hrun|exact Hp|exact Hid|exact Hpath].
Defined.

Lemma build_library_other_files_witness :
  ∃ lib,
    build_library example_host "/site/content" example_walk = Done lib
    ∧ walk_versioned (other_files example_walk) ∅ = Ok (Library.versioned lib)
    ∧ Library.versioned lib !! "css/site.css" = Some 2.
Proof.
  let r := eval vm_compute in
    (build_library example_host "/site/content" example_walk) in
  lazymatch r with
  | Done ?lib =>
      assert (build_library example_host "/site/content" example_walk
              = Done lib) as Hrun by (vm_compute; reflexivity);
      exists lib
  end.
  split_and!; [exact Hrun| |vm_compute; reflexivity].
  exact (proj1 (build_library_other_files _ _ _ _ Hrun)).
Defined.

(** ** How the library builder fails *)

Lemma bind_Failed {A B} (m : outcome A) (f : A → outcome B) e notes :
  m ≫= f = Failed e notes →
  m = Failed e notes ∨ ∃ a, m = Done a ∧ f a = Failed e notes.
Proof.
  destruct m as [a|e' notes']; intros H.
  - right. exists a. split; [done|exact H].
  - left. unfold mbind, outcome_bind in H. by injection H as <- <-.
Qed.

Lemma lift_Failed {A} (r : result A) e notes :
  lift r = Failed e notes → ∃ x, r = Raise x ∧ e = Exn x ∧ notes = [].
Proof. destruct r as [a|x]; simpl; [done|]. intros [= <- <-]. by exists x. Qed.




Section Failures.
Context (h : host) (content_dir : string).





End Failures.


(** ** The program *)

Lemma find_site_root_from_spec (h : host) (rev_parts : list string) :
  match find_site_root_from h rev_parts with
  | Some p =>
      p ≠ [] ∧ p `prefix_of` reverse rev_parts ∧ is_site h p = true
      ∧ ∀ q, q `prefix_of` reverse rev_parts → (length p < length q)%nat →
             is_site h q = false
  | None =>
      ∀ q, q `prefix_of` reverse rev_parts → q ≠ [] → is_site h q = false
  end.
Proof.
  induction rev_parts as [|name parent IH]; cbn [find_site_root_from].
  { intros q [k Hq] Hne. symmetry in Hq. apply app_eq_nil in Hq as [-> _]. done. }
  assert (∀ q, q `prefix_of` reverse (name :: parent) →
               q = reverse (name :: parent) ∨ q `prefix_of` reverse parent)
    as Hcases.
  { intros q [k Hq]. rewrite reverse_cons in Hq.
    destruct k as [|x k _] using rev_ind.
    - left. by rewrite app_nil_r, reverse_cons in *.
    - right. rewrite app_assoc in Hq. apply app_inj_tail in Hq as [-> _].
      by exists k. }
  destruct (is_site h (reverse (name :: parent))) eqn:Hsite.
  - split_and!; [|done..|].
    + intros H. apply (f_equal length) in H. by rewrite length_reverse in H.
    + intros q [->|[k Hq]]%Hcases Hlen; [lia|].
      rewrite reverse_cons, Hq in Hlen. rewrite !length_app in Hlen.
      simpl in Hlen. lia.
  - destruct (find_site_root_from h parent) as [p|].
    + destruct IH as (Hne & Hpre & Hp & Hmax). split_and!; [done| |done|].
      * rewrite reverse_cons. by apply prefix_app_r.
      * intros q [->|Hq]%Hcases Hlen; [done|auto].
    + intros q [->|Hq]%Hcases Hne; [done|auto].
Qed.

(** X16: [find_site_root] returns the nearest directory, going up from the
    current directory, that holds both a content and a templates directory;
    the root of the file system is never returned, and the result is
    [None] exactly when no directory but the root qualifies. *)
Theorem find_site_root_nearest (h : host) (cwd : list string) :
  match find_site_root h cwd with
  | Some p =>
      p ≠ [] ∧ p `prefix_of` cwd ∧ is_site h p = true
      ∧ ∀ q, q `prefix_of` cwd → (length p < length q)%nat →
             is_site h q = false
  | None => ∀ q, q `prefix_of` cwd → q ≠ [] → is_site h q = false
  end.
Proof.
  unfold find_site_root.
  pose proof (find_site_root_from_spec h (reverse cwd)) as H.
  by rewrite reverse_involutive in H.
Qed.

(** X17: the program ends with the exit status -2 only for an exception of one
    of the reported classes that carries a note, with the status -1 only
    for a template syntax error, and with the status 0 only when the build
    ended; an exception of a reported class that carries no note ends the
    program with an uncaught [AttributeError], and this is what happens
    when no site root is found. *)
Theorem main_endings (h : host) (cwd argv : list string)
    (build : string → string → string → bool → outcome unit) :
  (find_site_root h cwd = None →
   main h cwd argv build = Uncaught AttributeError)
  ∧ ∀ parts, find_site_root h cwd = Some parts →
      let site_root := abs_path parts in
      let quick := bool_decide (argv !! 1%nat = Some "--quick") in
      let run := build (resolve h (truediv site_root "content"))
                   (resolve h (truediv site_root "templates"))
                   (resolve h (truediv site_root "public")) quick in
      (main h cwd argv build = Exit 0 ↔ ∃ u, run = Done u)
      ∧ (main h cwd argv build = Exit (-1)
         ↔ ∃ notes, run = Failed TemplateSyntaxError notes)
      ∧ (main h cwd argv build = Exit (-2)
         ↔ ∃ e notes, run = Failed e notes ∧ reported e = true ∧ notes ≠ [])
      ∧ (∀ e, run = Failed e [] → reported e = true →
              main h cwd argv build = Uncaught AttributeError).
Proof.
  split.
  { intros Hnone. unfold main. by rewrite Hnone. }
  intros parts Hsome site_root quick run. unfold main. rewrite Hsome.
  assert (match argv with
          | _ :: a :: _ => String.eqb a "--quick"
          | _ => false
          end = quick) as ->.
  { unfold quick. destruct argv as [|? [|a ?]]; simpl; [done..|].
    destruct (String.eqb_spec a "--quick") as [->|Hne].
    - by rewrite bool_decide_true.
    - rewrite bool_decide_false; [done|]. by intros [= ->]. }
  fold site_root. fold run. destruct run as [u|e notes].
  - split_and!.
    + split; [by exists u|done].
    + split; [done|]. by intros (? & [=]).
    + split; [done|]. by intros (? & ? & [=] & _).
    + done.
  - split_and!.
    + split; [|by intros (? & [=])].
      destruct e as [[]| | | | | | | |], notes; simpl; done.
    + split.
      * destruct e as [[]| | | | | | | |], notes; simpl; try done; by eexists.
      * by intros (? & [= -> ->]).
    + split.
      * destruct e as [[]| | | | | | | |], notes; simpl; try done;
          intros _; by eexists _, _.
      * intros (e' & notes' & [= <- <-] & Hrep & Hne).
        destruct e as [[]| | | | | | | |], notes; simpl in *; done.
    + intros e' [= -> ->] Hrep.
      destruct e' as [[]| | | | | | | |]; simpl in *; done.
Qed.


Example main_examples :
  main example_host ["site"; "content"; "blog"] ["ssg"] (λ _ _ _ _, Done ())
  = Exit 0
  ∧ main example_host ["tmp"] ["ssg"] (λ _ _ _ _, Done ())
    = Uncaught AttributeError
  ∧ main example_host ["site"] ["ssg"; "--quick"]
      (λ content _ _ quick,
         if quick then _ ← build_library example_host content bad_walk; Done ()
         else Done ())
    = Exit (-2)
  ∧ main example_host ["site"] ["ssg"]
      (λ _ _ _ _, Failed (Exn TypeError) [])
    = Uncaught AttributeError
  ∧ find_site_root example_host ["site"; "content"; "blog"] = Some ["site"].
Proof. split_and!; vm_compute; reflexivity. Qed.

(** ** What the page parser returns and how it fails *)

(** X10: when a page file parses: the page carries its identifier and no sibling
    information yet; its content holds, under the keys of the [content]
    table, what [process_content] makes of the files named there; without a
    [template] field there is no task and the output path is empty; with one,
    the task carries the identifier, the template, the output path of the
    page (the identifier with its suffix replaced by the [suffix] field),
    and as its timestamp the latest modification time among the page file
    and the files of the [content] table. *)
Theorem process_page_file_done (h : host) (content_dir : string)
    (subdirs : list string) (pid : string) (page : Page.t)
    (task : option Task) :
  process_page_file h content_dir subdirs pid = Done (page, task) →
  ∃ page_path mtime toml items loaded,
    with_suffix (truediv content_dir pid) ".page" = Ok page_path
    ∧ stat h page_path = Done mtime
    ∧ load h page_path = Done toml
    ∧ get_default toml "content" (VDict []) = VDict items
    ∧ Forall2 (λ item r,
         ∃ s, item.2 = VStr s
              ∧ stat h (truediv (path_parent page_path) s) = Done r.1
              ∧ process_content h (truediv (path_parent page_path) s)
                = Done r.2) items loaded
    ∧ Page.id page = pid
    ∧ Page.content page
      = foldl (λ c ir, setitem ir.1.1 ir.2.2 c) [] (zip items loaded)
    ∧ process_weight toml pid = Ok (Page.weight page)
    ∧ Page.siblings page = [] ∧ Page.lighter page = None
    ∧ Page.heavier page = None
    ∧ match task with
      | None =>
          dict_get "template" toml = None
          ∧ Page.path page = "" ∧ Page.filename page = ""
      | Some t =>
          dict_get "template" toml = Some (VStr (template t))
          ∧ page_id t = pid
          ∧ latest_timestamp t = foldl Z.max mtime (loaded.*1)
          ∧ (∃ suffix, get_default toml "suffix" (VStr ".html") = VStr suffix
                       ∧ with_suffix (Path pid) suffix = Ok (output_path t))
          ∧ Page.path page = output_path t ∧ Page.path page ≠ ""
          ∧ Page.filename page = path_name (output_path t)
          ∧ Page.dir page = as_posix (path_parent (output_path t))
      end.
Proof.
  intros (page_path & mtime & toml & items & ts & content & tags & weight
          & Hpath & Hstat & Hload & Hitems & Hcontent & _ & Hweight
          & Htemplate)%process_page_file_Done.
  apply load_content_Done in Hcontent as (loaded & Hall & -> & ->).
  exists page_path, mtime, toml, items, loaded.
  destruct (dict_get "template" toml) as [tv|].
  - destruct Htemplate as (template & suffix & path & -> & Hsuf & Hout & -> & ->).
    simpl. split_and!; try done.
    + by exists suffix.
    + by apply with_suffix_Ok in Hout as (_ & _ & ?).
  - destruct Htemplate as [-> ->]. simpl. by split_and!.
Qed.

Lemma process_page_file_done_witness :
  ∃ page t,
    process_page_file example_host "/site/content" [] "blog/post"
    = Done (page, Some t)
    ∧ page_id t = "blog/post"
    ∧ Page.path page = output_path t
    ∧ Page.filename page = path_name (output_path t).
Proof.
  let r := eval vm_compute in
    (process_page_file example_host "/site/content" [] "blog/post") in
  lazymatch r with
  | Done (?page, Some ?t) =>
      assert (process_page_file example_host "/site/content" [] "blog/post"
              = Done (page, Some t)) as Hrun by (vm_compute; reflexivity);
      exists page, t
  end.
  destruct (process_page_file_done _ _ _ _ _ _ Hrun)
    as (page_path & mtime & toml & items & loaded & _ & _ & _ & _ & _ & _ & _
        & _ & _ & _ & _ & Htask).
  destruct Htask as (_ & Hid & _ & _ & Hpath & _ & Hname & _).
  split_and!; [exact Hrun|exact Hid|exact Hpath|exact Hname].
Defined.

Section ParserFailures.
Context (h : host).

Lemma load_content_Failed parent items ts content e notes :
  load_content h parent items ts content = Failed e notes →
  (e = Exn TypeError ∧ notes = [])
  ∨ ∃ path, stat h path = Failed e notes
            ∨ process_content h path = Failed e notes.
Proof.
  revert ts content. induction items as [|[k v] items IH]; intros ts content;
    simpl; [done|].
  destruct v as [| | | |s| | |]; try (intros [= <- <-]; by left).
  intros [Hrun|(t & _ & Hrun)]%bind_Failed; [right; eexists; by left|].
  apply bind_Failed in Hrun as [Hrun|(c & _ & Hrun)];
    [right; eexists; by right|by eapply IH].
Qed.

End ParserFailures.

(** X11: when the page parser raises, the exception is a [TypeError] without
    notes (a [content] field that is not a table, a content entry that is
    not a string or names a missing file, a [template] or [suffix] field
    that is not a string, [tags] that are not a list of strings, a bad
    [weight]), or a [ValueError] without notes (a [suffix] that is not a
    suffix), or the exception of reading the page file, or the exception,
    other than [FileNotFoundError] and [AttributeError], of reading or
    decoding a content file. *)
Theorem process_page_file_failure (h : host) (content_dir : string)
    (subdirs : list string) (pid : string) (e : error) (notes : list string) :
  process_page_file h content_dir subdirs pid = Failed e notes →
  ((e = Exn TypeError ∨ e = Exn ValueError) ∧ notes = [])
  ∨ (∃ page_path,
       with_suffix (truediv content_dir pid) ".page" = Ok page_path
       ∧ (stat h page_path = Failed e notes ∨ load h page_path = Failed e notes))
  ∨ (e ≠ FileNotFoundError ∧ e ≠ AttributeError
     ∧ ∃ path, stat h path = Failed e notes
               ∨ process_content h path = Failed e notes).
Proof.
  unfold process_page_file.
  intros [Hrun|(page_path & Hpath%lift_Done & Hrun)]%bind_Failed.
  { apply lift_Failed in Hrun as (x & Hx & -> & ->).
    apply with_suffix_exn in Hx as ->. left. auto. }
  apply bind_Failed in Hrun as [Hrun|(mtime & _ & Hrun)].
  { right; left. exists page_path. auto. }
  apply bind_Failed in Hrun as [Hrun|(toml & _ & Hrun)].
  { right; left. exists page_path. auto. }
  apply bind_Failed in Hrun as [Hrun|(loaded & _ & Hrun)].
  { destruct (get_default toml "content" (VDict [])) as [| | | | | | |items];
      try (injection Hrun as <- <-; left; by auto).
    destruct (load_content h _ items mtime []) as [|e' notes'] eqn:Hload;
      [done|].
    apply load_content_Failed in Hload as Hcases.
    destruct (decide (e' = AttributeError ∨ e' = FileNotFoundError)) as [He|He].
    { destruct He as [-> | ->]; injection Hrun as <- <-; left; by auto. }
    assert (e = e' ∧ notes = notes') as [-> ->].
    { destruct e'; simpl in Hrun; injection Hrun as <- <-; tauto. }
    destruct Hcases as [[-> ->]|Hhost]; [left; by auto|].
    right; right. split_and!; [| |done]; intros ->; tauto. }
  apply bind_Failed in Hrun as [Hrun|([[[task dir_] name] str_path] & _ & Hrun)].
  { destruct (dict_get "template" toml) as [[| | | |template| | |]|];
      try (injection Hrun as <- <-; left; by auto); [|done].
    destruct (get_default toml "suffix" (VStr ".html")) as [| | | |suffix| | |];
      try (injection Hrun as <- <-; left; by auto).
    apply bind_Failed in Hrun as [Hrun|(? & _ & [=])].
    apply lift_Failed in Hrun as (x & Hx & -> & ->).
    apply with_suffix_exn in Hx as ->. left. auto. }
  apply bind_Failed in Hrun as [Hrun|(tags & _ & Hrun)].
  { destruct (get_default toml "tags" (VList [])) as [| | | | | |l|];
      try (injection Hrun as <- <-; left; by auto).
    destruct (str_list l); [done|]. injection Hrun as <- <-. left. auto. }
  apply bind_Failed in Hrun as [Hrun|(weight & _ & [=])].
  apply lift_Failed in Hrun as (x & Hx & -> & ->).
  left. split; [|done]. left. f_equal.
  revert Hx. unfold process_weight. repeat case_match; congruence.
Qed.

Lemma process_page_file_failure_witness :
  process_page_file example_host "/site/content" [] "bad"
  = Failed (Exn TypeError) []
  ∧ (((Exn TypeError = Exn TypeError ∨ Exn TypeError = Exn ValueError)
      ∧ @nil string = [])
     ∨ (∃ page_path,
          with_suffix (truediv "/site/content" "bad") ".page" = Ok page_path
          ∧ (stat example_host page_path = Failed (Exn TypeError) []
             ∨ load example_host page_path = Failed (Exn TypeError) []))
     ∨ (Exn TypeError ≠ FileNotFoundError ∧ Exn TypeError ≠ AttributeError
        ∧ ∃ path, stat example_host path = Failed (Exn TypeError) []
                  ∨ process_content example_host path
                    = Failed (Exn TypeError) [])).
Proof.
  assert (process_page_file example_host "/site/content" [] "bad"
          = Failed (Exn TypeError) []) as Hrun by (vm_compute; reflexivity).
  split; [exact Hrun|].
  exact (process_page_file_failure _ _ _ _ _ _ Hrun).
Defined.

(** ** Paths built from parts *)

Lemma str_app_inv_l (s a b : string) : s +:+ a = s +:+ b → a = b.
Proof.
  induction s as [|c s IH]; [done|]. rewrite !str_app_cons. intros [= H]. auto.
Qed.

Lemma str_app_inv_r (a b s : string) : a +:+ s = b +:+ s → a = b.
Proof.
  revert b. induction a as [|c a IH]; intros [|d b] H.
  - done.
  - apply (f_equal String.length) in H.
    rewrite str_app_nil_l, str_app_cons in H. simpl in H.
    rewrite str_length_app in H. lia.
  - apply (f_equal String.length) in H.
    rewrite str_app_nil_l, str_app_cons in H. simpl in H.
    rewrite str_length_app in H. lia.
  - rewrite !str_app_cons in H. injection H as -> H. f_equal. auto.
Qed.

Lemma join_snoc (l : list string) (x : string) :
  join "/" (l ++ [x]) = dir_prefix l +:+ x.
Proof.
  induction l as [|d l IH]; [done|].
  change ((d :: l) ++ [x]) with (d :: (l ++ [x])).
  assert (join "/" (d :: (l ++ [x])) = d +:+ "/" +:+ join "/" (l ++ [x])) as ->.
  { by destruct l. }
  rewrite IH. simpl. by rewrite !str_app_assoc.
Qed.

Lemma dir_prefix_shape (l : list string) :
  dir_prefix l = "" ∨ ∃ d, dir_prefix l = d +:+ "/".
Proof.
  induction l as [|x l IH]; [by left|]. right. simpl.
  destruct IH as [->|[d ->]].
  - exists x. done.
  - exists (x +:+ "/" +:+ d). by rewrite !str_app_assoc.
Qed.

Lemma root_prefix_shape (root : string) (l : list string) :
  root = "" ∨ root = "/" ∨ root = "//" →
  root +:+ dir_prefix l = ""
  ∨ ∃ d, root +:+ dir_prefix l = d +:+ "/".
Proof.
  intros Hroot. destruct (dir_prefix_shape l) as [->|[d ->]].
  - rewrite str_app_nil_r. destruct Hroot as [-> | [-> | ->]]; [by left|right..].
    + by exists "".
    + by exists "/".
  - right. exists (root +:+ d). by rewrite str_app_assoc.
Qed.

Lemma path_root_cases (s : string) :
  path_root s = "" ∨ path_root s = "/" ∨ path_root s = "//".
Proof.
  unfold path_root. repeat case_match; auto.
Qed.

Lemma dir_prefix_app (l1 l2 : list string) :
  dir_prefix (l1 ++ l2) = dir_prefix l1 +:+ dir_prefix l2.
Proof.
  induction l1 as [|x l1 IH]; [done|]. simpl. rewrite IH.
  by rewrite !str_app_assoc.
Qed.

(** Splitting the text of a list of parts gives the parts back. *)
Lemma split_char_part (x : string) :
  contains_char "/" x = false → split_char "/" x = [x].
Proof. apply split_char_whole. Qed.

Lemma split_join_parts (l : list string) :
  l ≠ [] → Forall is_part l → split_char "/" (join "/" l) = l.
Proof.
  intros Hne Hall. induction Hall as [|x l Hx Hl IH]; [done|].
  destruct l as [|y l].
  - simpl. apply split_char_whole. by destruct Hx as (_ & _ & ?).
  - assert (join "/" (x :: y :: l) = x +:+ String "/" (join "/" (y :: l))) as ->.
    { done. }
    rewrite split_char_sep, IH by done.
    rewrite split_char_whole; [done|]. by destruct Hx as (_ & _ & ?).
Qed.

Lemma path_parts_join (l : list string) :
  Forall is_part l → path_parts (join "/" l) = l.
Proof.
  intros Hall. unfold path_parts. destruct (decide (l = [])) as [->|Hne].
  { done. }
  rewrite split_join_parts by done.
  induction Hall as [|x l Hx Hl IH]; [done|].
  rewrite filter_cons. destruct Hx as (? & ? & ?).
  rewrite decide_True by done. f_equal.
  destruct l; [done|]. by apply IH.
Qed.

Lemma path_root_join (l : list string) :
  Forall is_part l → path_root (join "/" l) = "".
Proof.
  intros Hall. destruct l as [|x l]; [done|].
  apply Forall_cons in Hall as [(Hne & _ & Hslash) _].
  assert (∃ t, join "/" (x :: l) = x +:+ t) as [t ->].
  { destruct l; [exists ""; by rewrite str_app_nil_r|by eexists]. }
  destruct x as [|a x]; [done|].
  rewrite str_app_cons. simpl in Hslash. apply orb_false_iff in Hslash as [Ha _].
  unfold path_root. destruct (Ascii.eqb_spec a "/") as [->|Hne']; [done|].
  destruct a as [[] [] [] [] [] [] [] []]; done.
Qed.

Lemma truediv_parts (a : string) (l : list string) :
  Forall is_part l →
  truediv a (join "/" l) = path_root a +:+ join "/" (path_parts a ++ l).
Proof.
  intros Hall. unfold truediv.
  by rewrite path_root_join, path_parts_join.
Qed.

Lemma path_parts_no_slash (s x : string) :
  x ∈ path_parts s → is_part x.
Proof.
  unfold path_parts. intros [[Hne Hdot] Hx]%list_elem_of_filter.
  split_and!; [done..|]. clear Hne Hdot. revert x Hx.
  induction s as [|a s IH]; intros x; simpl.
  { by intros ->%list_elem_of_singleton. }
  destruct (Ascii.eqb_spec a "/") as [->|Hne'].
  - intros [->|Hx]%elem_of_cons; [done|auto].
  - pose proof (split_char_nonempty "/" s) as Hne''.
    destruct (split_char "/" s) as [|y r]; [done|].
    intros [->|Hx]%elem_of_cons.
    + simpl. apply orb_false_iff. split; [by apply Ascii.eqb_neq|].
      apply IH. apply list_elem_of_here.
    + apply IH. by apply list_elem_of_further.
Qed.

(** Name and stem of a path that ends with a part. *)
Lemma path_of_parts_split (root : string) (l : list string) (x : string) :
  root = "" ∨ root = "/" ∨ root = "//" →
  contains_char "/" x = false →
  root +:+ join "/" (l ++ [x]) = (root +:+ dir_prefix l) +:+ x
  ∧ path_name (root +:+ join "/" (l ++ [x])) = x
  ∧ path_before_name (root +:+ join "/" (l ++ [x])) = root +:+ dir_prefix l.
Proof.
  intros Hroot Hx. rewrite join_snoc, <- str_app_assoc. split; [done|].
  apply path_split; [|done]. by apply root_prefix_shape.
Qed.

Lemma path_stem_name x : contains_char "/" x = false → path_name x = x.
Proof. intros Hx. unfold path_name. by rewrite rfind_split_None. Qed.

Lemma with_suffix_parts (root : string) (l : list string) (x suffix : string) :
  root = "" ∨ root = "/" ∨ root = "//" →
  contains_char "/" x = false → x ≠ "" →
  contains_char "/" suffix = false →
  suffix = "" ∨ (String.prefix "." suffix = true ∧ suffix ≠ ".") →
  with_suffix (root +:+ join "/" (l ++ [x])) suffix
  = Ok (root +:+ join "/" (l ++ [path_stem x +:+ suffix])).
Proof.
  intros Hroot Hx Hne Hs1 Hs2.
  destruct (path_of_parts_split root l x Hroot Hx) as (Heq & Hname & Hbefore).
  unfold with_suffix. rewrite Hs1.
  rewrite Hname, Hbefore.
  assert (negb (String.eqb suffix "") && negb (String.prefix "." suffix)
          || String.eqb suffix "." = false) as ->.
  { destruct Hs2 as [->|[-> Hdot]]; [done|].
    apply String.eqb_neq in Hdot. rewrite Hdot. by rewrite andb_false_r. }
  apply String.eqb_neq in Hne. rewrite Hne. f_equal.
  assert (path_stem (root +:+ join "/" (l ++ [x])) = path_stem x) as ->.
  { unfold path_stem. by rewrite Hname, (path_stem_name x Hx). }
  by rewrite join_snoc, <- !str_app_assoc.
Qed.

Lemma rfind_split_Some c s pre post :
  rfind_split c s = Some (pre, post) → s = pre +:+ String c post.
Proof.
  revert pre. induction s as [|a s IH]; intros pre; simpl; [done|].
  destruct (rfind_split c s) as [[pre' post']|].
  - intros [= <- <-]. rewrite str_app_cons. f_equal. by apply IH.
  - destruct (Ascii.eqb_spec a c) as [->|]; [|done]. by intros [= <- <-].
Qed.

Lemma stem_suffix (x : string) :
  contains_char "/" x = false → path_stem x +:+ path_suffix x = x.
Proof.
  intros Hx. unfold path_stem, path_suffix. rewrite (path_stem_name x Hx).
  destruct (rfind_split "." x) as [[pre post]|] eqn:E.
  - apply rfind_split_Some in E.
    destruct pre as [|a pre], post as [|b post]; by rewrite ?str_app_nil_r.
  - by rewrite str_app_nil_r.
Qed.

Lemma stem_unchanged (x : string) :
  contains_char "/" x = false → path_stem x = x ↔ path_suffix x = "".
Proof.
  intros Hx. pose proof (stem_suffix x Hx) as H. split.
  - intros E. rewrite E in H. apply (str_app_inv_l x _ "").
    by rewrite str_app_nil_r.
  - intros E. by rewrite E, str_app_nil_r in H.
Qed.

Lemma page_suffix_of_stem (stem : string) :
  stem ≠ "" → contains_char "/" stem = false →
  path_suffix (stem +:+ ".page") = ".page"
  ∧ path_stem (stem +:+ ".page") = stem.
Proof.
  intros Hne Hs. unfold path_suffix, path_stem.
  assert (contains_char "/" (stem +:+ ".page") = false) as Hs'.
  { rewrite contains_char_app. by rewrite Hs. }
  rewrite (path_stem_name _ Hs').
  change (stem +:+ ".page") with (stem +:+ String "." "page").
  rewrite rfind_split_sep by done. by destruct stem.
Qed.

Lemma path_stem_no_slash x :
  contains_char "/" x = false → contains_char "/" (path_stem x) = false.
Proof.
  intros Hx. pose proof (stem_suffix x Hx) as H. rewrite <- H in Hx.
  rewrite contains_char_app in Hx. by apply orb_false_iff in Hx as [? _].
Qed.

Lemma is_part_page (x : string) :
  contains_char "/" x = false → is_part (x +:+ ".page").
Proof.
  intros Hx. split_and!.
  - by apply str_app_nonempty_r.
  - intros H. apply (f_equal String.length) in H.
    rewrite str_length_app in H. simpl in H. lia.
  - rewrite contains_char_app. by rewrite Hx.
Qed.

(** X12: A page file is looked up again from its identifier: the file
    [<stem>.page] of a directory gives the identifier [<stem>], and the
    page parser reads the file named by the identifier with its last suffix
    replaced by [.page].  This is the file the identifier came from exactly
    when the stem has no suffix of its own: a page file [a.b.page] has the
    identifier [a.b] and is parsed from the file [a.page]. *)
Theorem page_file_of_page_id (content_dir : string) (dirs : list string)
    (stem : string) :
  Forall is_part (dirs ++ [stem]) →
  let relpath := join "/" (dirs ++ [stem +:+ ".page"]) in
  let pid := join "/" (dirs ++ [stem]) in
  path_suffix relpath = ".page"
  ∧ with_suffix relpath "" = Ok pid
  ∧ as_posix pid = pid
  ∧ with_suffix (truediv content_dir pid) ".page"
    = Ok (truediv content_dir (join "/" (dirs ++ [path_stem stem +:+ ".page"])))
  ∧ (with_suffix (truediv content_dir pid) ".page"
     = Ok (truediv content_dir relpath)
     ↔ path_suffix stem = "").
Proof.
  intros Hall relpath pid.
  destruct (proj1 (Forall_app _ _ _) Hall) as [Hdirs Hstem].
  destruct (proj1 (Forall_singleton _ _) Hstem) as (Hne & Hdot & Hslash).
  destruct (page_suffix_of_stem stem Hne Hslash) as [Hsuf Hst].
  pose proof (is_part_page stem Hslash) as Hpage.
  assert (contains_char "/" (stem +:+ ".page") = false) as Hslash'
    by by destruct Hpage as (_ & _ & ?).
  destruct (path_of_parts_split "" dirs (stem +:+ ".page")) as (_ & Hname & _);
    [by left|done|].
  rewrite str_app_nil_l in Hname. fold relpath in Hname.
  assert (with_suffix (truediv content_dir pid) ".page"
          = Ok (truediv content_dir
                  (join "/" (dirs ++ [path_stem stem +:+ ".page"])))) as Hfile.
  { unfold pid. rewrite !truediv_parts.
    - rewrite !app_assoc. apply with_suffix_parts; try done.
      + apply path_root_cases.
      + by right.
    - apply Forall_app. split; [done|]. apply Forall_singleton.
      apply is_part_page. by apply path_stem_no_slash.
    - done. }
  split_and!.
  - unfold path_suffix in *. rewrite Hname.
    by rewrite (path_stem_name _ Hslash') in Hsuf.
  - pose proof (with_suffix_parts "" dirs (stem +:+ ".page") "") as H.
    rewrite !str_app_nil_l in H. unfold relpath. rewrite H; try done.
    + unfold pid. by rewrite Hst, str_app_nil_r.
    + by left.
    + by apply str_app_nonempty_r.
    + by left.
  - apply as_posix_nonempty. unfold pid. rewrite join_snoc.
    by apply str_app_nonempty_r.
  - done.
  - rewrite Hfile. unfold relpath. rewrite !truediv_parts.
    2:{ apply Forall_app. split; [done|]. by apply Forall_singleton. }
    2:{ apply Forall_app. split; [done|]. apply Forall_singleton.
        apply is_part_page. by apply path_stem_no_slash. }
    rewrite !app_assoc, !join_snoc. rewrite <- stem_unchanged by done. split.
    + intros [= H]. apply str_app_inv_l in H. apply str_app_inv_l in H.
      by apply str_app_inv_r in H.
    + by intros ->.
Qed.

Lemma page_file_of_page_id_witness :
  with_suffix "blog/a.b.page" "" = Ok "blog/a.b"
  ∧ with_suffix (truediv "/site/content" "blog/a.b") ".page"
    = Ok "/site/content/blog/a.page".
Proof.
  pose proof (page_file_of_page_id "/site/content" ["blog"] "a.b") as H.
  destruct H as (_ & H1 & _ & H2 & _).
  { repeat constructor; done. }
  split; [exact H1|exact H2].
Defined.
